(** * CAET lesson tracker: progress scoring and session store

    A shallow embedding of [lesson-tracker.js] (the current revision, the one
    with the question ledger) and the properties of its scoring engine.

    Conventions of the embedding.
    - A JavaScript number is a rational or one of [NaN], [+Infinity],
      [-Infinity], the exceptional values that [/] and [Math.round] can
      produce; the sign of zero is left out.  Where a result of the script
      depends on the rounding of doubles, the operations are the rounded ones
      ([Num.fdiv], [Num.fmul], [Num.fsub], each the exact result taken to
      the nearest double): the percentages of quizzes and questions, the
      radii and the sweep angle of the chart.  The scroll percentage and the
      sums and products of the progress score are taken exactly.
    - A string is a sequence of code units below 256.  On those,
      [toLowerCase] followed by [replace(/[^a-z0-9]/g, '')] is computed
      exactly by [normalize].
    - Counters that the script only initialises to [0] and increments are
      integers ([Z]).
    - [Date.now()] is an argument [now] of every operation that reads it. *)

From Stdlib Require Import ZArith QArith Qround Qabs Qpower Lia Lqa String Ascii List Bool.
From stdpp Require Import gmap strings list fin_maps.

Local Open Scope Z_scope.

(** ** Numbers *)

Module Num.

Inductive num : Type :=
| Fin (q : Q)
| PInf
| NInf
| NaN.

Definition ofZ (z : Z) : num := Fin (inject_Z z).

Definition isNaN (a : num) : bool :=
  match a with NaN => true | _ => false end.

(** [a + b] *)
Definition add (a b : num) : num :=
  match a, b with
  | NaN, _ | _, NaN => NaN
  | PInf, NInf | NInf, PInf => NaN
  | PInf, _ | _, PInf => PInf
  | NInf, _ | _, NInf => NInf
  | Fin x, Fin y => Fin (x + y)
  end.

(** Sign of a rational: [Gt] positive, [Lt] negative, [Eq] zero. *)
Definition sgn (x : Q) : comparison := (Qnum x ?= 0)%Z.

(** [a - b] *)
Definition sub (a b : num) : num :=
  match a, b with
  | NaN, _ | _, NaN => NaN
  | PInf, PInf | NInf, NInf => NaN
  | PInf, _ | _, NInf => PInf
  | NInf, _ | _, PInf => NInf
  | Fin x, Fin y => Fin (x - y)
  end.

(** [a * b] *)
Definition mul (a b : num) : num :=
  match a, b with
  | NaN, _ | _, NaN => NaN
  | Fin x, Fin y => Fin (x * y)
  | Fin x, PInf | PInf, Fin x =>
      match sgn x with Gt => PInf | Lt => NInf | Eq => NaN end
  | Fin x, NInf | NInf, Fin x =>
      match sgn x with Gt => NInf | Lt => PInf | Eq => NaN end
  | PInf, PInf | NInf, NInf => PInf
  | PInf, NInf | NInf, PInf => NaN
  end.

(** [a / b]; a finite number over zero is an infinity of the sign of the
    numerator and [0 / 0] is [NaN]. *)
Definition div (a b : num) : num :=
  match a, b with
  | NaN, _ | _, NaN => NaN
  | Fin x, Fin y =>
      match sgn y with
      | Eq => match sgn x with Gt => PInf | Lt => NInf | Eq => NaN end
      | _ => Fin (x / y)
      end
  | Fin _, (PInf | NInf) => Fin 0
  | (PInf | NInf), (PInf | NInf) => NaN
  | PInf, Fin y => match sgn y with Lt => NInf | _ => PInf end
  | NInf, Fin y => match sgn y with Lt => PInf | _ => NInf end
  end.

(** The exponent [e] at which a positive rational [y] has a significand of
    53 bits: [2^52 <= y * 2^-e < 2^53]. *)
Definition exponent (y : Q) : Z :=
  let e0 := (Z.log2 (Qnum y) - Z.log2 (Zpos (Qden y)) - 52)%Z in
  if Qle_bool (2 ^ 52) (y * 2 ^ (- e0)) then e0 else (e0 - 1)%Z.

(** The integer nearest to [s], a tie going to the even one. *)
Definition nearestEven (s : Q) : Z :=
  let f := Qfloor s in
  match (s - inject_Z f ?= 1 # 2)%Q with
  | Lt => f
  | Gt => (f + 1)%Z
  | Eq => if Z.even f then f else (f + 1)%Z
  end.

(** The double nearest to a rational, ties to even: the result of an
    operation on doubles is this function of the exact result, and a decimal
    literal denotes this function of its value.  The exponent is not bounded
    here: the function is the machine's wherever the result is in the normal
    range (from [2^-1022] up to the largest double), without the overflow to
    an infinity above it and the subnormal numbers below. *)
Definition nearestDouble (x : Q) : Q :=
  if Qeq_bool x 0 then 0%Q
  else
    let y := Qabs x in
    let e := exponent y in
    let r := Qred (inject_Z (nearestEven (y * 2 ^ (- e))) * 2 ^ e) in
    if Qle_bool 0 x then r else Qred (- r).

(** A result as it is stored: a finite one is rounded to the nearest
    double. *)
Definition rounded (a : num) : num :=
  match a with
  | Fin x => Fin (nearestDouble x)
  | _ => a
  end.

(** [a - b], [a * b] and [a / b] in the arithmetic of doubles. *)
Definition fsub (a b : num) : num := rounded (sub a b).

Definition fmul (a b : num) : num := rounded (mul a b).

Definition fdiv (a b : num) : num := rounded (div a b).

(** [a > b]: false as soon as one side is [NaN]. *)
Definition gt (a b : num) : bool :=
  match a, b with
  | NaN, _ | _, NaN => false
  | Fin x, Fin y => negb (Qle_bool x y)
  | PInf, PInf => false
  | PInf, _ => true
  | _, PInf => false
  | NInf, _ => false
  | Fin _, NInf => true
  end.

Definition lt (a b : num) : bool := gt b a.

(** [Math.min(a, b)] and [Math.max(a, b)] *)
Definition min (a b : num) : num :=
  match a, b with
  | NaN, _ | _, NaN => NaN
  | _, _ => if gt a b then b else a
  end.

Definition max (a b : num) : num :=
  match a, b with
  | NaN, _ | _, NaN => NaN
  | _, _ => if gt b a then b else a
  end.

(** [Math.round(a)]: the nearest integer, a tie going up. *)
Definition round (a : num) : num :=
  match a with
  | Fin x => Fin (inject_Z (Qfloor (x + (1 # 2))))
  | _ => a
  end.

(** Truthiness of a number in a condition: [0] and [NaN] are falsy. *)
Definition truthy (a : num) : bool :=
  match a with
  | NaN => false
  | Fin x => negb (Qeq_bool x 0)
  | _ => true
  end.

(** An integer between [lo] and [hi]. *)
Definition int_between (lo hi : Z) (a : num) : Prop :=
  exists z : Z, a = ofZ z /\ lo <= z <= hi.

End Num.

Abbreviation num := Num.num.
Abbreviation Fin := Num.Fin.
Abbreviation PInf := Num.PInf.
Abbreviation NInf := Num.NInf.
Abbreviation NaN := Num.NaN.
Abbreviation ofZ := Num.ofZ.

(** ** The identity normaliser *)

Definition is_upper (c : ascii) : bool :=
  let n := nat_of_ascii c in (65 <=? n)%nat && (n <=? 90)%nat.

Definition is_lower (c : ascii) : bool :=
  let n := nat_of_ascii c in (97 <=? n)%nat && (n <=? 122)%nat.

Definition is_digit (c : ascii) : bool :=
  let n := nat_of_ascii c in (48 <=? n)%nat && (n <=? 57)%nat.

(** [c.toLowerCase()] for one code unit, as far as [normalize] can tell:
    the code units from 128 to 255 lower to code units outside [a-z0-9],
    which [strip] removes whether lowered or not, so they are left alone. *)
Definition lower_char (c : ascii) : ascii :=
  if is_upper c then ascii_of_nat (nat_of_ascii c + 32) else c.

Fixpoint toLowerCase (s : string) : string :=
  match s with
  | EmptyString => EmptyString
  | String c r => String (lower_char c) (toLowerCase r)
  end.

(** [s.replace(/[^a-z0-9]/g, '')] *)
Fixpoint strip (s : string) : string :=
  match s with
  | EmptyString => EmptyString
  | String c r => if is_lower c || is_digit c then String c (strip r) else strip r
  end.

(** [name.toLowerCase().replace(/[^a-z0-9]/g, '')] *)
Definition normalize (name : string) : string := strip (toLowerCase name).

(** ** Plain objects used as dictionaries

    [quizScores], [topicProgress] and [questionsAnswered.questions] are object
    literals.  Reading a key that is not an own property falls back to
    [Object.prototype], so a handful of names read as a (truthy) inherited
    value on an empty dictionary. *)

Definition proto_keys : list string :=
  ["constructor"; "__proto__"; "hasOwnProperty"; "isPrototypeOf";
   "propertyIsEnumerable"; "toLocaleString"; "toString"; "valueOf";
   "__defineGetter__"; "__defineSetter__"; "__lookupGetter__";
   "__lookupSetter__"]%string.

Definition inherited (k : string) : bool := bool_decide (k ∈ proto_keys).

Inductive property (A : Type) : Type :=
| Own (v : A)
| Inherited
| Undefined.
Arguments Own {A} v.
Arguments Inherited {A}.
Arguments Undefined {A}.

(** [o[k]] *)
Definition get {A : Type} (o : gmap string A) (k : string) : property A :=
  match o !! k with
  | Some v => Own v
  | None => if inherited k then Inherited else Undefined
  end.

(** ** The session *)

Record Objective : Type := mkObjective {
  o_name : string;
  o_completed : bool;
  o_score : num;
  o_timestamp : Z
}.

Record Quiz : Type := mkQuiz {
  q_score : num;
  q_maxScore : num;
  q_percentage : num;
  q_totalQuestions : num;
  q_timestamp : Z
}.

Record Question : Type := mkQuestion {
  qn_answered : bool;
  qn_correct : bool;
  qn_text : string;
  qn_timestamp : Z
}.

(** [trackerState.questionsAnswered] *)
Record Ledger : Type := mkLedger {
  total : Z;
  correct : Z;
  questions : gmap string Question
}.

(** [trackerState] *)
Record Session : Type := mkSession {
  lessonId : option string;
  lessonTitle : string;
  startTime : Z;
  lastActivity : Z;
  totalTime : Z;
  activeTime : Z;
  scrollDepth : num;
  maxScrollDepth : num;
  interactions : Z;
  objectives : list Objective;
  isActive : bool;
  isFullscreen : bool;
  quizScores : gmap string Quiz;
  topicProgress : gmap string num;
  questionsAnswered : Ledger
}.

Definition emptyLedger : Ledger :=
  {| total := 0; correct := 0; questions := ∅ |}.

(** The object literal that [trackerState] is bound to when the script
    loads, before [init] resolves the lesson id. *)
Definition initialState (title : string) (now : Z) : Session :=
  {| lessonId := None;
     lessonTitle := title;
     startTime := now;
     lastActivity := now;
     totalTime := 0;
     activeTime := 0;
     scrollDepth := ofZ 0;
     maxScrollDepth := ofZ 0;
     interactions := 0;
     objectives := [];
     isActive := true;
     isFullscreen := false;
     quizScores := ∅;
     topicProgress := ∅;
     questionsAnswered := emptyLedger |}.

(** Field updates ([trackerState.f = v]). *)
Definition set_lessonId (v : option string) (s : Session) : Session :=
  {| lessonId := v; lessonTitle := lessonTitle s; startTime := startTime s;
     lastActivity := lastActivity s; totalTime := totalTime s;
     activeTime := activeTime s; scrollDepth := scrollDepth s;
     maxScrollDepth := maxScrollDepth s; interactions := interactions s;
     objectives := objectives s; isActive := isActive s;
     isFullscreen := isFullscreen s; quizScores := quizScores s;
     topicProgress := topicProgress s;
     questionsAnswered := questionsAnswered s |}.

Definition set_objectives (v : list Objective) (s : Session) : Session :=
  {| lessonId := lessonId s; lessonTitle := lessonTitle s;
     startTime := startTime s; lastActivity := lastActivity s;
     totalTime := totalTime s; activeTime := activeTime s;
     scrollDepth := scrollDepth s; maxScrollDepth := maxScrollDepth s;
     interactions := interactions s; objectives := v;
     isActive := isActive s; isFullscreen := isFullscreen s;
     quizScores := quizScores s; topicProgress := topicProgress s;
     questionsAnswered := questionsAnswered s |}.

Definition set_quizScores (v : gmap string Quiz) (s : Session) : Session :=
  {| lessonId := lessonId s; lessonTitle := lessonTitle s;
     startTime := startTime s; lastActivity := lastActivity s;
     totalTime := totalTime s; activeTime := activeTime s;
     scrollDepth := scrollDepth s; maxScrollDepth := maxScrollDepth s;
     interactions := interactions s; objectives := objectives s;
     isActive := isActive s; isFullscreen := isFullscreen s;
     quizScores := v; topicProgress := topicProgress s;
     questionsAnswered := questionsAnswered s |}.

Definition set_topicProgress (v : gmap string num) (s : Session) : Session :=
  {| lessonId := lessonId s; lessonTitle := lessonTitle s;
     startTime := startTime s; lastActivity := lastActivity s;
     totalTime := totalTime s; activeTime := activeTime s;
     scrollDepth := scrollDepth s; maxScrollDepth := maxScrollDepth s;
     interactions := interactions s; objectives := objectives s;
     isActive := isActive s; isFullscreen := isFullscreen s;
     quizScores := quizScores s; topicProgress := v;
     questionsAnswered := questionsAnswered s |}.

Definition set_questionsAnswered (v : Ledger) (s : Session) : Session :=
  {| lessonId := lessonId s; lessonTitle := lessonTitle s;
     startTime := startTime s; lastActivity := lastActivity s;
     totalTime := totalTime s; activeTime := activeTime s;
     scrollDepth := scrollDepth s; maxScrollDepth := maxScrollDepth s;
     interactions := interactions s; objectives := objectives s;
     isActive := isActive s; isFullscreen := isFullscreen s;
     quizScores := quizScores s; topicProgress := topicProgress s;
     questionsAnswered := v |}.

(** ** The progress scorer *)

Module CONFIG.

Definition updateInterval : Z := 5000.
Definition scrollThreshold : Z := 80.
Definition timeCheckInterval : Z := 1000.
Definition minActiveTime : Z := 30.
Definition idleTimeout : Z := 60000.

End CONFIG.

(** [Math.min(100, (trackerState.activeTime / CONFIG.minActiveTime) * w)],
    with [w] the constant of the branch: 25 or 40. *)
Definition timeProgress (w : Z) (s : Session) : num :=
  Num.min (ofZ 100)
    (Num.mul (Num.div (ofZ (activeTime s)) (ofZ CONFIG.minActiveTime)) (ofZ w)).

(** [(trackerState.maxScrollDepth / 100) * w] *)
Definition scrollProgress (w : Z) (s : Session) : num :=
  Num.mul (Num.div (maxScrollDepth s) (ofZ 100)) (ofZ w).

(** [Math.min(15, trackerState.interactions)] *)
Definition interactionProgressStandard (s : Session) : num :=
  Num.min (ofZ 15) (ofZ (interactions s)).

(** [Math.min(10, trackerState.interactions * 0.5)] *)
Definition interactionProgressQuiz (s : Session) : num :=
  Num.min (ofZ 10) (Num.mul (ofZ (interactions s)) (Fin (1 # 2))).

(** [quizScores.reduce((sum, q) => sum + q.percentage, 0)] *)
Definition sumPercentages (qs : list Quiz) : num :=
  foldl (fun sum q => Num.add sum (q_percentage q)) (ofZ 0) qs.

(** [Object.values(trackerState.quizScores)] *)
Definition quizValues (s : Session) : list Quiz := (map_to_list (quizScores s)).*2.

Definition hasQuizzes (s : Session) : bool :=
  bool_decide (0 < size (quizScores s))%nat.

Definition hasObjectives (s : Session) : bool :=
  bool_decide (0 < length (objectives s))%nat.

Definition hasQuestions (s : Session) : bool :=
  bool_decide (0 < total (questionsAnswered s)).

(** The quiz/questions component of the quiz-aware branch. *)
Definition quizProgress (s : Session) : num :=
  if hasQuizzes s then
    let avgQuizScore :=
      Num.div (sumPercentages (quizValues s))
              (ofZ (Z.of_nat (length (quizValues s)))) in
    Num.mul (Num.div avgQuizScore (ofZ 100)) (ofZ 30)
  else if hasQuestions s then
    let correctPercent :=
      if bool_decide (0 < total (questionsAnswered s)) then
        Num.mul (Num.div (ofZ (correct (questionsAnswered s)))
                         (ofZ (total (questionsAnswered s)))) (ofZ 100)
      else ofZ 0 in
    Num.mul (Num.div correctPercent (ofZ 100)) (ofZ 30)
  else ofZ 0.

(** The objectives component, the same text in both branches. *)
Definition objectiveProgress (s : Session) : num :=
  if hasObjectives s then
    let completedObjectives := length (filter (fun o => o_completed o = true) (objectives s)) in
    Num.mul (Num.div (ofZ (Z.of_nat completedObjectives))
                     (ofZ (Z.of_nat (length (objectives s))))) (ofZ 15)
  else ofZ 15.

(** The running sum [progress] before the final rounding. *)
Definition rawProgress (s : Session) : num :=
  let progress := ofZ 0 in
  if hasQuizzes s || hasQuestions s then
    let progress := Num.add progress (timeProgress 25 s) in
    let progress := Num.add progress (scrollProgress 20 s) in
    let progress := Num.add progress (interactionProgressQuiz s) in
    let progress := Num.add progress (quizProgress s) in
    Num.add progress (objectiveProgress s)
  else
    let progress := Num.add progress (timeProgress 40 s) in
    let progress := Num.add progress (scrollProgress 30 s) in
    let progress := Num.add progress (interactionProgressStandard s) in
    Num.add progress (objectiveProgress s).

(** [calculateProgress()] *)
Definition calculateProgress (s : Session) : num :=
  Num.min (ofZ 100) (Num.round (rawProgress s)).

(** ** The reporter *)

(** The [data] of a [PROGRESS_UPDATE] message. *)
Record ProgressData : Type := mkProgressData {
  pd_progress : num;
  pd_scrollDepth : num;
  pd_activeTime : Z;
  pd_totalTime : Z;
  pd_interactions : Z;
  pd_objectives : list Objective;
  pd_quizScores : gmap string Quiz;
  pd_topicProgress : gmap string num;
  pd_questionsAnswered : Ledger;
  pd_timestamp : Z
}.

(** The [data] of a [LESSON_COMPLETED] message. *)
Record CompletionData : Type := mkCompletionData {
  cd_activeTime : Z;
  cd_scrollDepth : num;
  cd_objectives : list Objective;
  cd_quizScores : gmap string Quiz;
  cd_topicProgress : gmap string num;
  cd_questionsAnswered : Ledger
}.

(** What the public API hands to [sendToParent]. *)
Inductive Message : Type :=
| PROGRESS_UPDATE (lesson : option string) (data : ProgressData)
| LESSON_COMPLETED (lesson : option string) (data : CompletionData).

(** [sendProgressUpdate()]: the messages handed to [sendToParent]. *)
Definition sendProgressUpdate (s : Session) (now : Z) : list Message :=
  let progress := calculateProgress s in
  [PROGRESS_UPDATE (lessonId s)
     {| pd_progress := progress;
        pd_scrollDepth := maxScrollDepth s;
        pd_activeTime := activeTime s;
        pd_totalTime := totalTime s;
        pd_interactions := interactions s;
        pd_objectives := objectives s;
        pd_quizScores := quizScores s;
        pd_topicProgress := topicProgress s;
        pd_questionsAnswered := questionsAnswered s;
        pd_timestamp := now |}].

Definition is_progress_update (m : Message) : bool :=
  match m with PROGRESS_UPDATE _ _ => true | _ => false end.

(** A call pulses when it hands at least one [PROGRESS_UPDATE] to the
    transport. *)
Definition pulses (out : list Message) : bool := existsb is_progress_update out.

(** ** The public API, [window.CAETTracker]

    Every operation takes the session before the call and returns the session
    after it together with the messages sent during the call. *)

(** The callback of both [find] calls on [trackerState.objectives]. *)
Definition sameObjective (normalizedName : string) (o : Objective) : bool :=
  String.eqb (normalize (o_name o)) normalizedName.

(** In-place update of the element that [find] returns: the first one that
    satisfies [p]. *)
Fixpoint update_first {A : Type} (p : A -> bool) (f : A -> A) (l : list A) : list A :=
  match l with
  | [] => []
  | x :: r => if p x then f x :: r else x :: update_first p f r
  end.

(** [existing.completed = true; existing.score = Math.max(existing.score, score)] *)
Definition complete (score : num) (existing : Objective) : Objective :=
  {| o_name := o_name existing;
     o_completed := true;
     o_score := Num.max (o_score existing) score;
     o_timestamp := o_timestamp existing |}.

Definition completeObjective (s : Session) (objectiveName : string)
    (score : option num) (now : Z) : Session * list Message :=
  let score := default (ofZ 100) score in
  let normalizedName := normalize objectiveName in
  let s' :=
    match List.find (sameObjective normalizedName) (objectives s) with
    | Some _ =>
        set_objectives
          (update_first (sameObjective normalizedName) (complete score) (objectives s)) s
    | None =>
        set_objectives
          (objectives s ++
             [{| o_name := objectiveName; o_completed := true;
                 o_score := score; o_timestamp := now |}]) s
    end in
  (s', sendProgressUpdate s' now).

Definition addObjective (s : Session) (objectiveName : string) (now : Z)
    : Session * list Message :=
  let normalizedName := normalize objectiveName in
  match List.find (sameObjective normalizedName) (objectives s) with
  | Some _ => (s, [])
  | None =>
      (set_objectives
         (objectives s ++
            [{| o_name := objectiveName; o_completed := false;
                o_score := ofZ 0; o_timestamp := now |}]) s, [])
  end.

(** [Math.round((score / maxScore) * 100)] *)
Definition quizPercentage (score maxScore : num) : num :=
  Num.round (Num.fmul (Num.fdiv score maxScore) (ofZ 100)).

(** [totalQuestions || maxScore], with [null] for an absent argument. *)
Definition orMaxScore (totalQuestions : option num) (maxScore : num) : num :=
  match totalQuestions with
  | Some n => if Num.truthy n then n else maxScore
  | None => maxScore
  end.

Definition recordQuizScore (s : Session) (quizName : string) (score : num)
    (maxScore : option num) (totalQuestions : option num) (now : Z)
    : Session * list Message :=
  let maxScore := default (ofZ 100) maxScore in
  let percentage := quizPercentage score maxScore in
  let entry :=
    {| q_score := score; q_maxScore := maxScore; q_percentage := percentage;
       q_totalQuestions := orMaxScore totalQuestions maxScore;
       q_timestamp := now |} in
  let s' :=
    match get (quizScores s) quizName with
    | Undefined => set_quizScores (<[quizName := entry]> (quizScores s)) s
    | Own existingQuiz =>
        if Num.gt percentage (q_percentage existingQuiz)
        then set_quizScores (<[quizName := entry]> (quizScores s)) s
        else s
    | Inherited =>
        (* truthy, and its [percentage] is [undefined]: the test is false *)
        s
    end in
  (s', sendProgressUpdate s' now).

(** [questionId] is the property key that the id becomes, so the numbers
    [1] and the string ["1"] are one question. *)
Definition recordQuestionAnswer (s : Session) (questionId : string)
    (isCorrect : bool) (questionText : option string) (now : Z)
    : Session * list Message :=
  let questionText := default EmptyString questionText in
  match get (questions (questionsAnswered s)) questionId with
  | Undefined =>
      let l := questionsAnswered s in
      let l' :=
        {| total := total l + 1;
           correct := if isCorrect then correct l + 1 else correct l;
           questions :=
             <[questionId := {| qn_answered := true; qn_correct := isCorrect;
                                qn_text := questionText;
                                qn_timestamp := now |}]> (questions l) |} in
      let s' := set_questionsAnswered l' s in
      (s', sendProgressUpdate s' now)
  | _ => (s, [])
  end.

(** The object that [getQuestionsStats()] returns. *)
Record QuestionsStats : Type := mkQuestionsStats {
  st_total : Z;
  st_correct : Z;
  st_percentage : num
}.

Definition getQuestionsStats (s : Session) : QuestionsStats :=
  {| st_total := total (questionsAnswered s);
     st_correct := correct (questionsAnswered s);
     st_percentage :=
       if bool_decide (0 < total (questionsAnswered s)) then
         Num.round
           (Num.fmul (Num.fdiv (ofZ (correct (questionsAnswered s)))
                               (ofZ (total (questionsAnswered s)))) (ofZ 100))
       else ofZ 0 |}.

(** [trackerState.topicProgress[topicName] = v]: assigning a number to
    [__proto__] leaves the object as it is. *)
Definition assignTopic (topicName : string) (v : num) (o : gmap string num)
    : gmap string num :=
  if String.eqb topicName "__proto__" then o else <[topicName := v]> o.

Definition updateTopicProgress (s : Session) (topicName : string)
    (percentage : num) (now : Z) : Session * list Message :=
  let s' :=
    set_topicProgress
      (assignTopic topicName
         (Num.min (ofZ 100) (Num.max (ofZ 0) percentage)) (topicProgress s)) s in
  (s', sendProgressUpdate s' now).

Definition markCompleted (s : Session) : Session * list Message :=
  (s, [LESSON_COMPLETED (lessonId s)
         {| cd_activeTime := activeTime s;
            cd_scrollDepth := maxScrollDepth s;
            cd_objectives := objectives s;
            cd_quizScores := quizScores s;
            cd_topicProgress := topicProgress s;
            cd_questionsAnswered := questionsAnswered s |}]).

Definition setLessonId (s : Session) (id : string) : Session * list Message :=
  (set_lessonId (Some id) s, []).

Definition resetQuestions (s : Session) (now : Z) : Session * list Message :=
  let s' := set_questionsAnswered emptyLedger s in
  (s', sendProgressUpdate s' now).

(** ** The signal collectors

    The listeners and timers that [init] installs write the primitive fields
    of the session. *)

(** [updateScrollDepth()], from the three lengths it reads off the window. *)
Definition updateScrollDepth (s : Session) (scrollTop documentHeight windowHeight : num)
    : Session :=
  let scrollPercent :=
    Num.round
      (Num.mul (Num.div scrollTop (Num.sub documentHeight windowHeight)) (ofZ 100)) in
  let depth := Num.min (ofZ 100) scrollPercent in
  {| lessonId := lessonId s; lessonTitle := lessonTitle s;
     startTime := startTime s; lastActivity := lastActivity s;
     totalTime := totalTime s; activeTime := activeTime s;
     scrollDepth := depth;
     maxScrollDepth :=
       if Num.gt depth (maxScrollDepth s) then depth else maxScrollDepth s;
     interactions := interactions s; objectives := objectives s;
     isActive := isActive s; isFullscreen := isFullscreen s;
     quizScores := quizScores s; topicProgress := topicProgress s;
     questionsAnswered := questionsAnswered s |}.

(** The [click] and [keydown] listeners:
    [trackerState.interactions++; trackerState.lastActivity = Date.now()]. *)
Definition onInteraction (s : Session) (now : Z) : Session :=
  {| lessonId := lessonId s; lessonTitle := lessonTitle s;
     startTime := startTime s; lastActivity := now;
     totalTime := totalTime s; activeTime := activeTime s;
     scrollDepth := scrollDepth s; maxScrollDepth := maxScrollDepth s;
     interactions := interactions s + 1; objectives := objectives s;
     isActive := isActive s; isFullscreen := isFullscreen s;
     quizScores := quizScores s; topicProgress := topicProgress s;
     questionsAnswered := questionsAnswered s |}.

(** The debounced [scroll] listener. *)
Definition onScroll (s : Session) (scrollTop documentHeight windowHeight : num)
    (now : Z) : Session :=
  onInteraction (updateScrollDepth s scrollTop documentHeight windowHeight) now.

(** The callback of [startTimeTracking], run every second. *)
Definition timeTick (s : Session) (now : Z) : Session :=
  let idleTime := now - lastActivity s in
  {| lessonId := lessonId s; lessonTitle := lessonTitle s;
     startTime := startTime s; lastActivity := lastActivity s;
     totalTime := (now - startTime s) / 1000;
     activeTime :=
       if (idleTime <? CONFIG.idleTimeout) && isActive s
       then activeTime s + 1 else activeTime s;
     scrollDepth := scrollDepth s; maxScrollDepth := maxScrollDepth s;
     interactions := interactions s; objectives := objectives s;
     isActive := isActive s; isFullscreen := isFullscreen s;
     quizScores := quizScores s; topicProgress := topicProgress s;
     questionsAnswered := questionsAnswered s |}.

(** [n] seconds on the page from time [now], one tick per second. *)
Fixpoint ticks (n : nat) (s : Session) (now : Z) : Session :=
  match n with
  | O => s
  | S k => ticks k (timeTick s (now + 1000)) (now + 1000)
  end.

(** ** Sequences of API calls *)

Inductive Call : Type :=
| CompleteObjective (objectiveName : string) (score : option num)
| AddObjective (objectiveName : string)
| RecordQuizScore (quizName : string) (score : num) (maxScore : option num)
    (totalQuestions : option num)
| RecordQuestionAnswer (questionId : string) (isCorrect : bool)
    (questionText : option string)
| UpdateTopicProgress (topicName : string) (percentage : num)
| MarkCompleted
| SetLessonId (id : string)
| ResetQuestions.

(** One call of the lesson script, made at time [now]. *)
Definition call (s : Session) (c : Call) (now : Z) : Session * list Message :=
  match c with
  | CompleteObjective n sc => completeObjective s n sc now
  | AddObjective n => addObjective s n now
  | RecordQuizScore n sc mx tq => recordQuizScore s n sc mx tq now
  | RecordQuestionAnswer id ok txt => recordQuestionAnswer s id ok txt now
  | UpdateTopicProgress n p => updateTopicProgress s n p now
  | MarkCompleted => markCompleted s
  | SetLessonId id => setLessonId s id
  | ResetQuestions => resetQuestions s now
  end.

(** The session after a sequence of timed calls. *)
Definition run (s : Session) (cs : list (Call * Z)) : Session :=
  foldl (fun s c => fst (call s (fst c) (snd c))) s cs.

(** ** Equality of numbers up to the representation of a rational *)

Definition num_eq (a b : num) : Prop :=
  match a, b with
  | Fin x, Fin y => x == y
  | PInf, PInf | NInf, NInf | NaN, NaN => True
  | _, _ => False
  end.

Infix "=n=" := num_eq (at level 70, no associativity).

(** ** The page heap: what [getState] shares with its caller

    [trackerState] is one object; its fields [objectives], [quizScores],
    [topicProgress] and [questionsAnswered] hold references to four more.
    The sessions above are the tracker's own reading of that graph.  The
    elements of the array and the nested [questions] dictionary are kept
    inside their container: the script never moves them to another one. *)

Module Page.

Definition loc : Type := positive.

(** The own properties of [trackerState], and of a spread copy of it:
    primitives by value, containers by reference. *)
Record StateObject : Type := mkStateObject {
  f_lessonId : option string;
  f_lessonTitle : string;
  f_startTime : Z;
  f_lastActivity : Z;
  f_totalTime : Z;
  f_activeTime : Z;
  f_scrollDepth : num;
  f_maxScrollDepth : num;
  f_interactions : Z;
  f_objectives : loc;
  f_isActive : bool;
  f_isFullscreen : bool;
  f_quizScores : loc;
  f_topicProgress : loc;
  f_questionsAnswered : loc
}.

Inductive object : Type :=
| StateObj (o : StateObject)
| ArrayObj (a : list Objective)
| QuizObj (m : gmap string Quiz)
| TopicObj (m : gmap string num)
| LedgerObj (l : Ledger).

Record page : Type := mkPage {
  heap : gmap loc object;
  trackerState : loc
}.

(** The session that a state object and its four containers make. *)
Definition assemble (o : StateObject) (a : list Objective)
    (q : gmap string Quiz) (t : gmap string num) (g : Ledger) : Session :=
  {| lessonId := f_lessonId o; lessonTitle := f_lessonTitle o;
     startTime := f_startTime o; lastActivity := f_lastActivity o;
     totalTime := f_totalTime o; activeTime := f_activeTime o;
     scrollDepth := f_scrollDepth o; maxScrollDepth := f_maxScrollDepth o;
     interactions := f_interactions o; objectives := a;
     isActive := f_isActive o; isFullscreen := f_isFullscreen o;
     quizScores := q; topicProgress := t; questionsAnswered := g |}.

(** The session read through the state object at [l]. *)
Definition session_at (h : gmap loc object) (l : loc) : option Session :=
  match h !! l with
  | Some (StateObj o) =>
      match h !! f_objectives o, h !! f_quizScores o,
            h !! f_topicProgress o, h !! f_questionsAnswered o with
      | Some (ArrayObj a), Some (QuizObj q), Some (TopicObj t), Some (LedgerObj g) =>
          Some (assemble o a q t g)
      | _, _, _, _ => None
      end
  | _ => None
  end.

(** The tracker's session: what every function of the script reads through
    the binding [trackerState]. *)
Definition live (p : page) : option Session :=
  session_at (heap p) (trackerState p).

(** The heap after the script has loaded. *)
Definition initialPage (title : string) (now : Z) : page :=
  {| heap :=
       <[1%positive :=
           StateObj
             {| f_lessonId := None; f_lessonTitle := title;
                f_startTime := now; f_lastActivity := now;
                f_totalTime := 0; f_activeTime := 0;
                f_scrollDepth := ofZ 0; f_maxScrollDepth := ofZ 0;
                f_interactions := 0; f_objectives := 2%positive;
                f_isActive := true; f_isFullscreen := false;
                f_quizScores := 3%positive; f_topicProgress := 4%positive;
                f_questionsAnswered := 5%positive |}]>
       (<[2%positive := ArrayObj []]>
       (<[3%positive := QuizObj ∅]>
       (<[4%positive := TopicObj ∅]>
       (<[5%positive := LedgerObj emptyLedger]> ∅))));
     trackerState := 1%positive |}.

(** [getState()]: [{ ...trackerState }] allocates one object and copies the
    own properties of [trackerState] into it, references as references. *)
Definition getState (p : page) : option (loc * page) :=
  match heap p !! trackerState p with
  | Some (StateObj o) =>
      let r := fresh (dom (heap p)) in
      Some (r, {| heap := <[r := StateObj o]> (heap p);
                  trackerState := trackerState p |})
  | _ => None
  end.

(** What a caller holding the returned object [r] can do with it. *)
Inductive Write : Type :=
| SetProperty (f : StateObject -> StateObject)
    (* r.activeTime = 0, r.objectives = [], ... *)
| ThroughObjectives (f : list Objective -> list Objective)
    (* r.objectives.push(o), r.objectives[0].completed = false, ... *)
| ThroughQuizScores (f : gmap string Quiz -> gmap string Quiz)
    (* r.quizScores[k] = q, delete r.quizScores[k], ... *)
| ThroughTopicProgress (f : gmap string num -> gmap string num)
| ThroughQuestionsAnswered (f : Ledger -> Ledger).

Definition onState (f : StateObject -> StateObject) (x : object) : object :=
  match x with StateObj o => StateObj (f o) | _ => x end.
Definition onArray (f : list Objective -> list Objective) (x : object) : object :=
  match x with ArrayObj a => ArrayObj (f a) | _ => x end.
Definition onQuiz (f : gmap string Quiz -> gmap string Quiz) (x : object) : object :=
  match x with QuizObj m => QuizObj (f m) | _ => x end.
Definition onTopic (f : gmap string num -> gmap string num) (x : object) : object :=
  match x with TopicObj m => TopicObj (f m) | _ => x end.
Definition onLedger (f : Ledger -> Ledger) (x : object) : object :=
  match x with LedgerObj l => LedgerObj (f l) | _ => x end.

Definition write (r : loc) (w : Write) (p : page) : page :=
  match heap p !! r with
  | Some (StateObj o) =>
      let h :=
        match w with
        | SetProperty f => alter (onState f) r (heap p)
        | ThroughObjectives f => alter (onArray f) (f_objectives o) (heap p)
        | ThroughQuizScores f => alter (onQuiz f) (f_quizScores o) (heap p)
        | ThroughTopicProgress f => alter (onTopic f) (f_topicProgress o) (heap p)
        | ThroughQuestionsAnswered f =>
            alter (onLedger f) (f_questionsAnswered o) (heap p)
        end in
      {| heap := h; trackerState := trackerState p |}
  | _ => p
  end.

End Page.

(** ** Notions used in the statements *)

(** The canonical key of a stored objective, and the entry that [find]
    returns for a key. *)
Definition key (o : Objective) : string := normalize (o_name o).

Definition keys (os : list Objective) : list string := map key os.

Definition entry (k : string) (os : list Objective) : option Objective :=
  List.find (sameObjective k) os.

(** The scores of the completions of key [k] in a sequence of calls, in
    call order, and whether the sequence registers [k] with [addObjective]. *)
Fixpoint completionsOf (k : string) (cs : list (Call * Z)) : list num :=
  match cs with
  | [] => []
  | (CompleteObjective n sc, _) :: r =>
      if String.eqb (normalize n) k
      then default (ofZ 100) sc :: completionsOf k r
      else completionsOf k r
  | _ :: r => completionsOf k r
  end.

Fixpoint registers (k : string) (cs : list (Call * Z)) : bool :=
  match cs with
  | [] => false
  | (AddObjective n, _) :: r => String.eqb (normalize n) k || registers k r
  | _ :: r => registers k r
  end.

(** The number of recorded questions answered correctly. *)
Definition countCorrect (m : gmap string Question) : nat :=
  size (filter (fun kv => qn_correct kv.2 = true) m).

(** The totals of a ledger agree with its dictionary. *)
Definition ledger_ok (l : Ledger) : Prop :=
  total l = Z.of_nat (size (questions l)) /\
  correct l = Z.of_nat (countCorrect (questions l)).

(** The time component as the specification words it:
    [min(weight, (activeElapsedSeconds / 30) * weight)]. *)
Definition timeComponentSpec (weight : Z) (s : Session) : num :=
  Num.min (ofZ weight)
    (Num.mul (Num.div (ofZ (activeTime s)) (ofZ 30)) (ofZ weight)).

(** The operations of the session store that write to the session. *)
Definition mutating (c : Call) : bool :=
  match c with MarkCompleted => false | _ => true end.

(** A finite number that is not negative. *)
Definition nonneg (a : num) : Prop := exists q : Q, a = Fin q /\ (0 <= q)%Q.

(** The sessions whose inputs to the scorer are finite and not negative. *)
Record scorable (s : Session) : Prop := mkScorable {
  sc_active : 0 <= activeTime s;
  sc_inter : 0 <= interactions s;
  sc_scroll : nonneg (maxScrollDepth s);
  sc_correct : 0 <= correct (questionsAnswered s);
  sc_quiz : forall k q, quizScores s !! k = Some q -> nonneg (q_percentage q)
}.

(** The calls whose quiz submissions carry a score that is not negative
    over a positive maximum, as in the integration guide's examples. *)
Definition inContract (c : Call) : Prop :=
  match c with
  | RecordQuizScore _ score maxScore _ =>
      nonneg score /\
      exists m : Q, default (ofZ 100) maxScore = Fin m /\ (0 < m)%Q
  | _ => True
  end.

(** ** Worked sessions *)

Definition fresh0 : Session := initialState "Lesson" 0.

(** [recordQuestionAnswer("q1", true)] on a fresh session. *)
Definition answeredOnce : Session :=
  fst (recordQuestionAnswer fresh0 "q1" true None 1).

(** [recordQuizScore("Quiz", 6, 10)] on a fresh session. *)
Definition quiz60 : Session :=
  fst (recordQuizScore fresh0 "Quiz" (ofZ 6) (Some (ofZ 10)) None 1).

(** [completeObjective("Ohm's Law", 90)], then
    [completeObjective("ohms law", 95)]. *)
Definition ohmCalls : list (Call * Z) :=
  [(CompleteObjective "Ohm's Law" (Some (ofZ 90)), 1);
   (CompleteObjective "ohms law" (Some (ofZ 95)), 2)].


(** Half a minute on the page, a click, and half a minute more. *)
Definition oneMinute : Session :=
  ticks 30 (onInteraction (ticks 30 fresh0 0) 30000) 30000.

(** [recordQuizScore("Quiz", -6, 10)] on a fresh session: a quiz marked
    with penalties. *)
Definition penaltyQuiz : Session :=
  fst (recordQuizScore fresh0 "Quiz" (ofZ (-6)) (Some (ofZ 10)) None 1).

(** [recordQuizScore("Quiz", 0, 0)] on a fresh session: a quiz without
    questions. *)
Definition emptyQuiz : Session :=
  fst (recordQuizScore fresh0 "Quiz" (ofZ 0) (Some (ofZ 0)) None 1).

Definition page0 : Page.page := Page.initialPage "Lesson" 0.

(** [const snap = CAETTracker.getState();
     snap.objectives.push({ name: "Extra", completed: false, score: 0, timestamp: 1 })] *)
Definition pushThroughSnapshot : option Page.page :=
  match Page.getState page0 with
  | Some (r, p) =>
      Some (Page.write r
              (Page.ThroughObjectives
                 (fun a => a ++ [{| o_name := "Extra"; o_completed := false;
                                    o_score := ofZ 0; o_timestamp := 1 |}])) p)
  | None => None
  end.

(** [const snap = CAETTracker.getState(); snap.activeTime = 3600;
     snap.objectives = snap.quizScores] *)
Definition assignToSnapshot : option Page.page :=
  match Page.getState page0 with
  | Some (r, p) =>
      Some (Page.write r
              (Page.SetProperty
                 (fun o =>
                    {| Page.f_lessonId := Page.f_lessonId o;
                       Page.f_lessonTitle := Page.f_lessonTitle o;
                       Page.f_startTime := Page.f_startTime o;
                       Page.f_lastActivity := Page.f_lastActivity o;
                       Page.f_totalTime := Page.f_totalTime o;
                       Page.f_activeTime := 3600;
                       Page.f_scrollDepth := Page.f_scrollDepth o;
                       Page.f_maxScrollDepth := Page.f_maxScrollDepth o;
                       Page.f_interactions := Page.f_interactions o;
                       Page.f_objectives := Page.f_quizScores o;
                       Page.f_isActive := Page.f_isActive o;
                       Page.f_isFullscreen := Page.f_isFullscreen o;
                       Page.f_quizScores := Page.f_quizScores o;
                       Page.f_topicProgress := Page.f_topicProgress o;
                       Page.f_questionsAnswered := Page.f_questionsAnswered o |})) p)
  | None => None
  end.

(** ** Start-up, listeners and timers

    [init] resolves the lesson id, installs the listeners and starts the two
    timers.  Each listener or timer callback is an event; an event takes the
    session and the clock and returns the session after it and what it hands
    to [sendToParent]. *)

(** What [detectLessonId] reads off the page: the [content] of
    [meta[name="lesson-id"]] when the element exists, the [lesson] query
    parameter when the URL has one, and [document.body.dataset.lessonId] when
    the attribute is there. *)
Record PageSource : Type := mkPageSource {
  metaLesson : option string;
  urlLesson : option string;
  bodyLesson : option string
}.

(** Truthiness of a string: only the empty string is falsy. *)
Definition nonEmpty (x : string) : bool :=
  match x with EmptyString => false | _ => true end.

(** [detectLessonId()] *)
Definition detectLessonId (s : Session) (d : PageSource) : Session :=
  match metaLesson d with
  | Some content => set_lessonId (Some content) s
  | None =>
      match urlLesson d with
      | Some v => set_lessonId (Some v) s
      | None =>
          match bodyLesson d with
          | Some b =>
              if nonEmpty b then set_lessonId (Some b) s
              else set_lessonId (Some "unknown"%string) s
          | None => set_lessonId (Some "unknown"%string) s
          end
      end
  end.

(** Everything the script hands to [sendToParent]. *)
Inductive Signal : Type :=
| TRACKER_READY (lesson : option string) (title : string)
| VIDEO_STARTED (lesson : option string)
| VIDEO_COMPLETED (lesson : option string)
| FULLSCREEN_CHANGED (fullscreen : bool)
| FromApi (m : Message).

(** [init()]: the listeners and timers it installs are the events below. *)
Definition init (s : Session) (d : PageSource) : Session * list Signal :=
  let s' := detectLessonId s d in
  (s', [TRACKER_READY (lessonId s') (lessonTitle s')]).

(** The [visibilitychange] listener, [hidden] being [document.hidden]. *)
Definition onVisibilityChange (s : Session) (hidden : bool) (now : Z) : Session :=
  {| lessonId := lessonId s; lessonTitle := lessonTitle s;
     startTime := startTime s;
     lastActivity := if hidden then lastActivity s else now;
     totalTime := totalTime s; activeTime := activeTime s;
     scrollDepth := scrollDepth s; maxScrollDepth := maxScrollDepth s;
     interactions := interactions s; objectives := objectives s;
     isActive := negb hidden; isFullscreen := isFullscreen s;
     quizScores := quizScores s; topicProgress := topicProgress s;
     questionsAnswered := questionsAnswered s |}.

(** The [blur] listener of the window. *)
Definition onBlur (s : Session) : Session :=
  {| lessonId := lessonId s; lessonTitle := lessonTitle s;
     startTime := startTime s; lastActivity := lastActivity s;
     totalTime := totalTime s; activeTime := activeTime s;
     scrollDepth := scrollDepth s; maxScrollDepth := maxScrollDepth s;
     interactions := interactions s; objectives := objectives s;
     isActive := false; isFullscreen := isFullscreen s;
     quizScores := quizScores s; topicProgress := topicProgress s;
     questionsAnswered := questionsAnswered s |}.

(** The [focus] listener of the window. *)
Definition onFocus (s : Session) (now : Z) : Session :=
  onVisibilityChange s false now.

(** The [fullscreenchange] listener, [element] telling whether
    [document.fullscreenElement] is set. *)
Definition onFullscreenChange (s : Session) (element : bool) : Session * list Signal :=
  ({| lessonId := lessonId s; lessonTitle := lessonTitle s;
      startTime := startTime s; lastActivity := lastActivity s;
      totalTime := totalTime s; activeTime := activeTime s;
      scrollDepth := scrollDepth s; maxScrollDepth := maxScrollDepth s;
      interactions := interactions s; objectives := objectives s;
      isActive := isActive s; isFullscreen := element;
      quizScores := quizScores s; topicProgress := topicProgress s;
      questionsAnswered := questionsAnswered s |},
   [FULLSCREEN_CHANGED element]).

Inductive Event : Type :=
| Init (d : PageSource)
| Scroll (scrollTop documentHeight windowHeight : num)
| Click
| Keydown
| VisibilityChange (hidden : bool)
| Blur
| Focus
| FullscreenChange (element : bool)
| VideoPlay
| VideoEnded
| TimeTick
| ReportTick
| BeforeUnload
| Api (c : Call).

(** One event at time [now]. *)
Definition handle (s : Session) (e : Event) (now : Z) : Session * list Signal :=
  match e with
  | Init d => init s d
  | Scroll top doc win => (onScroll s top doc win now, [])
  | Click | Keydown => (onInteraction s now, [])
  | VisibilityChange hidden => (onVisibilityChange s hidden now, [])
  | Blur => (onBlur s, [])
  | Focus => (onFocus s now, [])
  | FullscreenChange element => onFullscreenChange s element
  | VideoPlay => (s, [VIDEO_STARTED (lessonId s)])
  | VideoEnded => (s, [VIDEO_COMPLETED (lessonId s)])
  | TimeTick => (timeTick s now, [])
  | ReportTick | BeforeUnload => (s, FromApi <$> sendProgressUpdate s now)
  | Api c => let r := call s c now in (fst r, FromApi <$> snd r)
  end.

(** The session after a sequence of timed events, and everything sent on
    the way. *)
Fixpoint play (s : Session) (es : list (Event * Z)) : Session * list Signal :=
  match es with
  | [] => (s, [])
  | (e, now) :: r =>
      let a := handle s e now in
      let b := play (fst a) r in
      (fst b, snd a ++ snd b)
  end.

(** The lesson a signal is sent for, when it names one. *)
Definition signalLesson (g : Signal) : option (option string) :=
  match g with
  | TRACKER_READY l _ | VIDEO_STARTED l | VIDEO_COMPLETED l => Some l
  | FromApi (PROGRESS_UPDATE l _) | FromApi (LESSON_COMPLETED l _) => Some l
  | FULLSCREEN_CHANGED _ => None
  end.

(** [n] clicks in a row at time [now]. *)
Fixpoint clicks (n : nat) (s : Session) (now : Z) : Session :=
  match n with
  | O => s
  | S k => clicks k (onInteraction s now) now
  end.

(** Twenty clicks on a fresh session. *)
Definition twentyClicks : Session := clicks 20 fresh0 0.

(** Two minutes of active time: four half minutes, a click before each. *)
Definition twoMinutes : Session :=
  ticks 30 (onInteraction
    (ticks 30 (onInteraction
      (ticks 30 (onInteraction
        (ticks 30 (onInteraction fresh0 0) 0) 30000) 30000) 60000) 60000) 90000) 90000.

(** [trackerState.objectives.filter(o => o.completed).length] *)
Definition completedCount (os : list Objective) : nat :=
  length (filter (fun o => o_completed o = true) os).

(** The events that set [isActive] back to [true]. *)
Definition reactivates (e : Event) : bool :=
  match e with
  | VisibilityChange false | Focus => true
  | _ => false
  end.

(** The one call that replaces the question ledger. *)
Definition isReset (c : Call) : bool :=
  match c with ResetQuestions => true | _ => false end.

(** A window as tall as its document, not scrolled. *)
Definition unscrollable : Session :=
  updateScrollDepth fresh0 (ofZ 0) (ofZ 800) (ofZ 800).

(** A tab that went to the background after ten seconds. *)
Definition hiddenTab : Session :=
  onVisibilityChange (ticks 10 fresh0 0) true 10000.

(** The events that are not a call of [resetQuestions]. *)
Definition keepsLedger (e : Event) : bool :=
  match e with Api c => negb (isReset c) | _ => true end.

(** The events whose API calls are within [inContract]. *)
Definition eventInContract (e : Event) : Prop :=
  match e with Api c => inContract c | _ => True end.

(** The value that [updateTopicProgress] stores:
    [Math.min(100, Math.max(0, percentage))]. *)
Definition clampPercentage (percentage : num) : num :=
  Num.min (ofZ 100) (Num.max (ofZ 0) percentage).

(** No name that [Object.prototype] defines is stored as a quiz or as a
    question. *)
Definition noInheritedKeys (s : Session) : Prop :=
  forall k, inherited k = true ->
    quizScores s !! k = None /\ questions (questionsAnswered s) !! k = None.

(** A quiz called ["constructor"], submitted after a click. *)
Definition afterClick : Session := fst (play fresh0 [(Click, 1)]).

(** A short visit: start-up, a scroll to the middle, a quiz of 8 out of 10,
    a tick and a report. *)
Definition shortVisit : list (Event * Z) :=
  [(Init {| metaLesson := Some "1"%string; urlLesson := None; bodyLesson := None |}, 0);
   (Scroll (ofZ 400) (ofZ 1600) (ofZ 800), 500);
   (Api (RecordQuizScore "Quiz" (ofZ 8) (Some (ofZ 10)) None), 700);
   (TimeTick, 1000);
   (ReportTick, 5000)].

(** ** The radar chart, [radar-chart.js]

    The chart draws with [Math.cos] and [Math.sin]; what is embedded here is
    what it computes without them: the data it plots, the radii, the labels
    and the animation loop. *)

Module Radar.

(** The topics drawn when [topicScores] has no key. *)
Definition defaultTopics : list string :=
  ["DC Theory"; "AC Theory"; "Semiconductors"; "Digital Logic";
   "Power Systems"; "Troubleshooting"]%string.

(** [topics]: [Object.keys(topicScores)], or the default topics.  The keys
    come in the order of [map_to_list], a permutation of the order in which
    the script enumerates them. *)
Definition topics (topicScores : gmap string num) : list string :=
  if bool_decide (0 < size topicScores)%nat
  then (map_to_list topicScores).*1
  else defaultTopics.

(** [topicScores[topic] || 0] *)
Definition scoreOf (topicScores : gmap string num) (topic : string) : num :=
  match topicScores !! topic with
  | Some v => if Num.truthy v then v else ofZ 0
  | None => ofZ 0
  end.

(** [scores] *)
Definition scores (topicScores : gmap string num) : list num :=
  map (scoreOf topicScores) (topics topicScores).

(** [maxRadius], from the width and the height of the canvas. *)
Definition maxRadius (width height : num) : num :=
  Num.fsub (Num.min (Num.fdiv width (ofZ 2)) (Num.fdiv height (ofZ 2))) (ofZ 60).

(** [scoreRadius] in [drawDataPolygon]: [(score / 100) * maxRadius]. *)
Definition scoreRadius (score maxRadius : num) : num :=
  Num.fmul (Num.fdiv score (ofZ 100)) maxRadius.

(** The radius of ring [i] in [drawRadarBackground], [(maxRadius / 5) * i],
    and the percentage written next to it, [i * 20]. *)
Definition ringRadius (maxRadius : num) (i : Z) : num :=
  Num.fmul (Num.fdiv maxRadius (ofZ 5)) (ofZ i).

Definition ringLabel (i : Z) : Z := i * 20.

(** [topic.replace(/_/g, ' ')] *)
Fixpoint replaceUnderscores (s : string) : string :=
  match s with
  | EmptyString => EmptyString
  | String c r =>
      String (if Ascii.eqb c "_" then " "%char else c) (replaceUnderscores r)
  end.

(** [s.split(' ')] *)
Fixpoint splitSpaces (s : string) : list string :=
  match s with
  | EmptyString => [EmptyString]
  | String c r =>
      if Ascii.eqb c " " then EmptyString :: splitSpaces r
      else match splitSpaces r with
           | w :: ws => String c w :: ws
           | [] => [String c EmptyString]
           end
  end.

(** [c.toUpperCase()] for one code unit below 128. *)
Definition upper_char (c : ascii) : ascii :=
  if is_lower c then ascii_of_nat (nat_of_ascii c - 32) else c.

(** [word.charAt(0).toUpperCase() + word.slice(1)] *)
Definition capitalize (word : string) : string :=
  match word with
  | EmptyString => EmptyString
  | String c r => String (upper_char c) r
  end.

(** [words.join(' ')] *)
Fixpoint joinSpaces (words : list string) : string :=
  match words with
  | [] => EmptyString
  | [w] => w
  | w :: ws => (w ++ String " " (joinSpaces ws))%string
  end.

(** [formattedTopic] in [drawTopicLabels]. *)
Definition formatTopic (topic : string) : string :=
  joinSpaces (map capitalize (splitSpaces (replaceUnderscores topic))).

(** The strings of code units below 128, on which [upper_char] is
    [toUpperCase]. *)
Fixpoint isAscii (s : string) : bool :=
  match s with
  | EmptyString => true
  | String c r => (nat_of_ascii c <? 128)%nat && isAscii r
  end.

(** The same label in one pass: a letter is raised when it starts the string
    or follows a space. *)
Fixpoint raiseAfterSpace (start : bool) (s : string) : string :=
  match s with
  | EmptyString => EmptyString
  | String c r =>
      String (if start then upper_char c else c) (raiseAfterSpace (Ascii.eqb c " ") r)
  end.

(** The state of the script: the sweep angle, the handle of the frame
    requested last, and, for the browser, the callbacks waiting for the next
    frame and the next handle to give out. *)
Record state : Type := mkState {
  sweepAngle : Q;
  animationFrame : option positive;
  waiting : list positive;
  nextHandle : positive
}.

Definition initial : state :=
  {| sweepAngle := 0; animationFrame := None; waiting := []; nextHandle := 1 |}.

(** [Math.PI * 2], the double. *)
Definition twoPi : Q := 2 * (884279719003555 # 281474976710656).

(** The literal [0.02]. *)
Definition sweepStep : Q := Num.nearestDouble (1 # 50).

(** The angle after one run of [animate]: [sweepAngle += 0.02], back to 0
    from [Math.PI * 2] on. *)
Definition advance (angle : Q) : Q :=
  let a := Num.nearestDouble (angle + sweepStep) in
  if Qle_bool twoPi a then 0%Q else a.

(** One run of [animate]: it draws, moves the sweep and requests the next
    frame. *)
Definition animate (r : state) : state :=
  {| sweepAngle := advance (sweepAngle r);
     animationFrame := Some (nextHandle r);
     waiting := waiting r ++ [nextHandle r];
     nextHandle := Pos.succ (nextHandle r) |}.

(** [createRadarChart(canvasId, topicScores)], [found] telling whether the
    canvas exists. *)
Definition createRadarChart (r : state) (found : bool) : state :=
  if found then animate r else r.

(** A frame of the browser: every callback that was waiting runs once. *)
Definition frame (r : state) : state :=
  foldl (fun r _ => animate r)
        {| sweepAngle := sweepAngle r; animationFrame := animationFrame r;
           waiting := []; nextHandle := nextHandle r |}
        (waiting r).

(** [stopRadarAnimation()] *)
Definition stopRadarAnimation (r : state) : state :=
  match animationFrame r with
  | Some h =>
      {| sweepAngle := sweepAngle r; animationFrame := None;
         waiting := filter (fun x => x <> h) (waiting r);
         nextHandle := nextHandle r |}
  | None => r
  end.

(** [n] frames in a row. *)
Fixpoint frames (n : nat) (r : state) : state :=
  match n with
  | O => r
  | S k => frames k (frame r)
  end.

(** [n] charts created in a row, each on a canvas that exists. *)
Fixpoint charts (n : nat) (r : state) : state :=
  match n with
  | O => r
  | S k => charts k (createRadarChart r true)
  end.

End Radar.

(** A number from 0 to 100. *)
Definition percent (v : num) : Prop :=
  exists x : Q, v = Fin x /\ (0 <= x <= 100)%Q.

(** Every stored topic value is a number from 0 to 100 or [NaN]: what
    [clampPercentage] returns. *)
Definition topicsClamped (m : gmap string num) : Prop :=
  forall k v, m !! k = Some v -> v = NaN \/ percent v.

(** The waiting callbacks are distinct, were handed out already, and
    [animationFrame] names one of them when there is any. *)
Definition loopsTidy (r : Radar.state) : Prop :=
  NoDup (Radar.waiting r) /\
  (forall h, h ∈ Radar.waiting r -> (h < Radar.nextHandle r)%positive) /\
  (Radar.waiting r <> [] ->
   exists h, Radar.animationFrame r = Some h /\ h ∈ Radar.waiting r).

(** * Properties *)

Example normalize_ohm : normalize "Ohm's Law" = "ohmslaw"%string.
Proof. reflexivity. Qed.

Example normalize_ohm_plain : normalize "ohms law" = "ohmslaw"%string.
Proof. reflexivity. Qed.

(** ** Rounding to the nearest double *)

Lemma pow2_pos (e : Z) : (0 < 2 ^ e)%Q.
Proof. apply Qpower_0_lt. reflexivity. Qed.

Lemma pow2_plus (a b : Z) : (2 ^ (a + b) == 2 ^ a * 2 ^ b)%Q.
Proof. apply Qpower_plus. discriminate. Qed.

Lemma pow2_cancel (e : Z) : (2 ^ (- e) * 2 ^ e == 1)%Q.
Proof. rewrite <- pow2_plus. replace (- e + e) with 0 by lia. reflexivity. Qed.

Lemma pow2_le (a b : Z) : a <= b -> (2 ^ a <= 2 ^ b)%Q.
Proof. intros H. apply Qpower_le_compat_l; [exact H | discriminate]. Qed.

Lemma pow2_lt_inv (a b : Z) : (2 ^ a < 2 ^ b)%Q -> a < b.
Proof.
  intros H. destruct (Z_lt_le_dec a b) as [Hlt | Hle]; [exact Hlt |].
  apply pow2_le in Hle. lra.
Qed.

Lemma pow2_Z (n : Z) : 0 <= n -> (2 ^ n == inject_Z (2 ^ n))%Q.
Proof. intros H. rewrite Zpower_Qpower by exact H. reflexivity. Qed.

Lemma exponent_first (y : Q) :
  (0 < y)%Q ->
  let e0 := Z.log2 (Qnum y) - Z.log2 (Zpos (Qden y)) - 52 in
  (2 ^ 51 <= y * 2 ^ (- e0) < 2 ^ 53)%Q.
Proof.
  destruct y as [n d]. intros Hy e0. subst e0. cbn [Qnum Qden].
  assert (Hn : 0 < n) by (unfold Qlt in Hy; cbn in Hy; lia).
  pose proof (Z.log2_spec n Hn) as [HA1 HA2].
  pose proof (Z.log2_spec (Zpos d) ltac:(lia)) as [HB1 HB2].
  pose proof (Z.log2_nonneg n) as Ha. pose proof (Z.log2_nonneg (Zpos d)) as Hb.
  set (a := Z.log2 n) in *. set (b := Z.log2 (Zpos d)) in *.
  replace (Z.succ a) with (a + 1) in HA2 by lia.
  replace (Z.succ b) with (b + 1) in HB2 by lia.
  rewrite Z.pow_add_r in HA2, HB2 by lia. change (2 ^ 1) with 2 in *.
  assert (HpA : 0 < 2 ^ a) by (apply Z.pow_pos_nonneg; lia).
  assert (HpB : 0 < 2 ^ b) by (apply Z.pow_pos_nonneg; lia).
  assert (E : (2 ^ (- (a - b - 52)) == inject_Z (2 ^ b) * 2 ^ 52 / inject_Z (2 ^ a))%Q).
  { replace (- (a - b - 52)) with (b + 52 + - a) by lia.
    rewrite !pow2_plus, Qpower_opp, (pow2_Z a), (pow2_Z b) by lia. reflexivity. }
  rewrite E.
  assert (Ey : ((n # d) * (inject_Z (2 ^ b) * 2 ^ 52 / inject_Z (2 ^ a))
                == inject_Z (n * 2 ^ b) * 2 ^ 52 / inject_Z (Zpos d * 2 ^ a))%Q).
  { rewrite (Qmake_Qdiv n d), !inject_Z_mult. field.
    split; intros H; unfold Qeq in H; cbn in H; lia. }
  rewrite Ey.
  assert (Hden : (0 < inject_Z (Zpos d * 2 ^ a))%Q).
  { rewrite <- (Zlt_Qlt 0). lia. }
  split.
  - apply Qle_shift_div_l; [exact Hden |].
    change (2 ^ 51)%Q with (inject_Z (2 ^ 51)).
    change (2 ^ 52)%Q with (inject_Z (2 ^ 52)).
    rewrite <- !inject_Z_mult, <- Zle_Qle.
    assert (Zpos d * 2 ^ a <= 2 * (n * 2 ^ b)) by nia.
    change (2 ^ 52) with (2 ^ 51 * 2). lia.
  - apply Qlt_shift_div_r; [exact Hden |].
    change (2 ^ 53)%Q with (inject_Z (2 ^ 53)).
    change (2 ^ 52)%Q with (inject_Z (2 ^ 52)).
    rewrite <- !inject_Z_mult, <- Zlt_Qlt.
    assert (n * 2 ^ b < 2 * (Zpos d * 2 ^ a)) by nia.
    change (2 ^ 53) with (2 ^ 52 * 2). lia.
Qed.

Lemma exponent_spec (y : Q) :
  (0 < y)%Q -> (2 ^ 52 <= y * 2 ^ (- Num.exponent y) < 2 ^ 53)%Q.
Proof.
  intros Hy. pose proof (exponent_first y Hy) as H. cbv zeta in H.
  unfold Num.exponent.
  set (e0 := Z.log2 (Qnum y) - Z.log2 (Zpos (Qden y)) - 52) in *.
  destruct (Qle_bool (2 ^ 52) (y * 2 ^ (- e0))) eqn:E.
  - apply Qle_bool_iff in E. split; [exact E | apply H].
  - assert (Hlt : (y * 2 ^ (- e0) < 2 ^ 52)%Q).
    { apply Qnot_le_lt. intros Hle. apply Qle_bool_iff in Hle. congruence. }
    replace (- (e0 - 1)) with (- e0 + 1) by lia.
    rewrite pow2_plus. change (2 ^ 1)%Q with 2%Q.
    destruct H as [H1 _]. rewrite Qmult_assoc. revert H1 Hlt.
    generalize (y * 2 ^ (- e0))%Q. intros w H1 Hlt.
    change (2 ^ 51)%Q with 2251799813685248%Q in H1.
    change (2 ^ 52)%Q with 4503599627370496%Q in *.
    change (2 ^ 53)%Q with 9007199254740992%Q.
    split; lra.
Qed.

Lemma nearestEven_spec (s : Q) :
  (Qabs (inject_Z (Num.nearestEven s) - s) <= 1 # 2)%Q /\
  (forall N : Z, (s <= inject_Z N)%Q -> Num.nearestEven s <= N) /\
  (forall N : Z, (inject_Z N <= s)%Q -> N <= Num.nearestEven s).
Proof.
  pose proof (Qfloor_le s) as Hf. pose proof (Qlt_floor s) as Hc.
  rewrite inject_Z_plus in Hc. change (inject_Z 1) with 1%Q in Hc.
  assert (Hup : forall N : Z, (s <= inject_Z N)%Q -> Qfloor s <= N).
  { intros N HN. rewrite Zle_Qle. lra. }
  assert (Hup' : forall N : Z, (inject_Z (Qfloor s) < inject_Z N)%Q -> Qfloor s + 1 <= N).
  { intros N HN. rewrite <- Zlt_Qlt in HN. lia. }
  assert (Hlo : forall N : Z, (inject_Z N <= s)%Q -> N <= Qfloor s).
  { intros N HN. rewrite <- (Qfloor_Z N). by apply Qfloor_resp_le. }
  assert (Hm : (Num.nearestEven s = Qfloor s /\ (s - inject_Z (Qfloor s) <= 1 # 2)%Q /\
                 (s == inject_Z (Qfloor s) \/ (inject_Z (Qfloor s) < s)%Q)) \/
               (Num.nearestEven s = Qfloor s + 1 /\ (1 # 2 <= s - inject_Z (Qfloor s))%Q)).
  { unfold Num.nearestEven.
    destruct (Qcompare_spec (s - inject_Z (Qfloor s)) (1 # 2)) as [E | E | E].
    - destruct (Z.even (Qfloor s)).
      + left. split; [reflexivity |]. split; [lra |]. right. lra.
      + right. split; [reflexivity | lra].
    - left. split; [reflexivity |]. split; [lra |].
      destruct (Qlt_le_dec (inject_Z (Qfloor s)) s) as [Hlt | Hle];
        [by right | left; lra].
    - right. split; [reflexivity | lra]. }
  destruct Hm as [(-> & H1 & H2) | (-> & H1)].
  - split; [apply Qabs_Qle_condition; split; lra |]. split; [exact Hup | exact Hlo].
  - split.
    + rewrite inject_Z_plus. change (inject_Z 1) with 1%Q.
      apply Qabs_Qle_condition; split; lra.
    + split.
      * intros N HN. apply Hup'. lra.
      * intros N HN. apply Hlo in HN. lia.
Qed.

Lemma Qabs_pos_eq (x : Q) : (0 < x)%Q -> Qabs x = x.
Proof.
  destruct x as [n d]. intros H. unfold Qabs.
  rewrite Z.abs_eq; [reflexivity |]. unfold Qlt in H. cbn in H. lia.
Qed.

(** A positive rational is rounded on the grid of its exponent. *)
Lemma nearestDouble_pos (x : Q) :
  (0 < x)%Q ->
  (Num.nearestDouble x
   == inject_Z (Num.nearestEven (x * 2 ^ (- Num.exponent x))) * 2 ^ Num.exponent x)%Q.
Proof.
  intros Hx. unfold Num.nearestDouble.
  destruct (Qeq_bool x 0) eqn:E0.
  { apply Qeq_bool_iff in E0. lra. }
  rewrite (Qabs_pos_eq x Hx).
  destruct (Qle_bool 0 x) eqn:E1.
  - apply Qred_correct.
  - exfalso. apply not_true_iff_false in E1. apply E1, Qle_bool_iff. lra.
Qed.

Lemma nearestDouble_0 (x : Q) : (x == 0)%Q -> Num.nearestDouble x = 0%Q.
Proof.
  intros H. unfold Num.nearestDouble. apply Qeq_bool_iff in H. by rewrite H.
Qed.

Lemma scale_back (x : Q) (e : Z) : (x * 2 ^ (- e) * 2 ^ e == x)%Q.
Proof. rewrite <- Qmult_assoc, pow2_cancel. ring. Qed.

(** Rounding keeps a number that is not negative so. *)
Lemma nearestDouble_nonneg (x : Q) : (0 <= x)%Q -> (0 <= Num.nearestDouble x)%Q.
Proof.
  intros Hx. destruct (Qlt_le_dec 0 x) as [Hpos | Hle].
  - rewrite (nearestDouble_pos x Hpos).
    pose proof (exponent_spec x Hpos) as [Hs _].
    destruct (nearestEven_spec (x * 2 ^ (- Num.exponent x))) as (_ & _ & Hlo).
    specialize (Hlo 0). apply Qmult_le_0_compat.
    + rewrite <- (Zle_Qle 0). apply Hlo.
      change (2 ^ 52)%Q with 4503599627370496%Q in Hs. change (inject_Z 0) with 0%Q. lra.
    + apply Qlt_le_weak, pow2_pos.
  - rewrite nearestDouble_0; lra.
Qed.

(** The relative error of rounding is at most [2^-53]. *)
Lemma nearestDouble_error (x : Q) :
  (0 < x)%Q ->
  (x * (1 - (1 # 9007199254740992)) <= Num.nearestDouble x
   <= x * (1 + (1 # 9007199254740992)))%Q.
Proof.
  intros Hx. rewrite (nearestDouble_pos x Hx).
  pose proof (exponent_spec x Hx) as [Hs _].
  destruct (nearestEven_spec (x * 2 ^ (- Num.exponent x))) as (Herr & _ & _).
  apply Qabs_Qle_condition in Herr.
  pose proof (scale_back x (Num.exponent x)) as Hback.
  pose proof (pow2_pos (Num.exponent x)) as Hp.
  revert Hs Herr Hback Hp.
  generalize (x * 2 ^ (- Num.exponent x))%Q (2 ^ Num.exponent x)%Q
             (inject_Z (Num.nearestEven (x * 2 ^ (- Num.exponent x)))).
  intros s p m Hs Herr Hback Hp.
  change (2 ^ 52)%Q with 4503599627370496%Q in Hs.
  assert (H1 : (s * (1 - (1 # 9007199254740992)) <= m)%Q) by lra.
  assert (H2 : (m <= s * (1 + (1 # 9007199254740992)))%Q) by lra.
  rewrite <- Hback. split.
  - assert (E : (s * p * (1 - (1 # 9007199254740992))
                 == s * (1 - (1 # 9007199254740992)) * p)%Q) by ring.
    rewrite E. apply Qmult_le_compat_r; lra.
  - assert (E : (s * p * (1 + (1 # 9007199254740992))
                 == s * (1 + (1 # 9007199254740992)) * p)%Q) by ring.
    rewrite E. apply Qmult_le_compat_r; lra.
Qed.

(** Rounding never crosses a double: a double is [M * 2^j] with an integer
    [M] of at most 53 bits. *)
Lemma nearestDouble_le_double (x : Q) (M j : Z) :
  (0 < x)%Q -> 0 < M < 2 ^ 53 -> (x <= inject_Z M * 2 ^ j)%Q ->
  (Num.nearestDouble x <= inject_Z M * 2 ^ j)%Q.
Proof.
  intros Hx HM Hle. rewrite (nearestDouble_pos x Hx).
  pose proof (exponent_spec x Hx) as [Hs1 Hs2].
  destruct (nearestEven_spec (x * 2 ^ (- Num.exponent x))) as (_ & Hup & _).
  set (e := Num.exponent x) in *.
  pose proof (pow2_pos e) as Hp. pose proof (pow2_pos (- e)) as Hp'.
  pose proof (pow2_pos j) as Hpj.
  assert (Hej : e <= j).
  { assert (H : (2 ^ (52 + e) < 2 ^ (53 + j))%Q).
    { rewrite !pow2_plus.
      apply Qle_lt_trans with x.
      - rewrite <- (scale_back x e). apply Qmult_le_compat_r; [exact Hs1 | lra].
      - apply Qle_lt_trans with (inject_Z M * 2 ^ j)%Q; [exact Hle |].
        apply Qmult_lt_compat_r; [exact Hpj |].
        change (2 ^ 53)%Q with (inject_Z (2 ^ 53)). rewrite <- Zlt_Qlt. lia. }
    apply pow2_lt_inv in H. lia. }
  assert (Hint : (inject_Z M * 2 ^ j == inject_Z (M * 2 ^ (j - e)) * 2 ^ e)%Q).
  { rewrite inject_Z_mult, <- (pow2_Z (j - e)) by lia.
    rewrite <- Qmult_assoc, <- pow2_plus. replace (j - e + e) with j by lia. reflexivity. }
  rewrite Hint. apply Qmult_le_compat_r; [| lra].
  rewrite <- Zle_Qle. apply Hup.
  apply Qmult_le_r with (2 ^ e)%Q; [exact Hp |].
  rewrite scale_back, <- Hint. exact Hle.
Qed.

Lemma nearestDouble_ge_double (x : Q) (M j : Z) :
  0 < M < 2 ^ 53 -> (inject_Z M * 2 ^ j <= x)%Q ->
  (inject_Z M * 2 ^ j <= Num.nearestDouble x)%Q.
Proof.
  intros HM Hle.
  pose proof (pow2_pos j) as Hpj.
  assert (Hx : (0 < x)%Q).
  { apply Qlt_le_trans with (inject_Z M * 2 ^ j)%Q; [| exact Hle].
    apply Qmult_lt_0_compat; [| exact Hpj]. rewrite <- (Zlt_Qlt 0). lia. }
  rewrite (nearestDouble_pos x Hx).
  pose proof (exponent_spec x Hx) as [Hs1 Hs2].
  destruct (nearestEven_spec (x * 2 ^ (- Num.exponent x))) as (_ & _ & Hlo).
  set (e := Num.exponent x) in *.
  pose proof (pow2_pos e) as Hp.
  destruct (Z_le_gt_dec e j) as [Hej | Hej].
  - assert (Hint : (inject_Z M * 2 ^ j == inject_Z (M * 2 ^ (j - e)) * 2 ^ e)%Q).
    { rewrite inject_Z_mult, <- (pow2_Z (j - e)) by lia.
      rewrite <- Qmult_assoc, <- pow2_plus. replace (j - e + e) with j by lia.
      reflexivity. }
    rewrite Hint. apply Qmult_le_compat_r; [| lra].
    rewrite <- Zle_Qle. apply Hlo.
    apply Qmult_le_r with (2 ^ e)%Q; [exact Hp |].
    rewrite scale_back, <- Hint. exact Hle.
  - apply Qle_trans with (inject_Z (2 ^ 52) * 2 ^ e)%Q.
    + apply Qle_trans with (inject_Z (2 ^ 53) * 2 ^ j)%Q.
      * apply Qmult_le_compat_r; [| lra]. rewrite <- Zle_Qle. lia.
      * change (inject_Z (2 ^ 53)) with (2 ^ 53)%Q.
        change (inject_Z (2 ^ 52)) with (2 ^ 52)%Q.
        rewrite <- !pow2_plus. apply pow2_le. lia.
    + apply Qmult_le_compat_r; [| lra]. rewrite <- Zle_Qle. apply Hlo. exact Hs1.
Qed.

(** A double is its own rounding. *)
Lemma nearestDouble_double (M j : Z) :
  0 < M < 2 ^ 53 ->
  (Num.nearestDouble (inject_Z M * 2 ^ j) == inject_Z M * 2 ^ j)%Q.
Proof.
  intros HM. apply Qle_antisym.
  - apply nearestDouble_le_double; [| exact HM | apply Qle_refl].
    apply Qmult_lt_0_compat; [| apply pow2_pos]. rewrite <- (Zlt_Qlt 0). lia.
  - apply nearestDouble_ge_double; [exact HM | apply Qle_refl].
Qed.

(** Rounding stays between 0 and an integer of at most 53 bits. *)
Lemma nearestDouble_within (x : Q) (M : Z) :
  0 < M < 2 ^ 53 -> (0 <= x <= inject_Z M)%Q ->
  (0 <= Num.nearestDouble x <= inject_Z M)%Q.
Proof.
  intros HM [H0 H1]. split; [by apply nearestDouble_nonneg |].
  destruct (Qlt_le_dec 0 x) as [Hpos | Hle].
  - assert (E : (inject_Z M == inject_Z M * 2 ^ 0)%Q) by (change (2 ^ 0)%Q with 1%Q; ring).
    rewrite E. apply nearestDouble_le_double; [exact Hpos | exact HM |].
    by rewrite <- E.
  - rewrite nearestDouble_0 by lra. rewrite <- (Zle_Qle 0). lia.
Qed.

(** ** Reading a dictionary *)

Lemma get_undefined {A : Type} (o : gmap string A) (k : string) :
  get o k = Undefined -> o !! k = None.
Proof. unfold get. destruct (o !! k); [discriminate | done]. Qed.

Lemma get_own {A : Type} (o : gmap string A) (k : string) (v : A) :
  o !! k = Some v -> get o k = Own v.
Proof. unfold get. by intros ->. Qed.

Lemma get_own_inv {A : Type} (o : gmap string A) (k : string) (v : A) :
  get o k = Own v -> o !! k = Some v.
Proof.
  unfold get. destruct (o !! k); [congruence |].
  destruct (inherited k); discriminate.
Qed.

(** ** The question ledger *)

Lemma countCorrect_insert (m : gmap string Question) (k : string) (q : Question) :
  m !! k = None ->
  countCorrect (<[k := q]> m)
  = if qn_correct q then S (countCorrect m) else countCorrect m.
Proof.
  intros Hk. unfold countCorrect.
  destruct (qn_correct q) eqn:E.
  - rewrite map_filter_insert_True by done.
    rewrite map_size_insert_None; [done |].
    rewrite map_lookup_filter_None. by left.
  - rewrite map_filter_insert_not'; [done | |]; simpl; [congruence |].
    intros y Hy. congruence.
Qed.

Lemma countCorrect_le (m : gmap string Question) : (countCorrect m <= size m)%nat.
Proof.
  unfold countCorrect. apply map_subseteq_size, map_filter_subseteq.
Qed.

Lemma ledger_ok_empty : ledger_ok emptyLedger.
Proof. split; reflexivity. Qed.

Lemma ledger_ok_call (s : Session) (c : Call) (now : Z) :
  ledger_ok (questionsAnswered s) ->
  ledger_ok (questionsAnswered (fst (call s c now))).
Proof.
  intros [Ht Hc]. destruct c; simpl; try (split; assumption).
  - unfold completeObjective. simpl. destruct (find _ _); simpl; split; assumption.
  - unfold addObjective. destruct (find _ _); simpl; split; assumption.
  - unfold recordQuizScore. simpl.
    destruct (get _ _); simpl; try (split; assumption).
    destruct (Num.gt _ _); simpl; split; assumption.
  - unfold recordQuestionAnswer.
    destruct (get _ questionId) eqn:G; simpl; try (split; assumption).
    apply get_undefined in G. split; simpl.
    + rewrite map_size_insert_None by done. lia.
    + rewrite countCorrect_insert by done. simpl. destruct isCorrect; lia.
  - apply ledger_ok_empty.
Qed.

Lemma ledger_ok_run (cs : list (Call * Z)) (s : Session) :
  ledger_ok (questionsAnswered s) -> ledger_ok (questionsAnswered (run s cs)).
Proof.
  revert s. induction cs as [| [c now] cs IH]; intros s Hs; [exact Hs |].
  apply IH, ledger_ok_call, Hs.
Qed.

(** C9.  After any sequence of API calls from the initial state, in
    particular any sequence of [recordQuestionAnswer] and [resetQuestions],
    [total] is the number of question ids in the dictionary and [correct] is
    the number of those recorded as correct, so [0 <= correct <= total]. *)
Theorem ledger_totals_agree (title : string) (now0 : Z) (cs : list (Call * Z)) :
  let l := questionsAnswered (run (initialState title now0) cs) in
  total l = Z.of_nat (size (questions l)) /\
  correct l = Z.of_nat (countCorrect (questions l)) /\
  0 <= correct l <= total l.
Proof.
  intros l.
  destruct (ledger_ok_run cs (initialState title now0) ledger_ok_empty) as [Ht Hc].
  fold l in Ht, Hc. repeat split; try assumption; try lia.
  rewrite Ht, Hc. apply inj_le, countCorrect_le.
Qed.

(** A second answer to a question that the first call recorded or found
    recorded changes nothing and sends nothing. *)
Lemma recordQuestionAnswer_twice (s : Session) (id : string)
    (c1 c2 : bool) (t1 t2 : option string) (n1 n2 : Z) :
  let s1 := fst (recordQuestionAnswer s id c1 t1 n1) in
  recordQuestionAnswer s1 id c2 t2 n2 = (s1, []).
Proof.
  intros s1.
  assert (H : get (questions (questionsAnswered s1)) id <> Undefined).
  { subst s1. unfold recordQuestionAnswer.
    destruct (get (questions (questionsAnswered s)) id) eqn:G; simpl.
    - by rewrite G.
    - by rewrite G.
    - erewrite get_own; [done |]. apply lookup_insert_eq. }
  unfold recordQuestionAnswer.
  destruct (get (questions (questionsAnswered s1)) id);
    [reflexivity | reflexivity | congruence].
Qed.

(** C7.  Answering a question whose id is already in the ledger leaves the
    session, and with it the dictionary and both totals, as it was, whatever
    [isCorrect] says this time; nothing is sent either. *)
Theorem recordQuestionAnswer_present (s : Session) (id : string) (e : Question)
    (isCorrect : bool) (text : option string) (now : Z)
    (Hpresent : questions (questionsAnswered s) !! id = Some e) :
  recordQuestionAnswer s id isCorrect text now = (s, []) /\
  questions (questionsAnswered (fst (recordQuestionAnswer s id isCorrect text now)))
  = questions (questionsAnswered s) /\
  total (questionsAnswered (fst (recordQuestionAnswer s id isCorrect text now)))
  = total (questionsAnswered s) /\
  correct (questionsAnswered (fst (recordQuestionAnswer s id isCorrect text now)))
  = correct (questionsAnswered s).
Proof.
  assert (E : recordQuestionAnswer s id isCorrect text now = (s, [])).
  { unfold recordQuestionAnswer. by rewrite (get_own _ _ _ Hpresent). }
  rewrite E. repeat split.
Qed.

(** A wrong answer to "q1" after a right one: the ledger keeps the first. *)
Lemma recordQuestionAnswer_present_witness :
  recordQuestionAnswer answeredOnce "q1" false (Some "again"%string) 2
  = (answeredOnce, []) /\
  total (questionsAnswered answeredOnce) = 1 /\
  correct (questionsAnswered answeredOnce) = 1.
Proof.
  pose proof (recordQuestionAnswer_present answeredOnce "q1"
                {| qn_answered := true; qn_correct := true;
                   qn_text := ""; qn_timestamp := 1 |}
                false (Some "again"%string) 2 eq_refl) as H.
  split; [exact (proj1 H) | split; reflexivity].
Defined.

(** ** Comparing numbers *)

Lemma gt_fin (x y : Q) : Num.gt (Fin x) (Fin y) = true <-> (y < x)%Q.
Proof.
  simpl. rewrite negb_true_iff, <- not_true_iff_false, Qle_bool_iff.
  split; [apply Qnot_le_lt | apply Qlt_not_le].
Qed.

Lemma gt_irrefl (a : num) : Num.gt a a = false.
Proof.
  destruct a as [x | | |]; try reflexivity.
  apply not_true_iff_false. rewrite gt_fin. apply Qlt_irrefl.
Qed.

Lemma gt_trans (a b c : num) :
  Num.gt a b = true -> Num.gt b c = true -> Num.gt a c = true.
Proof.
  destruct a as [x | | |], b as [y | | |], c as [z | | |];
    try discriminate; try reflexivity.
  rewrite !gt_fin. intros H1 H2. eapply Qlt_trans; eassumption.
Qed.

Lemma gt_asym (a b : num) : Num.gt a b = true -> Num.gt b a = false.
Proof.
  intros H. apply not_true_iff_false. intros H'.
  pose proof (gt_trans _ _ _ H H') as E. rewrite gt_irrefl in E. discriminate.
Qed.

Lemma sgn_inject_Z (z : Z) : Num.sgn (inject_Z z) = (z ?= 0).
Proof. reflexivity. Qed.

(** C10.  [getQuestionsStats] returns the two totals as they are and divides
    only under its guard: with no question answered the percentage is 0, and
    otherwise it is [round(correct / total * 100)] as the script computes it,
    the quotient and the product each rounded to a double: a finite integer,
    never [NaN] or an infinity. *)
Theorem getQuestionsStats_guarded (s : Session) :
  let l := questionsAnswered s in
  let r := getQuestionsStats s in
  st_total r = total l /\ st_correct r = correct l /\
  ((total l <= 0 /\ st_percentage r = ofZ 0) \/
   (0 < total l /\
    st_percentage r
    = Num.round (Num.fmul (Num.fdiv (ofZ (correct l)) (ofZ (total l))) (ofZ 100)) /\
    st_percentage r
    = ofZ (Qfloor
             (Num.nearestDouble
                (Num.nearestDouble (inject_Z (correct l) / inject_Z (total l))
                 * inject_Z 100) + (1 # 2))))).
Proof.
  intros l r. subst r. unfold getQuestionsStats. fold l.
  cbn [st_total st_correct st_percentage].
  split; [reflexivity |]. split; [reflexivity |].
  case_bool_decide as Ht.
  - right. split; [exact Ht |]. split; [reflexivity |].
    unfold Num.fmul, Num.fdiv, Num.div, ofZ. rewrite sgn_inject_Z.
    destruct (Z.compare_spec (total l) 0); try lia. reflexivity.
  - left. split; [lia | reflexivity].
Qed.

(** The rounding of the quotient shows: 23 right answers out of 40 are
    reported as 57%, because [(23 / 40) * 100] is [57.49999999999999]. *)
Lemma getQuestionsStats_23_of_40 (s : Session) :
  total (questionsAnswered s) = 40 -> correct (questionsAnswered s) = 23 ->
  st_percentage (getQuestionsStats s) = ofZ 57.
Proof.
  intros Ht Hc. unfold getQuestionsStats. cbn [st_percentage]. rewrite Ht, Hc.
  vm_compute. reflexivity.
Qed.

(** The percentage is the exactly rounded one or a neighbour of it: the two
    roundings to a double move the product by less than a half. *)
Lemma getQuestionsStats_near_exact (s : Session) :
  0 <= correct (questionsAnswered s) <= total (questionsAnswered s) ->
  0 < total (questionsAnswered s) ->
  exists z : Z,
    st_percentage (getQuestionsStats s) = ofZ z /\
    Z.abs (z - Qfloor (inject_Z (correct (questionsAnswered s))
                       / inject_Z (total (questionsAnswered s)) * 100 + (1 # 2))) <= 1.
Proof.
  intros Hc Ht. unfold getQuestionsStats. cbn [st_percentage].
  rewrite bool_decide_true by exact Ht.
  unfold Num.fmul, Num.fdiv, Num.div, ofZ. rewrite sgn_inject_Z.
  destruct (Z.compare_spec (total (questionsAnswered s)) 0); try lia.
  cbn [Num.mul Num.round Num.rounded]. eexists. split; [reflexivity |].
  assert (H0 : (0 <= inject_Z (correct (questionsAnswered s))
                      / inject_Z (total (questionsAnswered s)))%Q).
  { apply Qle_shift_div_l; [by rewrite <- (Zlt_Qlt 0) |].
    rewrite Qmult_0_l. rewrite <- (Zle_Qle 0). lia. }
  assert (H1 : (inject_Z (correct (questionsAnswered s))
                / inject_Z (total (questionsAnswered s)) <= 1)%Q).
  { apply Qle_shift_div_r; [by rewrite <- (Zlt_Qlt 0) |].
    rewrite Qmult_1_l. rewrite <- Zle_Qle. lia. }
  revert H0 H1.
  generalize (inject_Z (correct (questionsAnswered s))
              / inject_Z (total (questionsAnswered s)))%Q.
  intros x H0 H1. change (inject_Z 100) with 100%Q.
  assert (Hclose : (x * 100 - (1 # 2) <= Num.nearestDouble (Num.nearestDouble x * 100)
                    <= x * 100 + (1 # 2))%Q).
  { destruct (Qlt_le_dec 0 x) as [Hpos | Hle].
    - pose proof (nearestDouble_error x Hpos) as Hq. revert Hq.
      generalize (Num.nearestDouble x). intros q Hq.
      assert (Hy : (0 < q * 100)%Q) by lra.
      pose proof (nearestDouble_error _ Hy) as Hp. revert Hp.
      generalize (Num.nearestDouble (q * 100)). intros r Hr. split; lra.
    - assert (E0 : (x == 0)%Q) by lra. rewrite (nearestDouble_0 x E0).
      assert (E1 : (0 * 100 == 0)%Q) by reflexivity.
      rewrite (nearestDouble_0 _ E1). split; lra. }
  revert Hclose. generalize (Num.nearestDouble (Num.nearestDouble x * 100)).
  intros r Hr.
  pose proof (Qfloor_le (r + (1 # 2))) as A1. pose proof (Qlt_floor (r + (1 # 2))) as A2.
  pose proof (Qfloor_le (x * 100 + (1 # 2))) as B1.
  pose proof (Qlt_floor (x * 100 + (1 # 2))) as B2.
  rewrite inject_Z_plus in A2, B2. change (inject_Z 1) with 1%Q in A2, B2.
  assert (C1 : (inject_Z (Qfloor (r + (1 # 2)))
                < inject_Z (Qfloor (x * 100 + (1 # 2)) + 2))%Q).
  { rewrite inject_Z_plus. change (inject_Z 2) with 2%Q. lra. }
  assert (C2 : (inject_Z (Qfloor (x * 100 + (1 # 2)))
                < inject_Z (Qfloor (r + (1 # 2)) + 2))%Q).
  { rewrite inject_Z_plus. change (inject_Z 2) with 2%Q. lra. }
  rewrite <- Zlt_Qlt in C1, C2. lia.
Qed.

(** ** The order of [Object.values] does not matter *)

Lemma num_eq_refl (a : num) : a =n= a.
Proof. destruct a; simpl; try done. Qed.

Lemma num_eq_sym (a b : num) : a =n= b -> b =n= a.
Proof. destruct a, b; simpl; done. Qed.

Lemma num_eq_trans (a b c : num) : a =n= b -> b =n= c -> a =n= c.
Proof.
  destruct a, b, c; simpl; try done. intros H1 H2. by rewrite H1.
Qed.

Lemma add_proper (a a' b b' : num) :
  a =n= a' -> b =n= b' -> Num.add a b =n= Num.add a' b'.
Proof.
  destruct a, a', b, b'; simpl; try done. intros H1 H2. by rewrite H1, H2.
Qed.

Lemma add_swap (a b c : num) :
  Num.add (Num.add a b) c =n= Num.add (Num.add a c) b.
Proof. destruct a, b, c; simpl; try done. ring. Qed.

Lemma foldl_add_proper (qs : list Quiz) (a a' : num) :
  a =n= a' ->
  foldl (fun sum q => Num.add sum (q_percentage q)) a qs
  =n= foldl (fun sum q => Num.add sum (q_percentage q)) a' qs.
Proof.
  revert a a'. induction qs as [| q qs IH]; intros a a' H; [exact H |].
  simpl. apply IH, add_proper; [exact H | apply num_eq_refl].
Qed.

(** The sum of the percentages is the same, as a number, in whatever order
    the quizzes are enumerated. *)
Lemma sumPercentages_Permutation (qs qs' : list Quiz) :
  qs ≡ₚ qs' -> sumPercentages qs =n= sumPercentages qs'.
Proof.
  unfold sumPercentages. generalize (ofZ 0).
  intros a H. revert a.
  induction H as [| q qs qs' _ IH | q q' qs | qs1 qs2 qs3 _ IH1 _ IH2]; intros a.
  - apply num_eq_refl.
  - simpl. apply IH.
  - simpl. apply foldl_add_proper, add_swap.
  - eapply num_eq_trans; [apply IH1 | apply IH2].
Qed.

(** ** Quiz scores *)

(** The only call that writes [quizScores] is [recordQuizScore]. *)
Lemma quizScores_call_other (s : Session) (c : Call) (now : Z) :
  (forall n sc mx tq, c <> RecordQuizScore n sc mx tq) ->
  quizScores (fst (call s c now)) = quizScores s.
Proof.
  intros Hc. destruct c; simpl; try reflexivity.
  - unfold completeObjective. simpl. by destruct (find _ _).
  - unfold addObjective. by destruct (find _ _).
  - exfalso. by eapply Hc.
  - unfold recordQuestionAnswer. by destruct (get _ _).
Qed.

(** What [recordQuizScore] leaves under a name. *)
Lemma recordQuizScore_lookup (s : Session) (n : string) (sc : num)
    (mx tq : option num) (now : Z) (k : string) :
  quizScores (fst (recordQuizScore s n sc mx tq now)) !! k = quizScores s !! k \/
  (k = n /\
   exists e, quizScores (fst (recordQuizScore s n sc mx tq now)) !! k = Some e /\
     q_percentage e = quizPercentage sc (default (ofZ 100) mx) /\
     forall e0, quizScores s !! k = Some e0 ->
       Num.gt (q_percentage e) (q_percentage e0) = true).
Proof.
  unfold recordQuizScore. simpl.
  destruct (get (quizScores s) n) as [e0 | |] eqn:G; simpl.
  - destruct (Num.gt _ _) eqn:Hgt; simpl; [| by left].
    destruct (decide (k = n)) as [-> | Hk].
    + right. split; [done |]. eexists. rewrite lookup_insert_eq.
      split; [done |]. split; [done |]. simpl.
      intros e1 He1. apply get_own_inv in G. congruence.
    + left. by rewrite lookup_insert_ne.
  - by left.
  - destruct (decide (k = n)) as [-> | Hk].
    + right. split; [done |]. eexists. rewrite lookup_insert_eq.
      split; [done |]. split; [done |].
      intros e1 He1. apply get_undefined in G. congruence.
    + left. by rewrite lookup_insert_ne.
Qed.

Lemma quiz_kept_or_raised_call (s : Session) (c : Call) (now : Z)
    (k : string) (e : Quiz) :
  quizScores s !! k = Some e ->
  exists e', quizScores (fst (call s c now)) !! k = Some e' /\
    (e' = e \/ Num.gt (q_percentage e') (q_percentage e) = true).
Proof.
  intros He.
  destruct c as [| | n sc mx tq | | | | |];
    try (rewrite quizScores_call_other by discriminate; eauto).
  change (call s (RecordQuizScore n sc mx tq) now) with (recordQuizScore s n sc mx tq now).
  destruct (recordQuizScore_lookup s n sc mx tq now k) as [E | [_ (e' & E & _ & Hgt)]].
  - rewrite E. eauto.
  - exists e'. split; [done |]. right. by apply Hgt.
Qed.

Lemma quiz_kept_or_raised_run (cs : list (Call * Z)) (s : Session)
    (k : string) (e : Quiz) :
  quizScores s !! k = Some e ->
  exists e', quizScores (run s cs) !! k = Some e' /\
    (e' = e \/ Num.gt (q_percentage e') (q_percentage e) = true).
Proof.
  revert s e. induction cs as [| [c now] cs IH]; intros s e He; [eauto |].
  destruct (quiz_kept_or_raised_call s c now k e He) as (e1 & He1 & H1).
  destruct (IH _ _ He1) as (e2 & He2 & H2).
  exists e2. split; [exact He2 |].
  destruct H1 as [-> | H1]; [exact H2 |].
  destruct H2 as [-> | H2]; [by right |].
  right. eapply gt_trans; eassumption.
Qed.

(** C5.  For a quiz that has an entry: a submission whose percentage
    [round(score / maxScore * 100)] is not greater than the stored one leaves
    the whole session as it was, and after any sequence of calls the entry is
    still there, either the same or with a strictly greater percentage, so the
    stored percentage is never lower than before. *)
Theorem quiz_percentage_never_lowered (s : Session) (quizName : string) (e : Quiz)
    (Hstored : quizScores s !! quizName = Some e) :
  (forall score maxScore totalQuestions now,
      Num.gt (quizPercentage score (default (ofZ 100) maxScore)) (q_percentage e) = false ->
      fst (recordQuizScore s quizName score maxScore totalQuestions now) = s) /\
  (forall cs, exists e',
      quizScores (run s cs) !! quizName = Some e' /\
      (e' = e \/ Num.gt (q_percentage e') (q_percentage e) = true) /\
      Num.lt (q_percentage e') (q_percentage e) = false).
Proof.
  split.
  - intros score maxScore tq now Hle. unfold recordQuizScore. simpl.
    rewrite (get_own _ _ _ Hstored). by rewrite Hle.
  - intros cs. destruct (quiz_kept_or_raised_run cs s quizName e Hstored) as (e' & He' & H).
    exists e'. split; [done |]. split; [done |]. unfold Num.lt.
    destruct H as [-> | H]; [apply gt_irrefl | by apply gt_asym].
Qed.

(** 60% then 40% for the same quiz: 60% stays. *)
Lemma quiz_percentage_never_lowered_witness :
  fst (recordQuizScore quiz60 "Quiz" (ofZ 4) (Some (ofZ 10)) None 2) = quiz60 /\
  q_percentage <$> quizScores quiz60 !! "Quiz"%string = Some (ofZ 60).
Proof.
  split; [| reflexivity].
  refine (proj1 (quiz_percentage_never_lowered quiz60 "Quiz"
                   {| q_score := ofZ 6; q_maxScore := ofZ 10;
                      q_percentage := ofZ 60; q_totalQuestions := ofZ 10;
                      q_timestamp := 1 |} eq_refl)
                (ofZ 4) (Some (ofZ 10)) None 2 eq_refl).
Defined.

(** ** Objectives *)

Lemma sameObjective_key (k : string) (o : Objective) :
  sameObjective k o = true <-> key o = k.
Proof. unfold sameObjective, key. apply String.eqb_eq. Qed.

Lemma sameObjective_complete (k : string) (sc : num) (o : Objective) :
  sameObjective k (complete sc o) = sameObjective k o.
Proof. reflexivity. Qed.

Lemma keys_update_first (k : string) (sc : num) (os : list Objective) :
  keys (update_first (sameObjective k) (complete sc) os) = keys os.
Proof.
  induction os as [| o os IH]; [reflexivity |]. simpl.
  destruct (sameObjective k o); simpl; [reflexivity |]. by rewrite IH.
Qed.

Lemma length_update_first {A : Type} (p : A -> bool) (f : A -> A) (l : list A) :
  length (update_first p f l) = length l.
Proof.
  induction l as [| x l IH]; [reflexivity |]. simpl.
  destruct (p x); simpl; [reflexivity |]. by rewrite IH.
Qed.

Lemma entry_update_first (k k' : string) (sc : num) (os : list Objective) :
  entry k' (update_first (sameObjective k) (complete sc) os)
  = if String.eqb k k' then complete sc <$> entry k os else entry k' os.
Proof.
  unfold entry. induction os as [| o os IH]; simpl.
  - by destruct (String.eqb k k').
  - destruct (sameObjective k o) eqn:Ek; simpl.
    + rewrite sameObjective_complete.
      destruct (String.eqb_spec k k') as [<- | Hne].
      * by rewrite Ek.
      * apply sameObjective_key in Ek.
        destruct (sameObjective k' o) eqn:Ek'; [| reflexivity].
        apply sameObjective_key in Ek'. congruence.
    + rewrite IH. destruct (String.eqb_spec k k') as [<- | Hne].
      * by rewrite Ek.
      * reflexivity.
Qed.

Lemma entry_app (k : string) (os : list Objective) (o : Objective) :
  entry k (os ++ [o])
  = match entry k os with
    | Some x => Some x
    | None => if sameObjective k o then Some o else None
    end.
Proof.
  unfold entry. induction os as [| x os IH]; simpl; [reflexivity |].
  by destruct (sameObjective k x).
Qed.

Lemma entry_None (k : string) (os : list Objective) :
  entry k os = None -> k ∉ keys os.
Proof.
  unfold entry, keys. induction os as [| o os IH]; simpl.
  - intros _. apply not_elem_of_nil.
  - destruct (sameObjective k o) eqn:E; [discriminate |].
    intros H. rewrite not_elem_of_cons. split; [| by apply IH].
    intros ->. rewrite <- not_true_iff_false in E. apply E.
    by apply sameObjective_key.
Qed.

Lemma entry_Some_key (k : string) (os : list Objective) (o : Objective) :
  entry k os = Some o -> key o = k /\ o ∈ os.
Proof.
  unfold entry. intros H. apply find_some in H as [Hin Hk].
  split; [by apply sameObjective_key | by apply list_elem_of_In].
Qed.

(** The objectives after [completeObjective], read by key. *)
Lemma entry_completeObjective (s : Session) (n : string) (sc : option num)
    (now : Z) (k : string) :
  entry k (objectives (fst (completeObjective s n sc now)))
  = if String.eqb (normalize n) k then
      Some match entry k (objectives s) with
           | Some o => complete (default (ofZ 100) sc) o
           | None => {| o_name := n; o_completed := true;
                        o_score := default (ofZ 100) sc; o_timestamp := now |}
           end
    else entry k (objectives s).
Proof.
  unfold completeObjective. simpl. fold (entry (normalize n) (objectives s)).
  destruct (entry (normalize n) (objectives s)) as [o |] eqn:E; simpl.
  - rewrite entry_update_first.
    destruct (String.eqb_spec (normalize n) k) as [<- | Hne]; [| reflexivity].
    by rewrite E.
  - rewrite entry_app. unfold sameObjective at 1. simpl.
    destruct (String.eqb_spec (normalize n) k) as [<- | Hne].
    + by rewrite E.
    + by destruct (entry k (objectives s)).
Qed.

(** The objectives after [addObjective], read by key. *)
Lemma entry_addObjective (s : Session) (n : string) (now : Z) (k : string) :
  entry k (objectives (fst (addObjective s n now)))
  = match entry k (objectives s) with
    | Some o => Some o
    | None =>
        if String.eqb (normalize n) k
        then Some {| o_name := n; o_completed := false;
                     o_score := ofZ 0; o_timestamp := now |}
        else None
    end.
Proof.
  unfold addObjective. fold (entry (normalize n) (objectives s)).
  destruct (entry (normalize n) (objectives s)) as [o |] eqn:E; simpl.
  - destruct (entry k (objectives s)) eqn:Ek; [reflexivity |].
    destruct (String.eqb_spec (normalize n) k) as [<- | Hne]; congruence.
  - rewrite entry_app. unfold sameObjective at 1. simpl. reflexivity.
Qed.

(** The calls that write [objectives]. *)
Lemma objectives_call_other (s : Session) (c : Call) (now : Z) :
  (forall n sc, c <> CompleteObjective n sc) -> (forall n, c <> AddObjective n) ->
  objectives (fst (call s c now)) = objectives s.
Proof.
  intros H1 H2. destruct c; simpl; try reflexivity.
  - exfalso. by eapply H1.
  - exfalso. by eapply H2.
  - unfold recordQuizScore. simpl. destruct (get _ _); simpl; try reflexivity.
    by destruct (Num.gt _ _).
  - unfold recordQuestionAnswer. by destruct (get _ _).
Qed.

(** No two stored objectives share a canonical key. *)
Lemma keys_NoDup_call (s : Session) (c : Call) (now : Z) :
  NoDup (keys (objectives s)) -> NoDup (keys (objectives (fst (call s c now)))).
Proof.
  intros Hs.
  destruct c as [n sc | n | | | | | |];
    try (rewrite objectives_call_other by discriminate; exact Hs).
  - simpl. unfold completeObjective. simpl.
    fold (entry (normalize n) (objectives s)).
    destruct (entry (normalize n) (objectives s)) eqn:E; simpl.
    + by rewrite keys_update_first.
    + unfold keys. rewrite map_app. simpl.
      apply NoDup_app. split; [exact Hs |]. split; [| apply NoDup_singleton].
      intros x Hx Hx'. apply list_elem_of_singleton in Hx'. subst x.
      by apply entry_None in E.
  - simpl. unfold addObjective.
    fold (entry (normalize n) (objectives s)).
    destruct (entry (normalize n) (objectives s)) eqn:E; simpl; [exact Hs |].
    unfold keys. rewrite map_app. simpl.
    apply NoDup_app. split; [exact Hs |]. split; [| apply NoDup_singleton].
    intros x Hx Hx'. apply list_elem_of_singleton in Hx'. subst x.
    by apply entry_None in E.
Qed.

Lemma keys_NoDup_run (cs : list (Call * Z)) (s : Session) :
  NoDup (keys (objectives s)) -> NoDup (keys (objectives (run s cs))).
Proof.
  revert s. induction cs as [| [c now] cs IH]; intros s Hs; [exact Hs |].
  apply IH, keys_NoDup_call, Hs.
Qed.

(** ** Best score per objective *)

Lemma entry_call_other_key (s : Session) (c : Call) (now : Z) (k : string) (o : Objective) :
  entry k (objectives s) = Some o ->
  (forall n sc, c = CompleteObjective n sc -> normalize n <> k) ->
  entry k (objectives (fst (call s c now))) = Some o.
Proof.
  intros Ho Hc.
  destruct c as [n sc | n | | | | | |];
    try (rewrite objectives_call_other by discriminate; exact Ho).
  - cbn [call]. rewrite entry_completeObjective.
    destruct (String.eqb_spec (normalize n) k) as [E | _]; [| exact Ho].
    exfalso. by eapply Hc.
  - cbn [call]. rewrite entry_addObjective. by rewrite Ho.
Qed.

(** An entry that exists collects the later completions of its key. *)
Lemma entry_run_Some (k : string) (cs : list (Call * Z)) (s : Session) (o : Objective) :
  entry k (objectives s) = Some o ->
  exists o', entry k (objectives (run s cs)) = Some o' /\
    o_score o' = foldl Num.max (o_score o) (completionsOf k cs) /\
    (o_completed o = true \/ completionsOf k cs <> [] -> o_completed o' = true).
Proof.
  revert s o. induction cs as [| [c now] cs IH]; intros s o Ho.
  - exists o. split; [exact Ho |]. split; [reflexivity |].
    intros [H | H]; [exact H | done].
  - assert (Hother :
      (forall n sc, c = CompleteObjective n sc -> normalize n <> k) ->
      completionsOf k ((c, now) :: cs) = completionsOf k cs ->
      exists o', entry k (objectives (run s ((c, now) :: cs))) = Some o' /\
        o_score o' = foldl Num.max (o_score o) (completionsOf k ((c, now) :: cs)) /\
        (o_completed o = true \/ completionsOf k ((c, now) :: cs) <> [] ->
         o_completed o' = true)).
    { intros Hc ->. apply (IH (fst (call s c now)) o).
      by apply entry_call_other_key. }
    destruct c as [n sc | n | | | | | |];
      try (apply Hother; [discriminate | reflexivity]).
    destruct (String.eqb_spec (normalize n) k) as [E | Hne].
    + destruct (IH (fst (call s (CompleteObjective n sc) now))
                  (complete (default (ofZ 100) sc) o)) as (o' & Ho' & Hsc & Hdone).
      { cbn [call]. rewrite entry_completeObjective.
        apply String.eqb_eq in E. by rewrite E, Ho. }
      exists o'. split; [exact Ho' |]. simpl.
      apply String.eqb_eq in E. rewrite E. simpl. split; [exact Hsc |].
      intros _. apply Hdone. by left.
    + apply Hother.
      * intros n' sc' [= -> ->]. exact Hne.
      * simpl. apply String.eqb_neq in Hne. by rewrite Hne.
Qed.

(** A key that is never registered gets its entry from its first
    completion. *)
Lemma entry_run_None (k : string) (cs : list (Call * Z)) (s : Session) :
  registers k cs = false ->
  entry k (objectives s) = None ->
  match completionsOf k cs with
  | [] => entry k (objectives (run s cs)) = None
  | sc :: r =>
      exists o, entry k (objectives (run s cs)) = Some o /\
        o_completed o = true /\ o_score o = foldl Num.max sc r
  end.
Proof.
  revert s. induction cs as [| [c now] cs IH]; intros s Hreg Hs; [exact Hs |].
  destruct c as [n sc | n | | | | | |];
    try (cbn [registers completionsOf] in *; apply IH; [exact Hreg |];
         cbn [fst snd]; rewrite objectives_call_other by discriminate; exact Hs).
  - simpl in Hreg. simpl completionsOf.
    destruct (String.eqb_spec (normalize n) k) as [E | Hne].
    + destruct (entry_run_Some k cs (fst (call s (CompleteObjective n sc) now))
                  {| o_name := n; o_completed := true;
                     o_score := default (ofZ 100) sc; o_timestamp := now |})
        as (o' & Ho' & Hsc & Hdone).
      { cbn [call]. rewrite entry_completeObjective.
        apply String.eqb_eq in E. by rewrite E, Hs. }
      exists o'. split; [exact Ho' |]. split; [| exact Hsc].
      apply Hdone. by left.
    + apply IH; [exact Hreg |]. cbn [call fst snd]. rewrite entry_completeObjective.
      apply String.eqb_neq in Hne. by rewrite Hne.
  - simpl in Hreg. apply orb_false_iff in Hreg as [Hn Hreg].
    simpl completionsOf. apply IH; [exact Hreg |].
    cbn [call fst snd]. rewrite entry_addObjective. by rewrite Hs, Hn.
Qed.

(** C6.  Objectives are stored under their canonical key.  After any
    sequence of calls from the initial state no two entries share a key, and
    a key that was completed (and not registered with [addObjective] first)
    has its entry marked completed with the greatest of the scores of its
    completions. *)
Theorem completeObjective_one_entry_best_score (title : string) (now0 : Z)
    (cs : list (Call * Z)) (k : string) (Hreg : registers k cs = false) :
  let os := objectives (run (initialState title now0) cs) in
  NoDup (keys os) /\
  match completionsOf k cs with
  | [] => entry k os = None
  | sc :: r =>
      exists o, entry k os = Some o /\
        o_completed o = true /\ o_score o = foldl Num.max sc r
  end.
Proof.
  intros os. split.
  - apply keys_NoDup_run. apply NoDup_nil_2.
  - by apply entry_run_None.
Qed.

(** ["Ohm's Law"] with 90, then ["ohms law"] with 95: one entry, score 95. *)
Lemma completeObjective_one_entry_best_score_witness :
  objectives (run fresh0 ohmCalls)
  = [{| o_name := "Ohm's Law"; o_completed := true;
        o_score := ofZ 95; o_timestamp := 1 |}] /\
  NoDup (keys (objectives (run fresh0 ohmCalls))) /\
  exists o, entry "ohmslaw" (objectives (run fresh0 ohmCalls)) = Some o /\
    o_completed o = true /\ o_score o = ofZ 95.
Proof.
  split; [reflexivity |].
  exact (completeObjective_one_entry_best_score "Lesson" 0 ohmCalls "ohmslaw" eq_refl).
Defined.

(** ** Which names meet *)




(** ** Which calls report *)

Lemma pulses_sendProgressUpdate (s : Session) (now : Z) :
  pulses (sendProgressUpdate s now) = true.
Proof. reflexivity. Qed.

(** C4, as stated, fails: [addObjective] and [setLessonId] write to the
    session and send nothing. *)
Lemma silent_writes :
  mutating (AddObjective "Intro") = true /\
  objectives (fst (call fresh0 (AddObjective "Intro") 1)) <> objectives fresh0 /\
  pulses (snd (call fresh0 (AddObjective "Intro") 1)) = false /\
  mutating (SetLessonId "7") = true /\
  lessonId (fst (call fresh0 (SetLessonId "7") 1)) <> lessonId fresh0 /\
  pulses (snd (call fresh0 (SetLessonId "7") 1)) = false /\
  ~ (forall s c now, mutating c = true -> pulses (snd (call s c now)) = true).
Proof.
  repeat (split; [first [reflexivity | discriminate] |]).
  intros H. specialize (H fresh0 (SetLessonId "7") 1 eq_refl). discriminate.
Qed.

(** C4, amended.  [completeObjective], [recordQuizScore],
    [updateTopicProgress] and [resetQuestions] send one progress update,
    computed on the session as the call leaves it; [recordQuestionAnswer]
    does so when it records the answer and sends nothing when it does not;
    [addObjective] and [setLessonId] send nothing. *)
Theorem reports_per_operation (s : Session) (now : Z) :
  (forall n sc,
      snd (completeObjective s n sc now)
      = sendProgressUpdate (fst (completeObjective s n sc now)) now /\
      pulses (snd (completeObjective s n sc now)) = true) /\
  (forall n sc mx tq,
      snd (recordQuizScore s n sc mx tq now)
      = sendProgressUpdate (fst (recordQuizScore s n sc mx tq now)) now /\
      pulses (snd (recordQuizScore s n sc mx tq now)) = true) /\
  (forall n p,
      snd (updateTopicProgress s n p now)
      = sendProgressUpdate (fst (updateTopicProgress s n p now)) now /\
      pulses (snd (updateTopicProgress s n p now)) = true) /\
  (snd (resetQuestions s now)
   = sendProgressUpdate (fst (resetQuestions s now)) now /\
   pulses (snd (resetQuestions s now)) = true) /\
  (forall id ok txt,
      (get (questions (questionsAnswered s)) id = Undefined /\
       total (questionsAnswered (fst (recordQuestionAnswer s id ok txt now)))
       = total (questionsAnswered s) + 1 /\
       snd (recordQuestionAnswer s id ok txt now)
       = sendProgressUpdate (fst (recordQuestionAnswer s id ok txt now)) now /\
       pulses (snd (recordQuestionAnswer s id ok txt now)) = true) \/
      (get (questions (questionsAnswered s)) id <> Undefined /\
       recordQuestionAnswer s id ok txt now = (s, []))) /\
  (forall n, snd (addObjective s n now) = []) /\
  (forall id, snd (setLessonId s id) = []).
Proof.
  repeat split.
  - intros id ok txt. unfold recordQuestionAnswer.
    destruct (get (questions (questionsAnswered s)) id) eqn:G.
    + right. by split.
    + right. by split.
    + left. repeat split.
  - intros n. unfold addObjective. by destruct (find _ _).
Qed.

(** ** The time component *)

Lemma timeProgress_unfold (w : Z) (s : Session) :
  timeProgress w s
  = Num.min (ofZ 100)
      (Num.mul (Num.div (ofZ (activeTime s)) (ofZ 30)) (ofZ w)).
Proof. reflexivity. Qed.

(** C2 on the code.  After a minute of active time the time component is 80
    in the standard branch and 50 in the quiz-aware one, where the stated
    formula gives 40 and 25: the script caps it at 100, not at the weight.
    The minute alone scores 96 out of 100. *)
Theorem timeProgress_above_weight :
  activeTime oneMinute = 60 /\
  timeProgress 40 oneMinute =n= ofZ 80 /\
  timeComponentSpec 40 oneMinute =n= ofZ 40 /\
  timeProgress 25 oneMinute =n= ofZ 50 /\
  timeComponentSpec 25 oneMinute =n= ofZ 25 /\
  ~ timeProgress 40 oneMinute =n= timeComponentSpec 40 oneMinute /\
  calculateProgress oneMinute = ofZ 96.
Proof.
  repeat split; try reflexivity. vm_compute. discriminate.
Qed.

(** ** Where the script and the stated formula agree *)

Lemma gt_fin_false (x y : Q) : Num.gt (Fin x) (Fin y) = false <-> (x <= y)%Q.
Proof.
  rewrite <- not_true_iff_false, gt_fin.
  split; [apply Qnot_lt_le | apply Qle_not_lt].
Qed.

Lemma min_cap_agree (c w x : Q) :
  (x <= w)%Q -> (w <= c)%Q ->
  Num.min (Fin c) (Fin x) =n= Num.min (Fin w) (Fin x).
Proof.
  intros Hx Hw. unfold Num.min.
  destruct (Num.gt (Fin c) (Fin x)) eqn:E1; destruct (Num.gt (Fin w) (Fin x)) eqn:E2;
    simpl; try reflexivity.
  - apply gt_fin_false in E2. lra.
  - apply gt_fin_false in E1. apply gt_fin in E2. lra.
  - apply gt_fin_false in E1, E2. lra.
Qed.

(** Up to half a minute of active time the script and the stated formula
    give the same time component. *)
Lemma timeProgress_first_half_minute (s : Session) :
  activeTime s <= 30 ->
  timeProgress 40 s =n= timeComponentSpec 40 s /\
  timeProgress 25 s =n= timeComponentSpec 25 s.
Proof.
  intros Ha. rewrite Zle_Qle in Ha.
  unfold timeProgress, timeComponentSpec, CONFIG.minActiveTime, ofZ.
  unfold Num.div. rewrite sgn_inject_Z. cbn [Z.compare Num.mul].
  revert Ha. generalize (inject_Z (activeTime s)). intros a Ha.
  change (inject_Z 30) with 30%Q in *.
  split; apply min_cap_agree; try done.
  - unfold Qdiv. change (/ 30)%Q with (1 # 30)%Q. change (inject_Z 40) with 40%Q. lra.
  - unfold Qdiv. change (/ 30)%Q with (1 # 30)%Q. change (inject_Z 25) with 25%Q. lra.
Qed.

(** Past half a minute the script's time component is above the weight. *)
Lemma timeProgress_past_half_minute (s : Session) :
  30 < activeTime s ->
  Num.gt (timeProgress 40 s) (ofZ 40) = true /\
  Num.gt (timeProgress 25 s) (ofZ 25) = true.
Proof.
  intros Ha. rewrite Zlt_Qlt in Ha.
  unfold timeProgress, CONFIG.minActiveTime, ofZ.
  unfold Num.div. rewrite sgn_inject_Z. cbn [Z.compare Num.mul].
  revert Ha. generalize (inject_Z (activeTime s)). intros a Ha.
  change (inject_Z 30) with 30%Q in *. unfold Num.min.
  split.
  - destruct (Num.gt (Fin (inject_Z 100)) _) eqn:E; [| reflexivity].
    apply gt_fin. unfold Qdiv. change (/ 30)%Q with (1 # 30)%Q.
    change (inject_Z 40) with 40%Q. lra.
  - destruct (Num.gt (Fin (inject_Z 100)) _) eqn:E; [| reflexivity].
    apply gt_fin. unfold Qdiv. change (/ 30)%Q with (1 # 30)%Q.
    change (inject_Z 25) with 25%Q. lra.
Qed.

(** ** The range of the score *)

Lemma nonneg_ofZ (z : Z) : 0 <= z -> nonneg (ofZ z).
Proof.
  intros H. exists (inject_Z z). split; [reflexivity |].
  change 0%Q with (inject_Z 0). by rewrite <- Zle_Qle.
Qed.

Lemma nonneg_add (a b : num) : nonneg a -> nonneg b -> nonneg (Num.add a b).
Proof.
  intros (x & -> & Hx) (y & -> & Hy). exists (x + y)%Q. split; [reflexivity |]. lra.
Qed.

Lemma nonneg_mul (a b : num) : nonneg a -> nonneg b -> nonneg (Num.mul a b).
Proof.
  intros (x & -> & Hx) (y & -> & Hy). exists (x * y)%Q. split; [reflexivity |].
  by apply Qmult_le_0_compat.
Qed.

Lemma nonneg_div_pos (a : num) (z : Z) : nonneg a -> 0 < z -> nonneg (Num.div a (ofZ z)).
Proof.
  intros (x & -> & Hx) Hz. exists (x / inject_Z z)%Q. split.
  - unfold Num.div, ofZ. rewrite sgn_inject_Z.
    destruct (Z.compare_spec z 0); try lia. reflexivity.
  - apply Qle_shift_div_l.
    + change 0%Q with (inject_Z 0). by rewrite <- Zlt_Qlt.
    + lra.
Qed.

Lemma nonneg_min (a b : num) : nonneg a -> nonneg b -> nonneg (Num.min a b).
Proof.
  intros (x & -> & Hx) (y & -> & Hy). unfold Num.min.
  destruct (Num.gt (Fin x) (Fin y)); [by exists y | by exists x].
Qed.

Lemma nonneg_sumPercentages (qs : list Quiz) :
  Forall (fun q => nonneg (q_percentage q)) qs -> nonneg (sumPercentages qs).
Proof.
  unfold sumPercentages. generalize (nonneg_ofZ 0 (Z.le_refl 0)).
  generalize (ofZ 0). induction qs as [| q qs IH]; intros acc Hacc Hqs; [exact Hacc |].
  simpl. apply Forall_cons in Hqs as [Hq Hqs].
  apply IH; [by apply nonneg_add | exact Hqs].
Qed.

Lemma nonneg_timeProgress (w : Z) (s : Session) :
  0 <= w -> 0 <= activeTime s -> nonneg (timeProgress w s).
Proof.
  intros Hw Ha. unfold timeProgress.
  apply nonneg_min; [by apply nonneg_ofZ |].
  apply nonneg_mul; [| by apply nonneg_ofZ].
  apply nonneg_div_pos; [by apply nonneg_ofZ | reflexivity].
Qed.

Lemma nonneg_scrollProgress (w : Z) (s : Session) :
  0 <= w -> nonneg (maxScrollDepth s) -> nonneg (scrollProgress w s).
Proof.
  intros Hw Hs. unfold scrollProgress.
  apply nonneg_mul; [| by apply nonneg_ofZ].
  by apply nonneg_div_pos.
Qed.

Lemma nonneg_objectiveProgress (s : Session) : nonneg (objectiveProgress s).
Proof.
  unfold objectiveProgress, hasObjectives. case_bool_decide as H.
  - apply nonneg_mul; [| by apply nonneg_ofZ].
    apply nonneg_div_pos; [apply nonneg_ofZ |]; lia.
  - by apply nonneg_ofZ.
Qed.

Lemma nonneg_quizProgress (s : Session) : scorable s -> nonneg (quizProgress s).
Proof.
  intros Hs. unfold quizProgress, hasQuizzes, hasQuestions.
  case_bool_decide as Hq; [| case_bool_decide as Ht].
  - apply nonneg_mul; [| by apply nonneg_ofZ].
    apply nonneg_div_pos; [| reflexivity].
    apply nonneg_div_pos.
    + apply nonneg_sumPercentages. unfold quizValues.
      apply Forall_forall. intros q Hin.
      apply list_elem_of_fmap in Hin as ([k q'] & -> & Hin).
      apply elem_of_map_to_list in Hin. by eapply sc_quiz.
    + unfold quizValues. rewrite length_fmap, length_map_to_list. lia.
  - apply nonneg_mul; [| by apply nonneg_ofZ].
    apply nonneg_div_pos; [| reflexivity].
    apply nonneg_mul; [| by apply nonneg_ofZ].
    apply nonneg_div_pos; [| exact Ht].
    apply nonneg_ofZ, Hs.
  - by apply nonneg_ofZ.
Qed.

Lemma nonneg_rawProgress (s : Session) : scorable s -> nonneg (rawProgress s).
Proof.
  intros Hs. unfold rawProgress.
  destruct (hasQuizzes s || hasQuestions s).
  - repeat apply nonneg_add.
    + by apply nonneg_ofZ.
    + apply nonneg_timeProgress; [done | apply Hs].
    + apply nonneg_scrollProgress; [done | apply Hs].
    + unfold interactionProgressQuiz. apply nonneg_min; [by apply nonneg_ofZ |].
      apply nonneg_mul; [apply nonneg_ofZ, Hs |]. by exists (1 # 2)%Q.
    + by apply nonneg_quizProgress.
    + apply nonneg_objectiveProgress.
  - repeat apply nonneg_add.
    + by apply nonneg_ofZ.
    + apply nonneg_timeProgress; [done | apply Hs].
    + apply nonneg_scrollProgress; [done | apply Hs].
    + unfold interactionProgressStandard.
      apply nonneg_min; apply nonneg_ofZ; [done | apply Hs].
    + apply nonneg_objectiveProgress.
Qed.

(** On sessions whose scorer inputs are finite and not negative the score is
    an integer from 0 to 100. *)
Lemma calculateProgress_scorable (s : Session) :
  scorable s -> Num.int_between 0 100 (calculateProgress s).
Proof.
  intros Hs. destruct (nonneg_rawProgress s Hs) as (r & Hr & Hpos).
  unfold calculateProgress. rewrite Hr.
  change (Num.round (Fin r)) with (ofZ (Qfloor (r + (1 # 2)))).
  assert (Hz : 0 <= Qfloor (r + (1 # 2))).
  { change 0 with (Qfloor 0). apply Qfloor_resp_le. lra. }
  revert Hz. generalize (Qfloor (r + (1 # 2))). intros z Hz.
  unfold Num.min, ofZ.
  destruct (Num.gt (Fin (inject_Z 100)) (Fin (inject_Z z))) eqn:E.
  - exists z. split; [reflexivity |]. apply gt_fin in E.
    rewrite <- Zlt_Qlt in E. lia.
  - exists 100. split; [reflexivity | lia].
Qed.

(** A fresh session scores 15, the objectives weight. *)
Lemma calculateProgress_fresh (title : string) (now : Z) :
  calculateProgress (initialState title now) = ofZ 15.
Proof. reflexivity. Qed.

Lemma scorable_fresh (title : string) (now : Z) : scorable (initialState title now).
Proof.
  split; simpl; try lia.
  - by apply nonneg_ofZ.
  - intros k q H. rewrite lookup_empty in H. discriminate.
Qed.

(** C1 on the code.  A fresh session scores 15.  One quiz submission with a
    negative score, or with a maximum of zero, takes the score out of
    [0, 100]: [-3] in the first case, [NaN] in the second. *)
Theorem calculateProgress_out_of_range :
  calculateProgress fresh0 = ofZ 15 /\
  calculateProgress penaltyQuiz = ofZ (-3) /\
  ~ Num.int_between 0 100 (calculateProgress penaltyQuiz) /\
  calculateProgress emptyQuiz = NaN /\
  ~ Num.int_between 0 100 (calculateProgress emptyQuiz).
Proof.
  split; [reflexivity |].
  assert (E1 : calculateProgress penaltyQuiz = ofZ (-3)) by (vm_compute; reflexivity).
  assert (E2 : calculateProgress emptyQuiz = NaN) by (vm_compute; reflexivity).
  split; [exact E1 |]. split; [| split; [exact E2 |]].
  - rewrite E1. intros (z & Hz & Hr). injection Hz as Hz. lia.
  - rewrite E2. intros (z & Hz & _). discriminate.
Qed.

(** ** Where the score stays in range *)

Lemma sgn_pos (m : Q) : (0 < m)%Q -> Num.sgn m = Gt.
Proof.
  intros H. unfold Num.sgn. apply Z.compare_gt_iff.
  unfold Qlt in H. simpl in H. lia.
Qed.

Lemma nonneg_div_Qpos (a : num) (m : Q) :
  nonneg a -> (0 < m)%Q -> nonneg (Num.div a (Fin m)).
Proof.
  intros (x & -> & Hx) Hm. exists (x / m)%Q. split.
  - unfold Num.div. by rewrite (sgn_pos m Hm).
  - apply Qle_shift_div_l; [exact Hm | lra].
Qed.

Lemma nonneg_round (a : num) : nonneg a -> nonneg (Num.round a).
Proof.
  intros (x & -> & Hx). eexists. split; [reflexivity |].
  change 0%Q with (inject_Z 0). rewrite <- Zle_Qle.
  change 0 with (Qfloor 0). apply Qfloor_resp_le. lra.
Qed.

Lemma nonneg_rounded (a : num) : nonneg a -> nonneg (Num.rounded a).
Proof.
  intros (x & -> & Hx). eexists. split; [reflexivity |].
  by apply nearestDouble_nonneg.
Qed.

Lemma nonneg_quizPercentage (score maxScore : num) (m : Q) :
  nonneg score -> maxScore = Fin m -> (0 < m)%Q ->
  nonneg (quizPercentage score maxScore).
Proof.
  intros Hs -> Hm. unfold quizPercentage, Num.fmul, Num.fdiv.
  apply nonneg_round, nonneg_rounded, nonneg_mul; [| by apply nonneg_ofZ].
  by apply nonneg_rounded, nonneg_div_Qpos.
Qed.

(** Calls within the contract keep the scorer inputs finite and not
    negative. *)
Lemma scorable_call (s : Session) (c : Call) (now : Z) :
  scorable s -> inContract c -> scorable (fst (call s c now)).
Proof.
  intros Hs Hc. destruct c as [n sc | n | n sc mx tq | id ok txt | n p | | id |];
    cbn [call].
  - unfold completeObjective. cbn [fst]. destruct (find _ _); by destruct Hs.
  - unfold addObjective. destruct (find _ _); by destruct Hs.
  - destruct Hc as (Hsc & m & Hm & Hpos).
    pose proof (nonneg_quizPercentage sc _ m Hsc Hm Hpos) as Hp.
    assert (Hins : forall e, q_percentage e = quizPercentage sc (default (ofZ 100) mx) ->
              scorable (set_quizScores (<[n := e]> (quizScores s)) s)).
    { intros e He. destruct Hs as [H1 H2 H3 H4 H5]. split; try assumption.
      cbn [quizScores set_quizScores]. intros k q Hk.
      apply lookup_insert_Some in Hk as [[_ <-] | [_ Hk]].
      - by rewrite He.
      - by eapply H5. }
    unfold recordQuizScore. cbn [fst].
    destruct (get (quizScores s) n) as [e0 | |].
    + destruct (Num.gt _ _); [by apply Hins | exact Hs].
    + exact Hs.
    + by apply Hins.
  - unfold recordQuestionAnswer.
    destruct (get _ id); cbn [fst]; try exact Hs.
    destruct Hs as [H1 H2 H3 H4 H5]. split; try assumption.
    cbn [questionsAnswered set_questionsAnswered correct]. destruct ok; lia.
  - by destruct Hs.
  - exact Hs.
  - by destruct Hs.
  - destruct Hs as [H1 H2 H3 H4 H5]. by split.
Qed.

Lemma scorable_run (cs : list (Call * Z)) (s : Session) :
  scorable s -> Forall (fun c => inContract (fst c)) cs -> scorable (run s cs).
Proof.
  revert s. induction cs as [| [c now] cs IH]; intros s Hs Hcs; [exact Hs |].
  apply Forall_cons in Hcs as [Hc Hcs].
  apply IH; [by apply scorable_call | exact Hcs].
Qed.

(** The collectors keep them so as well. *)
Lemma scorable_onInteraction (s : Session) (now : Z) :
  scorable s -> scorable (onInteraction s now).
Proof. intros [H1 H2 H3 H4 H5]. split; try assumption. simpl. lia. Qed.

Lemma scorable_timeTick (s : Session) (now : Z) :
  scorable s -> scorable (timeTick s now).
Proof.
  intros [H1 H2 H3 H4 H5]. split; try assumption. simpl.
  destruct (_ && _); lia.
Qed.

Lemma scorable_updateScrollDepth (s : Session) (top doc win : num) :
  scorable s -> scorable (updateScrollDepth s top doc win).
Proof.
  intros [H1 H2 H3 H4 H5]. split; try assumption.
  cbn [maxScrollDepth updateScrollDepth].
  destruct (Num.gt _ (maxScrollDepth s)) eqn:E; [| exact H3].
  destruct H3 as (m & Hm & Hpos). rewrite Hm in E.
  destruct (Num.min (ofZ 100) _) as [x | | |] eqn:Ex; try discriminate.
  - apply gt_fin in E. exists x. split; [reflexivity | lra].
  - exfalso. unfold Num.min in Ex.
    destruct (Num.round _) as [y | | |]; try discriminate.
    destruct (Num.gt _ _); discriminate.
Qed.

(** The score of a session reached from the initial state by calls within
    the contract is an integer from 0 to 100. *)
Lemma calculateProgress_in_contract (title : string) (now0 : Z) (cs : list (Call * Z)) :
  Forall (fun c => inContract (fst c)) cs ->
  Num.int_between 0 100 (calculateProgress (run (initialState title now0) cs)).
Proof.
  intros Hcs. apply calculateProgress_scorable, scorable_run; [| exact Hcs].
  apply scorable_fresh.
Qed.

(** ** What [getState] hands out *)

Section Heap.

Import Page.

Implicit Types (h : gmap loc object) (l r : loc) (o : StateObject) (s : Session).

Lemma session_at_inv h l s :
  session_at h l = Some s ->
  exists o a q t g,
    h !! l = Some (StateObj o) /\
    h !! f_objectives o = Some (ArrayObj a) /\
    h !! f_quizScores o = Some (QuizObj q) /\
    h !! f_topicProgress o = Some (TopicObj t) /\
    h !! f_questionsAnswered o = Some (LedgerObj g) /\
    s = assemble o a q t g.
Proof.
  unfold session_at.
  destruct (h !! l) as [[o | | | |] |] eqn:El; try discriminate.
  destruct (h !! f_objectives o) as [[| a | | |] |] eqn:Ea; try discriminate.
  destruct (h !! f_quizScores o) as [[| | q | |] |] eqn:Eq; try discriminate.
  destruct (h !! f_topicProgress o) as [[| | | t |] |] eqn:Et; try discriminate.
  destruct (h !! f_questionsAnswered o) as [[| | | | g] |] eqn:Eg; try discriminate.
  intros [= <-]. by exists o, a, q, t, g.
Qed.

Lemma session_at_intro h l o a q t g :
  h !! l = Some (StateObj o) ->
  h !! f_objectives o = Some (ArrayObj a) ->
  h !! f_quizScores o = Some (QuizObj q) ->
  h !! f_topicProgress o = Some (TopicObj t) ->
  h !! f_questionsAnswered o = Some (LedgerObj g) ->
  session_at h l = Some (assemble o a q t g).
Proof. intros H1 H2 H3 H4 H5. unfold session_at. by rewrite H1, H2, H3, H4, H5. Qed.

Lemma session_at_subseteq h h' l s :
  h ⊆ h' -> session_at h l = Some s -> session_at h' l = Some s.
Proof.
  intros Hsub Hs.
  destruct (session_at_inv _ _ _ Hs) as (o & a & q & t & g & H1 & H2 & H3 & H4 & H5 & ->).
  apply session_at_intro; by eapply lookup_weaken.
Qed.

(** A write through a container reference reaches the objects of that kind
    at that location and no other. *)
Lemma lookup_alter_onArray h k l f :
  alter (onArray f) k h !! l
  = match h !! l with
    | Some (ArrayObj a) => Some (ArrayObj (if decide (k = l) then f a else a))
    | x => x
    end.
Proof.
  rewrite lookup_alter. case_decide as E; [subst k |].
  - by destruct (h !! l) as [[| | | |] |].
  - by destruct (h !! l) as [[| | | |] |].
Qed.

Lemma lookup_alter_onQuiz h k l f :
  alter (onQuiz f) k h !! l
  = match h !! l with
    | Some (QuizObj a) => Some (QuizObj (if decide (k = l) then f a else a))
    | x => x
    end.
Proof.
  rewrite lookup_alter. case_decide as E; [subst k |].
  - by destruct (h !! l) as [[| | | |] |].
  - by destruct (h !! l) as [[| | | |] |].
Qed.

Lemma lookup_alter_onTopic h k l f :
  alter (onTopic f) k h !! l
  = match h !! l with
    | Some (TopicObj a) => Some (TopicObj (if decide (k = l) then f a else a))
    | x => x
    end.
Proof.
  rewrite lookup_alter. case_decide as E; [subst k |].
  - by destruct (h !! l) as [[| | | |] |].
  - by destruct (h !! l) as [[| | | |] |].
Qed.

Lemma lookup_alter_onLedger h k l f :
  alter (onLedger f) k h !! l
  = match h !! l with
    | Some (LedgerObj a) => Some (LedgerObj (if decide (k = l) then f a else a))
    | x => x
    end.
Proof.
  rewrite lookup_alter. case_decide as E; [subst k |].
  - by destruct (h !! l) as [[| | | |] |].
  - by destruct (h !! l) as [[| | | |] |].
Qed.

(** The page after [getState]: one more object, equal to [trackerState]
    property by property. *)
Lemma getState_spec (p : page) s :
  live p = Some s ->
  exists o,
    heap p !! trackerState p = Some (StateObj o) /\
    heap p !! fresh (dom (heap p)) = None /\
    getState p
    = Some (fresh (dom (heap p)),
            {| heap := <[fresh (dom (heap p)) := StateObj o]> (heap p);
               trackerState := trackerState p |}).
Proof.
  intros Hs. destruct (session_at_inv _ _ _ Hs) as (o & _ & _ & _ & _ & Ho & _).
  exists o. split; [exact Ho |]. split.
  - apply not_elem_of_dom, is_fresh.
  - unfold getState. by rewrite Ho.
Qed.

(** C8, as stated, fails: a push on the [objectives] of the returned object
    lands in the tracker's own array, and the tracker's score drops from 15
    to 0. *)
Lemma getState_shares_containers :
  (calculateProgress <$> live page0) = Some (ofZ 15) /\
  (calculateProgress <$> (pushThroughSnapshot ≫= live)) = Some (ofZ 0) /\
  (length ∘ objectives <$> (pushThroughSnapshot ≫= live)) = Some 1%nat /\
  ~ (forall p r p' w, getState p = Some (r, p') -> live (write r w p') = live p').
Proof.
  split; [vm_compute; reflexivity |].
  split; [vm_compute; reflexivity |].
  split; [vm_compute; reflexivity |].
  intros H.
  pose proof (H page0 _ _
                (ThroughObjectives
                   (fun a => a ++ [{| o_name := "Extra"; o_completed := false;
                                      o_score := ofZ 0; o_timestamp := 1 |}]))
                eq_refl) as Hw.
  apply (f_equal (fmap (length ∘ objectives))) in Hw.
  vm_compute in Hw. discriminate Hw.
Qed.

(** C8, amended.  [getState] returns a new object, not [trackerState]: it
    holds the same property values, so it reads as the current session, and
    assigning to its properties leaves the tracker's session as it was.  The
    values of [objectives], [quizScores], [topicProgress] and
    [questionsAnswered] are the tracker's own references: what the caller
    does to a container through them is done to the tracker's session. *)
Theorem getState_shallow_copy (p : page) (s : Session) (Hlive : live p = Some s) :
  exists r p' o,
    getState p = Some (r, p') /\
    r <> trackerState p /\
    heap p !! r = None /\
    trackerState p' = trackerState p /\
    heap p' !! r = Some (StateObj o) /\
    heap p' !! trackerState p = Some (StateObj o) /\
    session_at (heap p') r = Some s /\
    live p' = Some s /\
    (forall f, live (write r (SetProperty f) p') = Some s) /\
    (forall f, live (write r (ThroughObjectives f) p')
               = Some (set_objectives (f (objectives s)) s)) /\
    (forall f, live (write r (ThroughQuizScores f) p')
               = Some (set_quizScores (f (quizScores s)) s)) /\
    (forall f, live (write r (ThroughTopicProgress f) p')
               = Some (set_topicProgress (f (topicProgress s)) s)) /\
    (forall f, live (write r (ThroughQuestionsAnswered f) p')
               = Some (set_questionsAnswered (f (questionsAnswered s)) s)).
Proof.
  destruct (getState_spec p s Hlive) as (o & Ho & Hr & Hget).
  set (r := fresh (dom (heap p))) in *.
  set (h' := <[r := StateObj o]> (heap p)) in *.
  assert (Hsub : heap p ⊆ h') by (by apply insert_subseteq).
  assert (Hr' : h' !! r = Some (StateObj o)) by apply lookup_insert_eq.
  assert (Hs' : session_at h' (trackerState p) = Some s)
    by (by apply (session_at_subseteq (heap p))).
  destruct (session_at_inv _ _ _ Hs')
    as (o' & a & q & t & g & H1 & H2 & H3 & H4 & H5 & ->).
  assert (o' = o) as ->.
  { pose proof (lookup_weaken _ _ _ _ Ho Hsub) as E. congruence. }
  exists r, {| heap := h'; trackerState := trackerState p |}, o.
  split; [exact Hget |]. split; [congruence |]. split; [exact Hr |].
  split; [reflexivity |]. split; [exact Hr' |]. split; [exact H1 |].
  split; [by apply session_at_intro |]. split; [exact Hs' |].
  unfold live, write. cbn [heap trackerState]. rewrite Hr'.
  split; [| split; [| split; [| split]]]; intros f; cbn [heap trackerState].
  - apply (session_at_subseteq (heap p)); [| exact Hlive].
    subst h'. rewrite alter_insert_eq. by apply insert_subseteq.
  - apply (session_at_intro _ _ o (f a) q t g);
      rewrite lookup_alter_onArray; first [by rewrite H1 | by rewrite H3
        | by rewrite H4 | by rewrite H5 | by rewrite H2, decide_True].
  - apply (session_at_intro _ _ o a (f q) t g);
      rewrite lookup_alter_onQuiz; first [by rewrite H1 | by rewrite H2
        | by rewrite H4 | by rewrite H5 | by rewrite H3, decide_True].
  - apply (session_at_intro _ _ o a q (f t) g);
      rewrite lookup_alter_onTopic; first [by rewrite H1 | by rewrite H2
        | by rewrite H3 | by rewrite H5 | by rewrite H4, decide_True].
  - apply (session_at_intro _ _ o a q t (f g));
      rewrite lookup_alter_onLedger; first [by rewrite H1 | by rewrite H2
        | by rewrite H3 | by rewrite H4 | by rewrite H5, decide_True].
Qed.

(** On the initial page: the copy is a sixth object, and writing to its
    properties is not seen by the tracker. *)
Lemma getState_shallow_copy_witness :
  (fst <$> getState page0) = Some 6%positive /\
  (assignToSnapshot ≫= live) = Some fresh0.
Proof.
  destruct (getState_shallow_copy page0 fresh0 eq_refl)
    as (r & p' & o & Hget & _ & _ & _ & _ & _ & _ & _ & Hset & _).
  split; [vm_compute; reflexivity |].
  unfold assignToSnapshot. rewrite Hget. simpl. apply Hset.
Defined.

End Heap.

(** * Further properties of the tracker *)

(** ** The score has a ceiling *)

(** X1.  Whatever the session holds, the score is [NaN], [-Infinity] or an
    integer that is at most 100: it is never above 100 and never a
    fraction. *)
Theorem calculateProgress_ceiling (s : Session) :
  calculateProgress s = NaN \/ calculateProgress s = NInf \/
  exists z : Z, calculateProgress s = ofZ z /\ z <= 100.
Proof.
  unfold calculateProgress.
  destruct (rawProgress s) as [x | | |]; cbn [Num.round].
  - right. right. generalize (Qfloor (x + (1 # 2))). intros z.
    unfold Num.min. destruct (Num.gt (ofZ 100) (Fin (inject_Z z))) eqn:E.
    + exists z. split; [reflexivity |]. apply gt_fin in E. rewrite <- Zlt_Qlt in E. lia.
    + exists 100. split; [reflexivity | lia].
  - right. right. exists 100. split; [reflexivity | lia].
  - right. by left.
  - by left.
Qed.

(** ** What never lowers the score *)

Lemma notAbove_add (a b c d : num) :
  Num.gt a b = false -> Num.gt c d = false ->
  Num.gt (Num.add a c) (Num.add b d) = false.
Proof.
  intros H1 H2. destruct a, b, c, d; cbn [Num.add Num.gt] in *;
    try reflexivity; try discriminate.
  apply gt_fin_false. apply (proj1 (gt_fin_false _ _)) in H1, H2. lra.
Qed.

Lemma notAbove_round (a b : num) :
  Num.gt a b = false -> Num.gt (Num.round a) (Num.round b) = false.
Proof.
  intros H. destruct a, b; cbn [Num.round Num.gt] in *;
    try reflexivity; try discriminate.
  apply gt_fin_false. apply (proj1 (gt_fin_false _ _)) in H.
  rewrite <- Zle_Qle. apply Qfloor_resp_le. lra.
Qed.

Lemma notAbove_min (c : Q) (a b : num) :
  Num.gt a b = false -> Num.gt (Num.min (Fin c) a) (Num.min (Fin c) b) = false.
Proof.
  intros H. destruct a as [x | | |], b as [y | | |]; try discriminate;
    unfold Num.min; cbn [Num.gt] in *;
    repeat match goal with
           | |- context [negb (Qle_bool ?p ?q)] =>
               let E := fresh "E" in destruct (negb (Qle_bool p q)) eqn:E
           end;
    try reflexivity;
    repeat match goal with
           | E : negb (Qle_bool _ _) = true |- _ => apply (proj1 (gt_fin _ _)) in E
           | E : negb (Qle_bool _ _) = false |- _ =>
               apply (proj1 (gt_fin_false _ _)) in E
           end;
    try (apply (proj2 (gt_fin_false _ _)); lra);
    try (exfalso; lra).
Qed.

Lemma notAbove_mul (a b : num) (w : Q) :
  (0 <= w)%Q -> Num.gt a b = false ->
  Num.gt (Num.mul a (Fin w)) (Num.mul b (Fin w)) = false.
Proof.
  intros Hw H. assert (Hs : Num.sgn w <> Lt).
  { unfold Num.sgn. rewrite Z.compare_lt_iff.
    unfold Qle in Hw. cbn [Qnum Qden] in Hw. lia. }
  destruct a as [x | | |], b as [y | | |]; try reflexivity; try discriminate;
    cbn [Num.mul]; try (destruct (Num.sgn w); done).
  apply gt_fin_false. apply (proj1 (gt_fin_false _ _)) in H.
  by apply Qmult_le_compat_r.
Qed.

Lemma notAbove_div (a b : num) (z : Z) :
  0 < z -> Num.gt a b = false ->
  Num.gt (Num.div a (ofZ z)) (Num.div b (ofZ z)) = false.
Proof.
  intros Hz H. assert (Hs : Num.sgn (inject_Z z) = Gt).
  { rewrite sgn_inject_Z. by apply Z.compare_gt_iff. }
  assert (Hq : (0 < inject_Z z)%Q).
  { change 0%Q with (inject_Z 0). by rewrite <- Zlt_Qlt. }
  destruct a as [x | | |], b as [y | | |]; try reflexivity; try discriminate;
    unfold Num.div, ofZ; rewrite Hs; try reflexivity.
  apply gt_fin_false. apply (proj1 (gt_fin_false _ _)) in H.
  unfold Qdiv. apply Qmult_le_compat_r; [exact H |].
  apply Qlt_le_weak, Qinv_lt_0_compat, Hq.
Qed.

Lemma inject_Z_nonneg (z : Z) : 0 <= z -> (0 <= inject_Z z)%Q.
Proof. intros H. change 0%Q with (inject_Z 0). by rewrite <- Zle_Qle. Qed.

Lemma notAbove_ofZ (a b : Z) : a <= b -> Num.gt (ofZ a) (ofZ b) = false.
Proof. intros H. apply gt_fin_false. by rewrite <- Zle_Qle. Qed.

Lemma notAbove_timeProgress (w : Z) (s s' : Session) :
  0 <= w -> activeTime s <= activeTime s' ->
  Num.gt (timeProgress w s) (timeProgress w s') = false.
Proof.
  intros Hw H. unfold timeProgress.
  apply notAbove_min, notAbove_mul; [by apply inject_Z_nonneg |].
  by apply notAbove_div, notAbove_ofZ.
Qed.

Lemma notAbove_scrollProgress (w : Z) (s s' : Session) :
  0 <= w -> Num.gt (maxScrollDepth s) (maxScrollDepth s') = false ->
  Num.gt (scrollProgress w s) (scrollProgress w s') = false.
Proof.
  intros Hw H. unfold scrollProgress.
  apply notAbove_mul; [by apply inject_Z_nonneg |]. by apply notAbove_div.
Qed.

Lemma notAbove_interactionProgress (s s' : Session) :
  interactions s <= interactions s' ->
  Num.gt (interactionProgressStandard s) (interactionProgressStandard s') = false /\
  Num.gt (interactionProgressQuiz s) (interactionProgressQuiz s') = false.
Proof.
  intros H. split.
  - apply notAbove_min. by apply notAbove_ofZ.
  - apply notAbove_min, notAbove_mul; [done |]. by apply notAbove_ofZ.
Qed.

(** Two sessions with the same quizzes and questions, the second with at
    least the time, scroll depth, interactions and objectives credit of the
    first: the second does not score lower. *)
Lemma notAbove_calculateProgress (s s' : Session) :
  quizScores s' = quizScores s ->
  questionsAnswered s' = questionsAnswered s ->
  activeTime s <= activeTime s' ->
  Num.gt (maxScrollDepth s) (maxScrollDepth s') = false ->
  interactions s <= interactions s' ->
  Num.gt (objectiveProgress s) (objectiveProgress s') = false ->
  Num.gt (calculateProgress s) (calculateProgress s') = false.
Proof.
  intros Hq Hl Ha Hsc Hi Ho.
  destruct (notAbove_interactionProgress s s' Hi) as [Hi1 Hi2].
  assert (Hquiz : quizProgress s' = quizProgress s).
  { unfold quizProgress, hasQuizzes, hasQuestions, quizValues. by rewrite Hq, Hl. }
  unfold calculateProgress. apply notAbove_min, notAbove_round.
  unfold rawProgress, hasQuizzes, hasQuestions. rewrite Hq, Hl.
  destruct (_ || _).
  - repeat apply notAbove_add; try done.
    + by apply notAbove_timeProgress.
    + by apply notAbove_scrollProgress.
    + rewrite Hquiz. apply gt_irrefl.
  - repeat apply notAbove_add; try done.
    + by apply notAbove_timeProgress.
    + by apply notAbove_scrollProgress.
Qed.

Lemma maxScrollDepth_updateScrollDepth (s : Session) (top doc win : num) :
  Num.gt (maxScrollDepth s) (maxScrollDepth (updateScrollDepth s top doc win)) = false.
Proof.
  cbn [maxScrollDepth updateScrollDepth].
  destruct (Num.gt _ (maxScrollDepth s)) eqn:E; [by apply gt_asym | apply gt_irrefl].
Qed.

(** X2.  A second of time, a click, a key press, a scroll, a change of
    visibility, focus or full-screen state never lowers the score, whatever
    the session and whatever the scroll geometry. *)
Theorem collectors_never_lower_score (s : Session) (now : Z) :
  Num.lt (calculateProgress (timeTick s now)) (calculateProgress s) = false /\
  Num.lt (calculateProgress (onInteraction s now)) (calculateProgress s) = false /\
  (forall top doc win,
      Num.lt (calculateProgress (onScroll s top doc win now)) (calculateProgress s)
      = false) /\
  (forall hidden,
      calculateProgress (onVisibilityChange s hidden now) = calculateProgress s) /\
  calculateProgress (onBlur s) = calculateProgress s /\
  calculateProgress (onFocus s now) = calculateProgress s /\
  (forall element,
      calculateProgress (fst (onFullscreenChange s element)) = calculateProgress s).
Proof.
  unfold Num.lt. repeat split; try reflexivity.
  - apply notAbove_calculateProgress;
      [reflexivity | reflexivity | | apply gt_irrefl | reflexivity | apply gt_irrefl].
    cbn [activeTime timeTick]. destruct (_ && _); lia.
  - apply notAbove_calculateProgress;
      [reflexivity | reflexivity | reflexivity | apply gt_irrefl | | apply gt_irrefl].
    cbn [interactions onInteraction]. lia.
  - intros top doc win. apply notAbove_calculateProgress;
      [reflexivity | reflexivity | reflexivity | | | apply gt_irrefl].
    + apply maxScrollDepth_updateScrollDepth.
    + cbn [interactions onScroll onInteraction updateScrollDepth]. lia.
Qed.

(** ** Objectives and the score *)

Lemma completedCount_le (os : list Objective) : (completedCount os <= length os)%nat.
Proof. apply length_filter. Qed.

Lemma completedCount_app (os os' : list Objective) :
  completedCount (os ++ os') = (completedCount os + completedCount os')%nat.
Proof. unfold completedCount. by rewrite filter_app, length_app. Qed.

Lemma completedCount_cons (o : Objective) (os : list Objective) :
  completedCount (o :: os)
  = ((if o_completed o then 1 else 0) + completedCount os)%nat.
Proof.
  unfold completedCount. rewrite filter_cons.
  destruct (o_completed o); [by rewrite decide_True | by rewrite decide_False].
Qed.

Lemma completedCount_update_first (k : string) (sc : num) (os : list Objective) :
  (completedCount os <= completedCount (update_first (sameObjective k) (complete sc) os))%nat.
Proof.
  induction os as [| o os IH]; [done |]. cbn [update_first].
  destruct (sameObjective k o); rewrite !completedCount_cons.
  - cbn [o_completed complete]. destruct (o_completed o); lia.
  - lia.
Qed.

Lemma frac_le (a b c d : Z) :
  0 < b -> 0 < d -> a * d <= c * b ->
  (inject_Z a / inject_Z b <= inject_Z c / inject_Z d)%Q.
Proof.
  intros Hb Hd H. destruct b as [| b |]; try lia. destruct d as [| d |]; try lia.
  rewrite <- !Qmake_Qdiv. unfold Qle. simpl. lia.
Qed.

Lemma notAbove_ratio (a b c d : Z) :
  0 < b -> 0 < d -> a * d <= c * b ->
  Num.gt (Num.div (ofZ a) (ofZ b)) (Num.div (ofZ c) (ofZ d)) = false.
Proof.
  intros Hb Hd H. unfold Num.div, ofZ. rewrite !sgn_inject_Z.
  destruct (Z.compare_spec b 0); try lia. destruct (Z.compare_spec d 0); try lia.
  apply gt_fin_false. by apply frac_le.
Qed.

Lemma objectiveProgress_unfold (s : Session) :
  objectiveProgress s
  = if bool_decide (0 < length (objectives s))%nat then
      Num.mul (Num.div (ofZ (Z.of_nat (completedCount (objectives s))))
                 (ofZ (Z.of_nat (length (objectives s))))) (ofZ 15)
    else ofZ 15.
Proof. reflexivity. Qed.

Lemma notAbove_objectiveProgress_complete (s : Session) (n : string)
    (sc : option num) (now : Z) :
  Num.gt (objectiveProgress s) (objectiveProgress (fst (completeObjective s n sc now)))
  = false.
Proof.
  rewrite !objectiveProgress_unfold. unfold completeObjective. cbn [fst].
  fold (entry (normalize n) (objectives s)).
  destruct (entry (normalize n) (objectives s)) as [o |] eqn:E;
    cbn [objectives set_objectives].
  - rewrite length_update_first.
    pose proof (completedCount_update_first (normalize n)
                  (default (ofZ 100) sc) (objectives s)) as Hc.
    case_bool_decide as Hn; [| apply gt_irrefl].
    apply notAbove_mul; [done |]. apply notAbove_ratio; [lia | lia | nia].
  - rewrite length_app, completedCount_app. cbn [length].
    pose proof (completedCount_le (objectives s)) as Hc.
    replace (completedCount [_]) with 1%nat by reflexivity.
    rewrite (bool_decide_eq_true_2 (0 < length (objectives s) + 1)%nat) by lia.
    case_bool_decide as Hn.
    + apply notAbove_mul; [done |]. apply notAbove_ratio; [lia | lia | nia].
    + assert (Hl : length (objectives s) = 0%nat) by lia.
      assert (Hz : completedCount (objectives s) = 0%nat) by lia.
      rewrite Hl, Hz. reflexivity.
Qed.

(** X3.  Completing an objective, new or known, with whatever score, never
    lowers the progress score. *)
Theorem completeObjective_never_lowers_score (s : Session) (n : string)
    (sc : option num) (now : Z) :
  Num.lt (calculateProgress (fst (completeObjective s n sc now))) (calculateProgress s)
  = false.
Proof.
  unfold Num.lt. apply notAbove_calculateProgress.
  - unfold completeObjective. cbn [fst]. by destruct (find _ _).
  - unfold completeObjective. cbn [fst]. by destruct (find _ _).
  - unfold completeObjective. cbn [fst]. by destruct (find _ _).
  - unfold completeObjective. cbn [fst]. destruct (find _ _); apply gt_irrefl.
  - unfold completeObjective. cbn [fst]. by destruct (find _ _).
  - apply notAbove_objectiveProgress_complete.
Qed.

(** X4.  On a session without objectives the objectives component is the
    full 15.  Registering a first objective takes it to 0, and completing
    that objective, under any name with the same canonical form, brings it
    back to 15. *)
Theorem first_objective_costs_until_completed (s : Session) (n n' : string)
    (sc : option num) (now now' : Z)
    (Hnone : objectives s = []) (Hsame : normalize n' = normalize n) :
  objectiveProgress s = ofZ 15 /\
  objectiveProgress (fst (addObjective s n now)) =n= ofZ 0 /\
  objectiveProgress (fst (completeObjective (fst (addObjective s n now)) n' sc now'))
  =n= ofZ 15.
Proof.
  set (o0 := {| o_name := n; o_completed := false; o_score := ofZ 0;
                o_timestamp := now |}).
  assert (H1 : objectives (fst (addObjective s n now)) = [o0]).
  { unfold addObjective. rewrite Hnone. reflexivity. }
  assert (Hp : sameObjective (normalize n') o0 = true).
  { unfold sameObjective. cbn [o_name o0]. rewrite Hsame. apply String.eqb_refl. }
  assert (H2 : objectives (fst (completeObjective (fst (addObjective s n now)) n' sc now'))
               = [complete (default (ofZ 100) sc) o0]).
  { unfold completeObjective. cbn [fst]. rewrite H1. cbn [find]. rewrite Hp.
    cbn [objectives set_objectives update_first]. by rewrite Hp. }
  rewrite !objectiveProgress_unfold, H1, H2, Hnone.
  split; [reflexivity |]. split; reflexivity.
Qed.

Lemma first_objective_costs_until_completed_witness :
  objectiveProgress fresh0 = ofZ 15 /\
  objectiveProgress (fst (addObjective fresh0 "Ohm's Law" 1)) =n= ofZ 0 /\
  objectiveProgress
    (fst (completeObjective (fst (addObjective fresh0 "Ohm's Law" 1)) "ohms law" None 2))
  =n= ofZ 15.
Proof.
  exact (first_objective_costs_until_completed fresh0 "Ohm's Law" "ohms law"
           None 1 2 eq_refl eq_refl).
Defined.

(** ** Where the components saturate *)

Lemma min_reached (c x : Q) : (c <= x)%Q -> Num.min (Fin c) (Fin x) = Fin c.
Proof. intros H. unfold Num.min. by rewrite (proj2 (gt_fin_false c x) H). Qed.

Lemma interactionProgressStandard_full (s : Session) :
  15 <= interactions s -> interactionProgressStandard s = ofZ 15.
Proof.
  intros H. unfold interactionProgressStandard, ofZ. apply min_reached.
  by rewrite <- Zle_Qle.
Qed.

Lemma interactionProgressQuiz_full (s : Session) :
  20 <= interactions s -> interactionProgressQuiz s = ofZ 10.
Proof.
  intros H. unfold interactionProgressQuiz, ofZ. cbn [Num.mul]. apply min_reached.
  rewrite Zle_Qle in H. revert H. generalize (inject_Z (interactions s)).
  intros i H. change (inject_Z 20) with 20%Q in H. change (inject_Z 10) with 10%Q. lra.
Qed.

(** X5.  Once the session counts 15 interactions in the standard branch, or
    20 in the quiz-aware branch, one more click or key press leaves the score
    as it is. *)
Theorem interactions_saturate (s : Session) (now : Z)
    (Hmany : (if hasQuizzes s || hasQuestions s then 20 else 15) <= interactions s) :
  calculateProgress (onInteraction s now) = calculateProgress s.
Proof.
  unfold calculateProgress. f_equal. f_equal. unfold rawProgress.
  change (hasQuizzes (onInteraction s now)) with (hasQuizzes s).
  change (hasQuestions (onInteraction s now)) with (hasQuestions s).
  change (timeProgress 25 (onInteraction s now)) with (timeProgress 25 s).
  change (timeProgress 40 (onInteraction s now)) with (timeProgress 40 s).
  change (scrollProgress 20 (onInteraction s now)) with (scrollProgress 20 s).
  change (scrollProgress 30 (onInteraction s now)) with (scrollProgress 30 s).
  change (quizProgress (onInteraction s now)) with (quizProgress s).
  change (objectiveProgress (onInteraction s now)) with (objectiveProgress s).
  destruct (hasQuizzes s || hasQuestions s).
  - rewrite !interactionProgressQuiz_full; [reflexivity | exact Hmany |].
    cbn [interactions onInteraction]. lia.
  - rewrite !interactionProgressStandard_full; [reflexivity | exact Hmany |].
    cbn [interactions onInteraction]. lia.
Qed.

Lemma interactions_saturate_witness :
  interactions twentyClicks = 20 /\
  calculateProgress (onInteraction twentyClicks 1) = calculateProgress twentyClicks.
Proof.
  split; [reflexivity |].
  apply interactions_saturate. vm_compute. discriminate.
Defined.

Lemma timeProgress_full (w : Z) (s : Session) :
  0 <= w -> 3000 <= activeTime s * w -> timeProgress w s = ofZ 100.
Proof.
  intros Hw H. unfold timeProgress, CONFIG.minActiveTime.
  unfold Num.div, ofZ. rewrite sgn_inject_Z. cbn [Z.compare Num.mul].
  apply min_reached.
  assert (E : (inject_Z (activeTime s) / inject_Z 30 * inject_Z w
               == inject_Z (activeTime s * w) / 30)%Q).
  { rewrite inject_Z_mult. change (inject_Z 30) with 30%Q. field. }
  rewrite E. apply Qle_shift_div_l; [reflexivity |].
  change (inject_Z 100 * 30)%Q with (inject_Z 3000). by rewrite <- Zle_Qle.
Qed.

(** X6.  Time alone completes the lesson.  On a session whose scorer inputs
    are finite and not negative, 75 seconds of active time in the standard
    branch, or 120 in the quiz-aware one, give a score of exactly 100, whatever
    was scrolled, clicked, answered or completed. *)
Theorem time_alone_completes (s : Session) (Hs : scorable s)
    (Htime : (if hasQuizzes s || hasQuestions s then 120 else 75) <= activeTime s) :
  calculateProgress s = ofZ 100.
Proof.
  assert (Hraw : exists r, rawProgress s = Fin r /\ (100 <= r)%Q).
  { unfold rawProgress. destruct (hasQuizzes s || hasQuestions s).
    - rewrite timeProgress_full by lia.
      destruct (nonneg_scrollProgress 20 s) as (a & -> & Ha); [lia | apply Hs |].
      destruct (nonneg_quizProgress s Hs) as (b & -> & Hb).
      destruct (nonneg_objectiveProgress s) as (c & -> & Hc).
      assert (Hi : nonneg (interactionProgressQuiz s)).
      { unfold interactionProgressQuiz. apply nonneg_min; [by apply nonneg_ofZ |].
        apply nonneg_mul; [apply nonneg_ofZ, Hs |]. by exists (1 # 2)%Q. }
      destruct Hi as (d & -> & Hd).
      eexists. split; [reflexivity |]. change (inject_Z 0) with 0%Q.
      change (inject_Z 100) with 100%Q. lra.
    - rewrite timeProgress_full by lia.
      destruct (nonneg_scrollProgress 30 s) as (a & -> & Ha); [lia | apply Hs |].
      destruct (nonneg_objectiveProgress s) as (c & -> & Hc).
      assert (Hi : nonneg (interactionProgressStandard s)).
      { unfold interactionProgressStandard.
        apply nonneg_min; apply nonneg_ofZ; [done | apply Hs]. }
      destruct Hi as (d & -> & Hd).
      eexists. split; [reflexivity |]. change (inject_Z 0) with 0%Q.
      change (inject_Z 100) with 100%Q. lra. }
  destruct Hraw as (r & Hr & Hle). unfold calculateProgress. rewrite Hr.
  cbn [Num.round]. unfold ofZ. apply min_reached.
  rewrite <- Zle_Qle. change 100 with (Qfloor 100) at 1. apply Qfloor_resp_le. lra.
Qed.

Lemma time_alone_completes_witness :
  activeTime twoMinutes = 120 /\ calculateProgress twoMinutes = ofZ 100.
Proof.
  split; [reflexivity |]. apply time_alone_completes.
  - split;
      [vm_compute; discriminate | vm_compute; discriminate
      | exists 0%Q; split; [reflexivity | discriminate]
      | vm_compute; discriminate
      | intros k q H; vm_compute in H; discriminate].
  - vm_compute. discriminate.
Defined.

(** ** Scroll depth *)

(** Calls of the API write none of the collected fields. *)
Lemma call_collected (s : Session) (c : Call) (now : Z) :
  activeTime (fst (call s c now)) = activeTime s /\
  interactions (fst (call s c now)) = interactions s /\
  maxScrollDepth (fst (call s c now)) = maxScrollDepth s /\
  isActive (fst (call s c now)) = isActive s /\
  lastActivity (fst (call s c now)) = lastActivity s.
Proof.
  destruct c; cbn [call]; try done.
  - unfold completeObjective. cbn [fst]. by destruct (find _ _).
  - unfold addObjective. by destruct (find _ _).
  - unfold recordQuizScore. cbn [fst]. destruct (get _ _); try done.
    by destruct (Num.gt _ _).
  - unfold recordQuestionAnswer. by destruct (get _ _).
Qed.

(** The clamped scroll percentage is an integer of at most 100, or it is
    [-Infinity] or [NaN]. *)
Lemma clamped_percent (a : num) :
  (exists k : Z, Num.min (ofZ 100) (Num.round a) = ofZ k /\ k <= 100) \/
  Num.min (ofZ 100) (Num.round a) = NInf \/
  Num.min (ofZ 100) (Num.round a) = NaN.
Proof.
  destruct a as [x | | |]; cbn [Num.round].
  - left. generalize (Qfloor (x + (1 # 2))). intros z. unfold Num.min.
    destruct (Num.gt (ofZ 100) (Fin (inject_Z z))) eqn:E.
    + exists z. split; [reflexivity |]. apply gt_fin in E. rewrite <- Zlt_Qlt in E. lia.
    + exists 100. split; [reflexivity | lia].
  - left. exists 100. split; [reflexivity | lia].
  - right. by left.
  - right. by right.
Qed.

Lemma maxScrollDepth_scroll_step (s : Session) (top doc win : num) (z : Z) :
  maxScrollDepth s = ofZ z -> z <= 100 ->
  exists z', maxScrollDepth (updateScrollDepth s top doc win) = ofZ z' /\
    z <= z' <= 100.
Proof.
  intros Hz Hle. cbn [maxScrollDepth updateScrollDepth]. rewrite Hz.
  destruct (clamped_percent (Num.mul (Num.div top (Num.sub doc win)) (ofZ 100)))
    as [(k & -> & Hk) | [-> | ->]].
  - destruct (Num.gt (ofZ k) (ofZ z)) eqn:E.
    + exists k. split; [reflexivity |]. apply gt_fin in E. rewrite <- Zlt_Qlt in E. lia.
    + exists z. split; [reflexivity | lia].
  - exists z. split; [reflexivity | lia].
  - exists z. split; [reflexivity | lia].
Qed.

Lemma maxScrollDepth_handle (s : Session) (e : Event) (now : Z) (z : Z) :
  maxScrollDepth s = ofZ z -> z <= 100 ->
  exists z', maxScrollDepth (fst (handle s e now)) = ofZ z' /\ z <= z' <= 100.
Proof.
  intros Hz Hle.
  destruct e as [d | top doc win | | | hidden | | | el | | | | | | c];
    cbn [handle fst];
    try (exists z; split; [exact Hz | lia]).
  - exists z. split; [| lia]. rewrite <- Hz. unfold init, detectLessonId. cbn [fst].
    destruct (metaLesson d); [done |]. destruct (urlLesson d); [done |].
    destruct (bodyLesson d) as [b |]; [| done]. by destruct (nonEmpty b).
  - apply (maxScrollDepth_scroll_step s top doc win z Hz Hle).
  - exists z. split; [| lia]. rewrite <- Hz. apply call_collected.
Qed.

Lemma play_app (s : Session) (es es' : list (Event * Z)) :
  fst (play s (es ++ es')) = fst (play (fst (play s es)) es').
Proof.
  revert s. induction es as [| [e now] es IH]; intros s; [reflexivity |].
  cbn [play app fst]. apply IH.
Qed.

Lemma maxScrollDepth_play (es : list (Event * Z)) (s : Session) (z : Z) :
  maxScrollDepth s = ofZ z -> z <= 100 ->
  exists z', maxScrollDepth (fst (play s es)) = ofZ z' /\ z <= z' <= 100.
Proof.
  revert s z. induction es as [| [e now] es IH]; intros s z Hz Hle.
  - exists z. split; [exact Hz | lia].
  - destruct (maxScrollDepth_handle s e now z Hz Hle) as (z1 & H1 & Hz1).
    destruct (IH _ z1 H1 ltac:(lia)) as (z2 & H2 & Hz2).
    exists z2. split; [exact H2 | lia].
Qed.

(** X7.  Along any sequence of events from the initial state, whatever
    geometry the scroll events report, [maxScrollDepth] is an integer from 0
    to 100 and never goes down: its value after more events is at least its
    value before them. *)
Theorem maxScrollDepth_in_range_and_rising (title : string) (now0 : Z)
    (es es' : list (Event * Z)) :
  exists z z' : Z,
    maxScrollDepth (fst (play (initialState title now0) es)) = ofZ z /\
    maxScrollDepth (fst (play (initialState title now0) (es ++ es'))) = ofZ z' /\
    0 <= z /\ z <= z' /\ z' <= 100.
Proof.
  destruct (maxScrollDepth_play es (initialState title now0) 0 eq_refl ltac:(lia))
    as (z & Hz & Hr).
  destruct (maxScrollDepth_play es' _ z Hz ltac:(lia)) as (z' & Hz' & Hr').
  exists z, z'. rewrite play_app. repeat split; try assumption; lia.
Qed.

(** X8.  A scroll position of 0 never earns scroll depth, whatever the two
    heights are: also when the document is exactly as tall as the window, where
    the percentage is [0 / 0]. *)
Theorem unscrolled_page_earns_no_depth (s : Session) (doc win : num)
    (Hmax : nonneg (maxScrollDepth s)) :
  maxScrollDepth (updateScrollDepth s (ofZ 0) doc win) = maxScrollDepth s.
Proof.
  destruct Hmax as (m & Hm & Hpos).
  cbn [maxScrollDepth updateScrollDepth]. rewrite Hm.
  assert (H : Num.mul (Num.div (ofZ 0) (Num.sub doc win)) (ofZ 100) = NaN \/
              exists q, Num.mul (Num.div (ofZ 0) (Num.sub doc win)) (ofZ 100) = Fin q /\
                        (q == 0)%Q).
  { destruct (Num.sub doc win) as [d | | |]; cbn [Num.div ofZ]; try by left.
    - unfold Num.div, ofZ. destruct (Num.sgn d); [by left | |];
        (right; eexists; split; [reflexivity |]; unfold Qdiv; ring).
    - right. eexists. split; [reflexivity |]. ring.
    - right. eexists. split; [reflexivity |]. ring. }
  destruct H as [-> | (q & -> & Hq)]; [reflexivity |].
  cbn [Num.round]. assert (E : Qfloor (q + (1 # 2)) = 0).
  { rewrite Hq. reflexivity. }
  rewrite E. change (Num.min (ofZ 100) (Fin (inject_Z 0))) with (ofZ 0).
  unfold ofZ. by rewrite (proj2 (gt_fin_false (inject_Z 0) m) Hpos).
Qed.

Lemma unscrolled_page_earns_no_depth_witness :
  maxScrollDepth unscrollable = ofZ 0 /\ scrollDepth unscrollable = NaN.
Proof.
  split; [| reflexivity].
  refine (unscrolled_page_earns_no_depth fresh0 (ofZ 800) (ofZ 800) _).
  exists 0%Q. split; [reflexivity | discriminate].
Defined.

(** ** Active time *)

Lemma ticks_idle (n : nat) (s : Session) (j : Z) :
  isActive s = true -> 0 <= j ->
  activeTime (ticks n s (lastActivity s + 1000 * j))
  = activeTime s + Z.max 0 (Z.min (j + Z.of_nat n) 59 - j) /\
  lastActivity (ticks n s (lastActivity s + 1000 * j)) = lastActivity s.
Proof.
  revert s j. induction n as [| n IH]; intros s j Hact Hj.
  - cbn [ticks]. split; [lia | reflexivity].
  - cbn [ticks].
    set (s' := timeTick s (lastActivity s + 1000 * j + 1000)).
    assert (Hl : lastActivity s' = lastActivity s) by reflexivity.
    assert (Ha : isActive s' = true) by exact Hact.
    assert (Ht : activeTime s' = if j + 1 <? 60 then activeTime s + 1 else activeTime s).
    { subst s'. cbn [activeTime timeTick]. rewrite Hact, andb_true_r.
      unfold CONFIG.idleTimeout.
      destruct (Z.ltb_spec (lastActivity s + 1000 * j + 1000 - lastActivity s) 60000);
        destruct (Z.ltb_spec (j + 1) 60); lia. }
    replace (lastActivity s + 1000 * j + 1000) with (lastActivity s' + 1000 * (j + 1))
      by (rewrite Hl; lia).
    destruct (IH s' (j + 1) Ha ltac:(lia)) as [H1 H2].
    rewrite H1, H2, Ht, Hl. split; [| reflexivity].
    destruct (Z.ltb_spec (j + 1) 60); lia.
Qed.

(** X9.  Without a click, key press or scroll the tracker counts at most 59
    seconds: [n] one-second ticks after the last activity, on a visible page,
    add [min n 59] seconds of active time. *)
Theorem idle_after_59_seconds (n : nat) (s : Session)
    (Hvisible : isActive s = true) :
  activeTime (ticks n s (lastActivity s)) = activeTime s + Z.min (Z.of_nat n) 59.
Proof.
  destruct (ticks_idle n s 0 Hvisible ltac:(lia)) as [H _].
  replace (lastActivity s + 1000 * 0) with (lastActivity s) in H by lia.
  rewrite H. lia.
Qed.

Lemma idle_after_59_seconds_witness :
  activeTime (ticks 600 fresh0 0) = 59.
Proof. exact (idle_after_59_seconds 600 fresh0 eq_refl). Defined.

Lemma activeTime_handle_inactive (s : Session) (e : Event) (now : Z) :
  isActive s = false -> reactivates e = false ->
  activeTime (fst (handle s e now)) = activeTime s /\
  isActive (fst (handle s e now)) = false.
Proof.
  intros Hs He.
  destruct e as [d | top doc win | | | hidden | | | el | | | | | | c];
    cbn [handle fst]; try (split; [reflexivity | exact Hs]); try discriminate.
  - unfold init, detectLessonId. cbn [fst].
    destruct (metaLesson d); [done |]. destruct (urlLesson d); [done |].
    destruct (bodyLesson d) as [b |]; [| done]. by destruct (nonEmpty b).
  - destruct hidden; [split; reflexivity | discriminate].
  - split; [reflexivity |]. reflexivity.
  - cbn [activeTime isActive timeTick]. rewrite Hs, andb_false_r. by split.
  - destruct (call_collected s c now) as (H1 & _ & _ & H2 & _).
    rewrite H1, H2. by split.
Qed.

(** X10.  While the page is hidden or the window has lost focus, nothing
    adds active time: after any sequence of events without a return to the
    foreground (no [visibilitychange] to visible, no [focus]) [activeTime] is
    what it was. *)
Theorem no_active_time_in_background (s : Session) (es : list (Event * Z))
    (Hbackground : isActive s = false)
    (Hstays : Forall (fun e => reactivates (fst e) = false) es) :
  activeTime (fst (play s es)) = activeTime s.
Proof.
  revert s Hbackground. induction es as [| [e now] es IH]; intros s Hs; [reflexivity |].
  apply Forall_cons in Hstays as [He Hes]. cbn [play fst].
  destruct (activeTime_handle_inactive s e now Hs He) as [H1 H2].
  rewrite (IH Hes _ H2). exact H1.
Qed.

Lemma no_active_time_in_background_witness :
  activeTime
    (fst (play hiddenTab [(TimeTick, 11000); (Click, 11500); (TimeTick, 12000);
                          (ReportTick, 15000)]))
  = 10.
Proof.
  refine (no_active_time_in_background hiddenTab _ eq_refl _).
  repeat constructor.
Defined.

(** ** The lesson id *)

Lemma detectLessonId_Some (s : Session) (d : PageSource) :
  lessonId (detectLessonId s d)
  = Some match metaLesson d, urlLesson d, bodyLesson d with
         | Some content, _, _ => content
         | None, Some v, _ => v
         | None, None, Some b => if nonEmpty b then b else "unknown"%string
         | None, None, None => "unknown"%string
         end.
Proof.
  unfold detectLessonId. destruct (metaLesson d); [done |].
  destruct (urlLesson d); [done |]. destruct (bodyLesson d) as [b |]; [| done].
  by destruct (nonEmpty b).
Qed.

Lemma lessonId_handle (s : Session) (e : Event) (now : Z) :
  is_Some (lessonId s) ->
  is_Some (lessonId (fst (handle s e now))) /\
  Forall (fun g => signalLesson g <> Some None) (snd (handle s e now)).
Proof.
  intros [l Hl].
  destruct e as [d | top doc win | | | hidden | | | el | | | | | | c];
    cbn [handle fst snd]; try (split; [by exists l | by constructor]).
  - unfold init. cbn [fst snd]. rewrite detectLessonId_Some. split; [eauto |].
    constructor; [done | constructor].
  - split; [by exists l |]. constructor; [| constructor]. cbn. by rewrite Hl.
  - split; [by exists l |]. constructor; [| constructor]. cbn. by rewrite Hl.
  - split; [by exists l |]. constructor; [| constructor]. cbn. by rewrite Hl.
  - split; [by exists l |]. constructor; [| constructor]. cbn. by rewrite Hl.
  - destruct c as [n sc | n | n sc mx tq | id ok txt | n p | | id |]; cbn [call].
    + unfold completeObjective. cbn [fst snd].
      destruct (find _ _); (split; [by exists l |]);
        (constructor; [cbn; by rewrite Hl | constructor]).
    + unfold addObjective. destruct (find _ _); (split; [by exists l | constructor]).
    + unfold recordQuizScore. cbn [fst snd].
      destruct (get _ _) as [e0 | |]; [destruct (Num.gt _ _) | |];
        (split; [by exists l |]);
        (constructor; [cbn; by rewrite Hl | constructor]).
    + unfold recordQuestionAnswer.
      destruct (get _ _); cbn [fst snd]; (split; [by exists l |]);
        try constructor; [cbn; by rewrite Hl | constructor].
    + split; [by exists l |]. constructor; [cbn; by rewrite Hl | constructor].
    + split; [by exists l |]. constructor; [cbn; by rewrite Hl | constructor].
    + split; [by exists id | constructor].
    + split; [by exists l |]. constructor; [cbn; by rewrite Hl | constructor].
Qed.

Lemma lessonId_play (es : list (Event * Z)) (s : Session) :
  is_Some (lessonId s) ->
  is_Some (lessonId (fst (play s es))) /\
  Forall (fun g => signalLesson g <> Some None) (snd (play s es)).
Proof.
  revert s. induction es as [| [e now] es IH]; intros s Hs.
  - split; [exact Hs | constructor].
  - cbn [play fst snd]. destruct (lessonId_handle s e now Hs) as [H1 H2].
    destruct (IH _ H1) as [H3 H4]. split; [exact H3 |].
    apply Forall_app. by split.
Qed.

(** X11.  [init] always resolves a lesson id: the content of the meta tag
    if there is one, else the [lesson] query parameter, else a non-empty
    [data-lesson-id] of the body, else ["unknown"].  From then on, with
    [setLessonId] given strings, the lesson id is never [null] again, and
    every signal that names a lesson, from [TRACKER_READY] on, names one. *)
Theorem lesson_id_resolved_by_init (s : Session) (d : PageSource) (now : Z)
    (es : list (Event * Z)) :
  lessonId (fst (init s d))
  = Some match metaLesson d, urlLesson d, bodyLesson d with
         | Some content, _, _ => content
         | None, Some v, _ => v
         | None, None, Some b => if nonEmpty b then b else "unknown"%string
         | None, None, None => "unknown"%string
         end /\
  is_Some (lessonId (fst (play s ((Init d, now) :: es)))) /\
  Forall (fun g => signalLesson g <> Some None) (snd (play s ((Init d, now) :: es))).
Proof.
  split; [apply detectLessonId_Some |].
  cbn [play handle fst snd].
  assert (H : is_Some (lessonId (fst (init s d)))).
  { unfold init. cbn [fst]. rewrite detectLessonId_Some. eauto. }
  destruct (lessonId_play es _ H) as [H1 H2]. split; [exact H1 |].
  apply Forall_app. split; [| exact H2].
  unfold init. cbn [snd]. rewrite detectLessonId_Some.
  constructor; [done | constructor].
Qed.

(** ** The dictionaries over whole runs *)

(** Events other than API calls leave the containers of the API alone. *)
Lemma handle_containers (s : Session) (e : Event) (now : Z) :
  (forall c, e <> Api c) ->
  objectives (fst (handle s e now)) = objectives s /\
  quizScores (fst (handle s e now)) = quizScores s /\
  topicProgress (fst (handle s e now)) = topicProgress s /\
  questionsAnswered (fst (handle s e now)) = questionsAnswered s.
Proof.
  intros He.
  destruct e as [d | top doc win | | | hidden | | | el | | | | | | c];
    cbn [handle fst]; try done.
  - unfold init, detectLessonId. cbn [fst].
    destruct (metaLesson d); [done |]. destruct (urlLesson d); [done |].
    destruct (bodyLesson d) as [b |]; [| done]. by destruct (nonEmpty b).
  - exfalso. by eapply He.
Qed.

Lemma get_inherited {A : Type} (o : gmap string A) (k : string) :
  inherited k = true -> o !! k = None -> get o k = Inherited.
Proof. intros Hk Ho. unfold get. by rewrite Ho, Hk. Qed.

Lemma questionsAnswered_call_other (s : Session) (c : Call) (now : Z) :
  (forall id ok txt, c <> RecordQuestionAnswer id ok txt) -> c <> ResetQuestions ->
  questionsAnswered (fst (call s c now)) = questionsAnswered s.
Proof.
  intros H1 H2. destruct c; cbn [call]; try done.
  - unfold completeObjective. cbn [fst]. by destruct (find _ _).
  - unfold addObjective. by destruct (find _ _).
  - unfold recordQuizScore. cbn [fst]. destruct (get _ _); try done.
    by destruct (Num.gt _ _).
  - exfalso. by eapply H1.
Qed.

Lemma noInheritedKeys_call (s : Session) (c : Call) (now : Z) :
  noInheritedKeys s -> noInheritedKeys (fst (call s c now)).
Proof.
  intros Hs k Hk. destruct (Hs k Hk) as [Hq Hl].
  destruct c as [n sc | n | n sc mx tq | id ok txt | n p | | id |];
    try (rewrite quizScores_call_other, questionsAnswered_call_other by discriminate;
         by split).
  - split; [| by rewrite questionsAnswered_call_other by discriminate].
    cbn [call]. unfold recordQuizScore. cbn [fst].
    destruct (get (quizScores s) n) as [e0 | |] eqn:G.
    + destruct (Num.gt _ _); [| exact Hq]. cbn [quizScores set_quizScores].
      rewrite lookup_insert_ne; [exact Hq |]. intros ->.
      apply get_own_inv in G. congruence.
    + exact Hq.
    + cbn [quizScores set_quizScores]. rewrite lookup_insert_ne; [exact Hq |].
      intros ->. rewrite (get_inherited _ _ Hk Hq) in G. discriminate.
  - split; [by rewrite quizScores_call_other by discriminate |].
    cbn [call]. unfold recordQuestionAnswer.
    destruct (get (questions (questionsAnswered s)) id) eqn:G; cbn [fst]; try exact Hl.
    cbn [questionsAnswered set_questionsAnswered questions].
    rewrite lookup_insert_ne; [exact Hl |]. intros ->.
    rewrite (get_inherited _ _ Hk Hl) in G. discriminate.
  - split; [by rewrite quizScores_call_other by discriminate |]. apply lookup_empty.
Qed.

Lemma api_or_not (e : Event) : (exists c, e = Api c) \/ (forall c, e <> Api c).
Proof. destruct e; try (by right); left; eauto. Qed.

Lemma noInheritedKeys_play (es : list (Event * Z)) (s : Session) :
  noInheritedKeys s -> noInheritedKeys (fst (play s es)).
Proof.
  revert s. induction es as [| [e now] es IH]; intros s Hs; [exact Hs |].
  cbn [play fst]. apply IH.
  destruct (api_or_not e) as [[c ->] | He].
  - cbn [handle fst]. by apply noInheritedKeys_call.
  - destruct (handle_containers s e now He) as (_ & Hq & _ & Hl).
    intros k Hk. rewrite Hq, Hl. by apply Hs.
Qed.

(** X12.  A quiz or a question whose name is a property of
    [Object.prototype] (["constructor"], ["toString"], ["__proto__"], ...) is
    never stored: in every session reached from the initial state such a
    submission leaves the session as it was, so it changes neither the score
    nor the mode. *)
Theorem prototype_names_are_dropped (title : string) (now0 : Z)
    (es : list (Event * Z)) (n : string) (Hn : inherited n = true) :
  let s := fst (play (initialState title now0) es) in
  quizScores s !! n = None /\
  questions (questionsAnswered s) !! n = None /\
  (forall score maxScore totalQuestions now,
      fst (recordQuizScore s n score maxScore totalQuestions now) = s) /\
  (forall isCorrect text now, recordQuestionAnswer s n isCorrect text now = (s, [])).
Proof.
  intros s.
  assert (Hs : noInheritedKeys s).
  { apply noInheritedKeys_play. intros k _. split; apply lookup_empty. }
  destruct (Hs n Hn) as [Hq Hl]. split; [exact Hq |]. split; [exact Hl |]. split.
  - intros. unfold recordQuizScore. cbn [fst]. by rewrite (get_inherited _ _ Hn Hq).
  - intros. unfold recordQuestionAnswer. by rewrite (get_inherited _ _ Hn Hl).
Qed.

Lemma prototype_names_are_dropped_witness :
  fst (recordQuizScore afterClick "constructor" (ofZ 8) (Some (ofZ 10)) None 2)
  = afterClick /\
  calculateProgress
    (fst (recordQuizScore afterClick "constructor" (ofZ 8) (Some (ofZ 10)) None 2))
  = ofZ 16.
Proof.
  pose proof (prototype_names_are_dropped "Lesson" 0 [(Click, 1)] "constructor" eq_refl)
    as (_ & _ & H & _).
  unfold afterClick, fresh0. split; [apply H |].
  rewrite (H (ofZ 8) (Some (ofZ 10)) None 2). reflexivity.
Defined.

(** ** The question ledger over whole runs *)

Lemma question_kept_handle (s : Session) (e : Event) (now : Z)
    (id : string) (q : Question) :
  keepsLedger e = true ->
  questions (questionsAnswered s) !! id = Some q ->
  questions (questionsAnswered (fst (handle s e now))) !! id = Some q.
Proof.
  intros He Hq. destruct (api_or_not e) as [[c ->] | Hn].
  - cbn [handle fst].
    destruct c as [n sc | n | n sc mx tq | id' ok txt | n p | | i |];
      try (rewrite questionsAnswered_call_other by discriminate; exact Hq);
      try discriminate.
    cbn [call]. unfold recordQuestionAnswer.
    destruct (get (questions (questionsAnswered s)) id') eqn:G; cbn [fst]; try exact Hq.
    cbn [questionsAnswered set_questionsAnswered questions].
    rewrite lookup_insert_ne; [exact Hq |]. intros ->.
    apply get_undefined in G. congruence.
  - destruct (handle_containers s e now Hn) as (_ & _ & _ & ->). exact Hq.
Qed.

(** X13.  The first answer to a question stands: its entry, with the
    correctness, text and time of the first answer, is still the stored one
    after any sequence of events that does not call [resetQuestions]. *)
Theorem first_answer_stands (s : Session) (es : list (Event * Z))
    (id : string) (q : Question)
    (Hstored : questions (questionsAnswered s) !! id = Some q)
    (Hnoreset : Forall (fun e => keepsLedger (fst e) = true) es) :
  questions (questionsAnswered (fst (play s es))) !! id = Some q.
Proof.
  revert s Hstored. induction es as [| [e now] es IH]; intros s Hs; [exact Hs |].
  apply Forall_cons in Hnoreset as [He Hes]. cbn [play fst].
  apply (IH Hes). by apply question_kept_handle.
Qed.

Lemma first_answer_stands_witness :
  qn_correct <$>
    questions (questionsAnswered
      (fst (play answeredOnce
              [(Api (RecordQuestionAnswer "q1" false None), 2);
               (Api (RecordQuizScore "Quiz" (ofZ 1) None None), 3);
               (TimeTick, 4)]))) !! "q1"%string
  = Some true.
Proof.
  rewrite (first_answer_stands answeredOnce _ "q1"
             {| qn_answered := true; qn_correct := true; qn_text := "";
                qn_timestamp := 1 |} eq_refl); [reflexivity |].
  repeat constructor.
Defined.

(** X14.  [resetQuestions] empties the ledger whatever it held, and after
    it any question id (other than a name of [Object.prototype]) counts
    again: the next answer is recorded as the first, and the totals are 1 and
    0 or 1. *)
Theorem reset_then_answer_again (s : Session) (id : string) (isCorrect : bool)
    (text : option string) (now now' : Z) (Hid : inherited id = false) :
  let s1 := fst (resetQuestions s now) in
  let s2 := fst (recordQuestionAnswer s1 id isCorrect text now') in
  questionsAnswered s1 = emptyLedger /\
  st_percentage (getQuestionsStats s1) = ofZ 0 /\
  total (questionsAnswered s2) = 1 /\
  correct (questionsAnswered s2) = (if isCorrect then 1 else 0) /\
  questions (questionsAnswered s2)
  = {[ id := {| qn_answered := true; qn_correct := isCorrect;
                qn_text := default EmptyString text; qn_timestamp := now' |} ]} /\
  st_percentage (getQuestionsStats s2) = ofZ (if isCorrect then 100 else 0).
Proof.
  intros s1 s2.
  assert (G : get (questions (questionsAnswered s1)) id = Undefined).
  { subst s1. cbn. unfold get. rewrite lookup_empty. by rewrite Hid. }
  subst s2. unfold recordQuestionAnswer. rewrite G. cbn [fst].
  split; [reflexivity |]. split; [reflexivity |].
  split; [reflexivity |]. split; [by destruct isCorrect |].
  split; [reflexivity |].
  unfold getQuestionsStats. cbn. by destruct isCorrect.
Qed.

Lemma reset_then_answer_again_witness :
  total (questionsAnswered
    (fst (recordQuestionAnswer (fst (resetQuestions answeredOnce 5)) "q1" false None 6)))
  = 1 /\
  correct (questionsAnswered
    (fst (recordQuestionAnswer (fst (resetQuestions answeredOnce 5)) "q1" false None 6)))
  = 0.
Proof.
  pose proof (reset_then_answer_again answeredOnce "q1" false None 5 6 eq_refl)
    as (_ & _ & H1 & H2 & _).
  split; [exact H1 | exact H2].
Defined.

(** ** Objectives over whole runs *)

Lemma notAbove_max (a0 a b : num) :
  Num.gt a0 a = false -> Num.gt a0 (Num.max a b) = false.
Proof.
  intros H. destruct a0 as [x | | |], a as [y | | |], b as [z | | |];
    try discriminate; try reflexivity; unfold Num.max; cbn [Num.gt] in *;
    repeat match goal with
           | |- context [negb (Qle_bool ?p ?q)] =>
               let E := fresh "E" in destruct (negb (Qle_bool p q)) eqn:E
           end;
    try reflexivity; try discriminate;
    repeat match goal with
           | E : negb (Qle_bool _ _) = true |- _ => apply (proj1 (gt_fin _ _)) in E
           | E : negb (Qle_bool _ _) = false |- _ =>
               apply (proj1 (gt_fin_false _ _)) in E
           end;
    try (exfalso; lra).
Qed.

Lemma notAbove_foldl_max (l : list num) (a0 a : num) :
  Num.gt a0 a = false -> Num.gt a0 (foldl Num.max a l) = false.
Proof.
  revert a. induction l as [| b l IH]; intros a H; [exact H |].
  cbn [foldl]. apply IH. by apply notAbove_max.
Qed.

Lemma objective_kept_call (s : Session) (c : Call) (now : Z) (k : string) (o : Objective) :
  entry k (objectives s) = Some o ->
  exists o' l, entry k (objectives (fst (call s c now))) = Some o' /\
    o_name o' = o_name o /\ o_timestamp o' = o_timestamp o /\
    (o_completed o = true -> o_completed o' = true) /\
    o_score o' = foldl Num.max (o_score o) l.
Proof.
  intros Ho.
  assert (Hsame :
    entry k (objectives (fst (call s c now))) = Some o ->
    exists o' l, entry k (objectives (fst (call s c now))) = Some o' /\
      o_name o' = o_name o /\ o_timestamp o' = o_timestamp o /\
      (o_completed o = true -> o_completed o' = true) /\
      o_score o' = foldl Num.max (o_score o) l).
  { intros E. exists o, []. by rewrite E. }
  destruct c as [n sc | n | | | | | |];
    try (apply Hsame; rewrite objectives_call_other by discriminate; exact Ho).
  - cbn [call] in *. rewrite entry_completeObjective in *.
    destruct (String.eqb_spec (normalize n) k) as [E | Hne]; [| by apply Hsame].
    rewrite Ho. exists (complete (default (ofZ 100) sc) o), [default (ofZ 100) sc].
    by repeat split.
  - apply Hsame. cbn [call]. rewrite entry_addObjective. by rewrite Ho.
Qed.

Lemma objective_kept_handle (s : Session) (e : Event) (now : Z) (k : string) (o : Objective) :
  entry k (objectives s) = Some o ->
  exists o' l, entry k (objectives (fst (handle s e now))) = Some o' /\
    o_name o' = o_name o /\ o_timestamp o' = o_timestamp o /\
    (o_completed o = true -> o_completed o' = true) /\
    o_score o' = foldl Num.max (o_score o) l.
Proof.
  intros Ho. destruct (api_or_not e) as [[c ->] | Hn].
  - cbn [handle fst]. by apply objective_kept_call.
  - destruct (handle_containers s e now Hn) as (-> & _). exists o, []. by repeat split.
Qed.

Lemma objective_kept_play (es : list (Event * Z)) (s : Session) (k : string) (o : Objective) :
  entry k (objectives s) = Some o ->
  exists o' l, entry k (objectives (fst (play s es))) = Some o' /\
    o_name o' = o_name o /\ o_timestamp o' = o_timestamp o /\
    (o_completed o = true -> o_completed o' = true) /\
    o_score o' = foldl Num.max (o_score o) l.
Proof.
  revert s o. induction es as [| [e now] es IH]; intros s o Ho.
  - exists o, []. by repeat split.
  - destruct (objective_kept_handle s e now k o Ho) as (o1 & l1 & H1 & Hn1 & Ht1 & Hc1 & Hs1).
    destruct (IH _ _ H1) as (o2 & l2 & H2 & Hn2 & Ht2 & Hc2 & Hs2).
    exists o2, (l1 ++ l2). cbn [play fst]. split; [exact H2 |].
    split; [congruence |]. split; [congruence |]. split; [tauto |].
    rewrite foldl_app. congruence.
Qed.

(** X15.  An objective, once stored, stays: after any sequence of events it
    still has the display name and the time stamp of its first registration,
    a completed objective is still completed, and its score is not lower
    than it was. *)
Theorem objective_never_downgraded (s : Session) (es : list (Event * Z))
    (k : string) (o : Objective) (Hstored : entry k (objectives s) = Some o) :
  exists o', entry k (objectives (fst (play s es))) = Some o' /\
    o_name o' = o_name o /\ o_timestamp o' = o_timestamp o /\
    (if o_completed o then o_completed o' = true else True) /\
    Num.lt (o_score o') (o_score o) = false.
Proof.
  destruct (objective_kept_play es s k o Hstored) as (o' & l & H & Hn & Ht & Hc & Hs).
  exists o'. split; [exact H |]. split; [exact Hn |]. split; [exact Ht |]. split.
  - destruct (o_completed o); [by apply Hc | done].
  - unfold Num.lt. rewrite Hs. apply notAbove_foldl_max, gt_irrefl.
Qed.

Lemma objective_never_downgraded_witness :
  exists o',
    entry "ohmslaw"
      (objectives (fst (play (run fresh0 ohmCalls)
                          [(Api (CompleteObjective "OHMS-LAW" (Some (ofZ 40))), 9);
                           (Api (AddObjective "Ohm's law"), 10)])))
    = Some o' /\
    o_name o' = "Ohm's Law"%string /\ o_timestamp o' = 1 /\
    o_completed o' = true /\ Num.lt (o_score o') (ofZ 95) = false.
Proof.
  exact (objective_never_downgraded (run fresh0 ohmCalls) _ "ohmslaw"
           {| o_name := "Ohm's Law"; o_completed := true; o_score := ofZ 95;
              o_timestamp := 1 |} eq_refl).
Defined.

(** X16.  [addObjective] is idempotent up to the canonical form of the name:
    it leaves every stored objective as it is, and a second registration
    under any name with the same canonical form changes nothing and sends
    nothing. *)
Theorem addObjective_idempotent (s : Session) (n n' : string) (now now' : Z)
    (Hsame : normalize n' = normalize n) :
  addObjective (fst (addObjective s n now)) n' now' = (fst (addObjective s n now), []) /\
  forall k o, entry k (objectives s) = Some o ->
    entry k (objectives (fst (addObjective s n now))) = Some o.
Proof.
  split.
  - assert (H : exists o, entry (normalize n) (objectives (fst (addObjective s n now)))
                          = Some o).
    { rewrite entry_addObjective, String.eqb_refl.
      destruct (entry (normalize n) (objectives s)); eauto. }
    destruct H as [o Ho]. unfold addObjective at 1.
    fold (entry (normalize n') (objectives (fst (addObjective s n now)))).
    by rewrite Hsame, Ho.
  - intros k o Ho. rewrite entry_addObjective. by rewrite Ho.
Qed.

Lemma addObjective_idempotent_witness :
  addObjective (fst (addObjective fresh0 "Series Circuits" 1)) "series-circuits" 2
  = (fst (addObjective fresh0 "Series Circuits" 1), []).
Proof.
  exact (proj1 (addObjective_idempotent fresh0 "Series Circuits" "series-circuits"
                  1 2 eq_refl)).
Defined.

(** ** Topic progress *)

Lemma clampPercentage_range (p : num) :
  match p with
  | NaN => clampPercentage p = NaN
  | _ => exists x : Q, clampPercentage p = Fin x /\ (0 <= x <= 100)%Q
  end.
Proof.
  destruct p as [x | | |]; try reflexivity.
  - unfold clampPercentage, Num.max, ofZ.
    destruct (Num.gt (Fin x) (Fin (inject_Z 0))) eqn:E1; unfold Num.min.
    + destruct (Num.gt (Fin (inject_Z 100)) (Fin x)) eqn:E2.
      * exists x. split; [reflexivity |]. apply gt_fin in E1, E2.
        change (inject_Z 0) with 0%Q in E1. change (inject_Z 100) with 100%Q in E2. lra.
      * exists (inject_Z 100). split; [reflexivity | split; discriminate].
    + exists (inject_Z 0). split; [reflexivity | split; discriminate].
  - exists (inject_Z 100). split; [reflexivity | split; discriminate].
  - exists (inject_Z 0). split; [reflexivity | split; discriminate].
Qed.

Lemma clampPercentage_idempotent (p : num) :
  clampPercentage (clampPercentage p) = clampPercentage p.
Proof.
  destruct p as [x | | |]; try reflexivity.
  assert (H : (clampPercentage (Fin x) = Fin x /\
               Num.gt (Fin x) (ofZ 0) = true /\ Num.gt (ofZ 100) (Fin x) = true) \/
              clampPercentage (Fin x) = ofZ 100 \/ clampPercentage (Fin x) = ofZ 0).
  { unfold clampPercentage.
    change (Num.max (ofZ 0) (Fin x))
      with (if Num.gt (Fin x) (ofZ 0) then Fin x else ofZ 0).
    destruct (Num.gt (Fin x) (ofZ 0)) eqn:E1; [| right; right; reflexivity].
    change (Num.min (ofZ 100) (Fin x))
      with (if Num.gt (ofZ 100) (Fin x) then Fin x else ofZ 100).
    destruct (Num.gt (ofZ 100) (Fin x)) eqn:E2; [by left | by right; left]. }
  destruct H as [(H & E1 & E2) | [H | H]]; rewrite H; try reflexivity.
  unfold clampPercentage.
  change (Num.max (ofZ 0) (Fin x))
    with (if Num.gt (Fin x) (ofZ 0) then Fin x else ofZ 0).
  rewrite E1.
  change (Num.min (ofZ 100) (Fin x))
    with (if Num.gt (ofZ 100) (Fin x) then Fin x else ofZ 100).
  by rewrite E2.
Qed.

(** X17.  [updateTopicProgress] stores, under any topic name but
    ["__proto__"], the percentage clamped to [0, 100]: a number from 0 to 100
    for every input but [NaN], which is stored as it is.  Storing a stored
    value again keeps it, the other topics are untouched, and the progress
    score does not depend on topic progress at all. *)
Theorem updateTopicProgress_clamps (s : Session) (topicName : string)
    (percentage : num) (now : Z) (Hname : topicName <> "__proto__"%string) :
  let s' := fst (updateTopicProgress s topicName percentage now) in
  topicProgress s' !! topicName = Some (clampPercentage percentage) /\
  match percentage with
  | NaN => clampPercentage percentage = NaN
  | _ => exists x : Q, clampPercentage percentage = Fin x /\ (0 <= x <= 100)%Q
  end /\
  clampPercentage (clampPercentage percentage) = clampPercentage percentage /\
  (forall other, other <> topicName -> topicProgress s' !! other = topicProgress s !! other) /\
  calculateProgress s' = calculateProgress s.
Proof.
  intros s'. subst s'. unfold updateTopicProgress, assignTopic. cbn [fst].
  apply String.eqb_neq in Hname. rewrite Hname. cbn [topicProgress set_topicProgress].
  split; [apply lookup_insert_eq |]. split; [apply clampPercentage_range |].
  split; [apply clampPercentage_idempotent |]. split; [| reflexivity].
  intros other Ho. by rewrite lookup_insert_ne.
Qed.

Lemma updateTopicProgress_clamps_witness :
  topicProgress (fst (updateTopicProgress fresh0 "dc_theory" (ofZ 140) 1))
    !! "dc_theory"%string
  = Some (ofZ 100).
Proof.
  assert (H : "dc_theory"%string <> "__proto__"%string) by discriminate.
  exact (proj1 (updateTopicProgress_clamps fresh0 "dc_theory" (ofZ 140) 1 H)).
Defined.

(** ** The question statistics over whole runs *)

Lemma ledger_ok_play (es : list (Event * Z)) (s : Session) :
  ledger_ok (questionsAnswered s) -> ledger_ok (questionsAnswered (fst (play s es))).
Proof.
  revert s. induction es as [| [e now] es IH]; intros s Hs; [exact Hs |].
  cbn [play fst]. apply IH. destruct (api_or_not e) as [[c ->] | Hn].
  - cbn [handle fst]. by apply ledger_ok_call.
  - by destruct (handle_containers s e now Hn) as (_ & _ & _ & ->).
Qed.

(** X18.  In every session reached from the initial state
    [getQuestionsStats] returns totals with [0 <= correct <= total] and a
    percentage that is an integer from 0 to 100. *)
Theorem getQuestionsStats_in_range (title : string) (now0 : Z) (es : list (Event * Z)) :
  let st := getQuestionsStats (fst (play (initialState title now0) es)) in
  0 <= st_correct st <= st_total st /\
  exists z : Z, st_percentage st = ofZ z /\ 0 <= z <= 100.
Proof.
  intros st. subst st.
  destruct (ledger_ok_play es (initialState title now0) ledger_ok_empty) as [Ht Hc].
  set (s := fst (play (initialState title now0) es)) in *.
  pose proof (countCorrect_le (questions (questionsAnswered s))) as Hle.
  unfold getQuestionsStats. cbn [st_correct st_total st_percentage].
  split; [lia |]. case_bool_decide as Hpos.
  - unfold Num.fmul, Num.fdiv, Num.div, ofZ. rewrite sgn_inject_Z.
    destruct (Z.compare_spec (total (questionsAnswered s)) 0); try lia.
    cbn [Num.mul Num.round Num.rounded]. eexists. split; [reflexivity |].
    assert (H0 : (0 <= inject_Z (correct (questionsAnswered s))
                        / inject_Z (total (questionsAnswered s)))%Q).
    { apply Qle_shift_div_l; [by rewrite <- (Zlt_Qlt 0) |].
      rewrite Qmult_0_l. rewrite <- (Zle_Qle 0). lia. }
    assert (H1 : (inject_Z (correct (questionsAnswered s))
                  / inject_Z (total (questionsAnswered s)) <= 1)%Q).
    { apply Qle_shift_div_r; [by rewrite <- (Zlt_Qlt 0) |].
      rewrite Qmult_1_l. rewrite <- Zle_Qle. lia. }
    pose proof (nearestDouble_within _ 1 ltac:(lia) (conj H0 H1)) as Hq.
    revert Hq.
    generalize (Num.nearestDouble
                  (inject_Z (correct (questionsAnswered s))
                   / inject_Z (total (questionsAnswered s)))).
    intros q Hq. change (inject_Z 1) with 1%Q in Hq.
    assert (Hp : (0 <= q * inject_Z 100 <= inject_Z 100)%Q).
    { change (inject_Z 100) with 100%Q. lra. }
    apply (nearestDouble_within _ 100 ltac:(lia)) in Hp. revert Hp.
    generalize (Num.nearestDouble (q * inject_Z 100)).
    intros r Hr. change (inject_Z 100) with 100%Q in Hr. split.
    + change 0 with (Qfloor 0). apply Qfloor_resp_le. lra.
    + assert (Hfl : Qfloor (r + (1 # 2)) <= Qfloor (100 + (1 # 2)))
        by (apply Qfloor_resp_le; lra).
      exact Hfl.
  - exists 0. split; [reflexivity | lia].
Qed.

(** ** The score over whole runs *)

Lemma scorable_handle (s : Session) (e : Event) (now : Z) :
  scorable s -> eventInContract e -> scorable (fst (handle s e now)).
Proof.
  intros Hs He.
  destruct e as [d | top doc win | | | hidden | | | el | | | | | | c];
    cbn [handle fst]; try exact Hs.
  - unfold init, detectLessonId. cbn [fst]. destruct Hs.
    destruct (metaLesson d); [by split |]. destruct (urlLesson d); [by split |].
    destruct (bodyLesson d) as [b |]; [| by split]. by destruct (nonEmpty b).
  - by apply scorable_onInteraction, scorable_updateScrollDepth.
  - by apply scorable_onInteraction.
  - by apply scorable_onInteraction.
  - by destruct Hs.
  - by destruct Hs.
  - by destruct Hs.
  - by destruct Hs.
  - by apply scorable_timeTick.
  - by apply scorable_call.
Qed.

(** X19.  Along any sequence of events from the initial state in which
    every quiz submission has a score that is not negative over a positive
    maximum, the progress score is an integer from 0 to 100, whatever the
    scroll geometry, the clock and the other calls are. *)
Theorem progress_in_range_over_events (title : string) (now0 : Z)
    (es : list (Event * Z))
    (Hcontract : Forall (fun e => eventInContract (fst e)) es) :
  Num.int_between 0 100 (calculateProgress (fst (play (initialState title now0) es))).
Proof.
  apply calculateProgress_scorable.
  generalize (scorable_fresh title now0). generalize (initialState title now0).
  induction es as [| [e now] es IH]; intros s Hs; [exact Hs |].
  apply Forall_cons in Hcontract as [He Hes]. cbn [play fst].
  apply (IH Hes). by apply scorable_handle.
Qed.

Lemma progress_in_range_over_events_witness :
  calculateProgress (fst (play fresh0 shortVisit)) = ofZ 50 /\
  Num.int_between 0 100 (calculateProgress (fst (play fresh0 shortVisit))).
Proof.
  split; [reflexivity |].
  apply progress_in_range_over_events.
  unfold shortVisit.
  apply Forall_cons; split; [exact I |].
  apply Forall_cons; split; [exact I |].
  apply Forall_cons; split.
  - split.
    + exists 8%Q. split; [reflexivity | discriminate].
    + exists 10%Q. split; [reflexivity | reflexivity].
  - apply Forall_cons; split; [exact I |].
    apply Forall_cons; split; [exact I |]. apply Forall_nil_2.
Defined.

Lemma quiz_kept_play (es : list (Event * Z)) (s : Session) (k : string) (e : Quiz) :
  quizScores s !! k = Some e ->
  exists e', quizScores (fst (play s es)) !! k = Some e' /\
    (e' = e \/ Num.gt (q_percentage e') (q_percentage e) = true).
Proof.
  revert s e. induction es as [| [ev now] es IH]; intros s e He; [eauto |].
  assert (H1 : exists e1, quizScores (fst (handle s ev now)) !! k = Some e1 /\
                 (e1 = e \/ Num.gt (q_percentage e1) (q_percentage e) = true)).
  { destruct (api_or_not ev) as [[c ->] | Hn].
    - cbn [handle fst]. by apply quiz_kept_or_raised_call.
    - destruct (handle_containers s ev now Hn) as (_ & -> & _). eauto. }
  destruct H1 as (e1 & He1 & H1). destruct (IH _ _ He1) as (e2 & He2 & H2).
  exists e2. cbn [play fst]. split; [exact He2 |].
  destruct H1 as [-> | H1]; [exact H2 |]. destruct H2 as [-> | H2]; [by right |].
  right. eapply gt_trans; eassumption.
Qed.

(** X20.  Quiz entries are never removed, so the quiz-aware branch is for
    good: once a quiz is stored, after any sequence of events the scorer is
    still in the quiz-aware branch, where time weighs 25, scroll 20 and
    interactions at most 10. *)
Theorem quiz_mode_is_permanent (s : Session) (es : list (Event * Z))
    (k : string) (e : Quiz) (Hstored : quizScores s !! k = Some e) :
  let s' := fst (play s es) in
  hasQuizzes s' = true /\
  rawProgress s'
  = Num.add (Num.add (Num.add (Num.add (Num.add (ofZ 0) (timeProgress 25 s'))
                                 (scrollProgress 20 s'))
                        (interactionProgressQuiz s'))
               (quizProgress s'))
      (objectiveProgress s').
Proof.
  intros s'. destruct (quiz_kept_play es s k e Hstored) as (e' & He' & _).
  assert (H : hasQuizzes s' = true).
  { unfold hasQuizzes. apply bool_decide_eq_true_2.
    destruct (size (quizScores s')) eqn:E; [| lia].
    apply map_size_empty_iff in E. fold s' in He'. rewrite E in He'.
    rewrite lookup_empty in He'. discriminate. }
  split; [exact H |]. unfold rawProgress. by rewrite H.
Qed.

Lemma quiz_mode_is_permanent_witness :
  hasQuizzes (fst (play quiz60 [(Api ResetQuestions, 5); (TimeTick, 6)])) = true.
Proof.
  exact (proj1 (quiz_mode_is_permanent quiz60 [(Api ResetQuestions, 5); (TimeTick, 6)]
                  "Quiz"
                  {| q_score := ofZ 6; q_maxScore := ofZ 10; q_percentage := ofZ 60;
                     q_totalQuestions := ofZ 10; q_timestamp := 1 |} eq_refl)).
Defined.

(** * Properties of the radar chart *)

(** ** The data it plots *)

Lemma scoreOf_not_NaN (m : gmap string num) (topic : string) :
  Radar.scoreOf m topic <> NaN.
Proof.
  unfold Radar.scoreOf. destruct (m !! topic) as [[x | | |] |]; cbn; try discriminate.
  destruct (negb (Qeq_bool x 0)); discriminate.
Qed.

(** X21.  The chart always has something to plot: with an empty
    [topicScores] it falls back to six default topics, all at 0, so there is
    at least one topic (and [angleStep] never divides by zero), one score per
    topic, and no score is [NaN]: a falsy value is plotted as 0. *)
Theorem radar_always_has_data (m : gmap string num) :
  (0 < length (Radar.topics m))%nat /\
  length (Radar.scores m) = length (Radar.topics m) /\
  Forall (fun v => v <> NaN) (Radar.scores m) /\
  (if bool_decide (m = ∅)
   then Radar.topics m = Radar.defaultTopics /\ Radar.scores m = replicate 6 (ofZ 0)
   else NoDup (Radar.topics m) /\ forall t, t ∈ Radar.topics m <-> is_Some (m !! t)).
Proof.
  split; [| split; [| split]].
  - unfold Radar.topics. case_bool_decide as H; [| cbn; lia].
    by rewrite length_fmap, length_map_to_list.
  - unfold Radar.scores. apply length_map.
  - unfold Radar.scores. apply Forall_forall. intros v Hv.
    apply list_elem_of_In, in_map_iff in Hv as (t & <- & _). apply scoreOf_not_NaN.
  - case_bool_decide as H.
    + subst m. split; reflexivity.
    + unfold Radar.topics. rewrite bool_decide_eq_true_2
        by (apply map_size_non_empty_iff in H; lia).
      split; [apply NoDup_fst_map_to_list |].
      intros t. rewrite list_elem_of_fmap. split.
      * intros ([k v] & -> & Hin). apply elem_of_map_to_list in Hin. eauto.
      * intros [v Hv]. exists (t, v). split; [reflexivity |].
        by apply elem_of_map_to_list.
Qed.

Lemma topicsClamped_updateTopicProgress (s : Session) (n : string) (p : num) (now : Z) :
  topicsClamped (topicProgress s) ->
  topicsClamped (topicProgress (fst (updateTopicProgress s n p now))).
Proof.
  intros Hs k v. unfold updateTopicProgress, assignTopic. cbn [fst].
  destruct (String.eqb n "__proto__"); cbn [topicProgress set_topicProgress];
    [apply Hs |].
  intros Hk. apply lookup_insert_Some in Hk as [[_ <-] | [_ Hk]]; [| by eapply Hs].
  fold (clampPercentage p). pose proof (clampPercentage_range p) as H.
  destruct p; [right; exact H | right; exact H | right; exact H | by left].
Qed.

Lemma topicProgress_call_other (s : Session) (c : Call) (now : Z) :
  (forall n p, c <> UpdateTopicProgress n p) ->
  topicProgress (fst (call s c now)) = topicProgress s.
Proof.
  intros H. destruct c; cbn [call]; try done.
  - unfold completeObjective. cbn [fst]. by destruct (find _ _).
  - unfold addObjective. by destruct (find _ _).
  - unfold recordQuizScore. cbn [fst]. destruct (get _ _); try done.
    by destruct (Num.gt _ _).
  - unfold recordQuestionAnswer. by destruct (get _ _).
  - exfalso. by eapply H.
Qed.

Lemma topicsClamped_play (es : list (Event * Z)) (s : Session) :
  topicsClamped (topicProgress s) -> topicsClamped (topicProgress (fst (play s es))).
Proof.
  revert s. induction es as [| [e now] es IH]; intros s Hs; [exact Hs |].
  cbn [play fst]. apply IH. destruct (api_or_not e) as [[c ->] | Hn].
  - cbn [handle fst]. destruct c as [| | | | n p | | |];
      try (rewrite topicProgress_call_other by discriminate; exact Hs).
    by apply topicsClamped_updateTopicProgress.
  - by destruct (handle_containers s e now Hn) as (_ & _ & -> & _).
Qed.

Lemma scoreOf_percent (m : gmap string num) (topic : string) :
  topicsClamped m -> percent (Radar.scoreOf m topic).
Proof.
  intros Hm. unfold Radar.scoreOf.
  assert (H0 : percent (ofZ 0)).
  { exists (inject_Z 0). split; [reflexivity | split; discriminate]. }
  destruct (m !! topic) as [v |] eqn:E; [| exact H0].
  destruct (Hm _ _ E) as [-> | Hv]; [exact H0 |].
  destruct (Num.truthy v); [exact Hv | exact H0].
Qed.

(** X22.  Fed with the topic progress of the tracker, the chart plots only
    numbers from 0 to 100, whatever the lesson script passed to
    [updateTopicProgress] along the way ([NaN], infinities, negative or
    oversized percentages included). *)
Theorem radar_plots_percentages (title : string) (now0 : Z) (es : list (Event * Z)) :
  Forall percent
    (Radar.scores (topicProgress (fst (play (initialState title now0) es)))).
Proof.
  assert (H : topicsClamped (topicProgress (fst (play (initialState title now0) es)))).
  { apply topicsClamped_play. intros k v Hk.
    cbn [topicProgress initialState] in Hk. rewrite lookup_empty in Hk. discriminate. }
  unfold Radar.scores. apply Forall_forall. intros v Hv.
  apply list_elem_of_In, in_map_iff in Hv as (t & <- & _). by apply scoreOf_percent.
Qed.

(** ** Radii *)

(** A rational that is a double is its own rounding, also when it is written
    in another way. *)
Lemma nearestDouble_exact (x : Q) (M j : Z) :
  0 <= M < 2 ^ 53 -> (x == inject_Z M * 2 ^ j)%Q -> (Num.nearestDouble x == x)%Q.
Proof.
  intros HM E. destruct (Z.eq_dec M 0) as [-> | Hne].
  - assert (E0 : (x == 0)%Q) by (rewrite E; change (inject_Z 0) with 0%Q; ring).
    rewrite (nearestDouble_0 x E0). by rewrite E0.
  - apply Qle_antisym.
    + rewrite E at 2. apply nearestDouble_le_double; [| lia | rewrite E; apply Qle_refl].
      rewrite E. apply Qmult_lt_0_compat; [| apply pow2_pos].
      rewrite <- (Zlt_Qlt 0). lia.
    + rewrite E at 1. apply nearestDouble_ge_double; [lia | rewrite E; apply Qle_refl].
Qed.

(** [maxRadius] on a canvas of whole pixels is exact. *)
Lemma maxRadius_exact (width height : Z) :
  120 <= width < 2 ^ 53 -> 120 <= height < 2 ^ 53 ->
  exists R : Q,
    Radar.maxRadius (ofZ width) (ofZ height) = Fin R /\
    (R == inject_Z (Z.min width height - 120) * 2 ^ (-1))%Q.
Proof.
  intros Hw Hh.
  assert (Hhalf : forall w : Z, 120 <= w < 2 ^ 53 ->
            (Num.nearestDouble (inject_Z w / inject_Z 2) == inject_Z w * 2 ^ (-1))%Q).
  { intros w Hw'. rewrite (nearestDouble_exact _ w (-1)); [| lia |];
      change (2 ^ (-1))%Q with (/ 2)%Q; reflexivity. }
  unfold Radar.maxRadius, Num.fsub, Num.fdiv, Num.div, ofZ. rewrite !sgn_inject_Z.
  cbn [Z.compare Num.rounded Num.min].
  pose proof (Hhalf width Hw) as Ew. pose proof (Hhalf height Hh) as Eh.
  assert (Hord : forall a b : Z, (inject_Z a * 2 ^ (-1) <= inject_Z b * 2 ^ (-1))%Q <-> a <= b).
  { intros a b. change (2 ^ (-1))%Q with (1 # 2)%Q. rewrite Zle_Qle. split; intros H; lra. }
  assert (Hsub : forall m : Z, 120 <= m < 2 ^ 53 -> forall X : Q,
            (X == inject_Z m * 2 ^ (-1))%Q ->
            (Num.nearestDouble (X - inject_Z 60) == inject_Z (m - 120) * 2 ^ (-1))%Q).
  { intros m Hm X EX.
    assert (E : (X - inject_Z 60 == inject_Z (m - 120) * 2 ^ (-1))%Q).
    { rewrite EX. unfold Zminus. rewrite inject_Z_plus.
      change (inject_Z (- (120))) with (- (120))%Q. change (inject_Z 60) with 60%Q.
      change (2 ^ (-1))%Q with (1 # 2)%Q. ring. }
    rewrite (nearestDouble_exact _ (m - 120) (-1)); [exact E | lia | exact E]. }
  destruct (Num.gt _ _) eqn:Hgt; cbn [Num.sub Num.rounded]; eexists;
    (split; [reflexivity |]).
  - cbn [Num.gt] in Hgt. apply negb_true_iff in Hgt.
    assert (Hlt : height < width).
    { destruct (Z_lt_le_dec height width) as [H | H]; [exact H |].
      exfalso. apply not_true_iff_false in Hgt. apply Hgt, Qle_bool_iff.
      rewrite Ew, Eh. by apply (proj2 (Hord width height)). }
    rewrite Z.min_r by lia. by apply Hsub.
  - cbn [Num.gt] in Hgt. apply negb_false_iff, Qle_bool_iff in Hgt.
    rewrite Ew, Eh in Hgt. apply (proj1 (Hord width height)) in Hgt.
    rewrite Z.min_l by lia. by apply Hsub.
Qed.

(** A score from 0 to 100 is plotted within [maxRadius], when that is a
    double. *)
Lemma scoreRadius_within (x R : Q) (M j : Z) :
  (0 <= x <= 100)%Q -> 0 <= M < 2 ^ 53 -> (R == inject_Z M * 2 ^ j)%Q ->
  (0 <= Num.nearestDouble (Num.nearestDouble (x / inject_Z 100) * R) <= R)%Q.
Proof.
  intros Hx HM ER.
  assert (HR : (0 <= R)%Q).
  { rewrite ER. apply Qmult_le_0_compat; [| apply Qlt_le_weak, pow2_pos].
    rewrite <- (Zle_Qle 0). lia. }
  assert (Hq : (0 <= x / inject_Z 100 <= inject_Z 1)%Q).
  { change (inject_Z 100) with 100%Q. change (inject_Z 1) with 1%Q.
    unfold Qdiv. change (/ 100)%Q with (1 # 100)%Q. lra. }
  apply (nearestDouble_within _ 1 ltac:(lia)) in Hq. revert Hq.
  generalize (Num.nearestDouble (x / inject_Z 100)). intros q Hq.
  change (inject_Z 1) with 1%Q in Hq.
  assert (Ht0 : (0 <= q * R)%Q) by (apply Qmult_le_0_compat; lra).
  assert (Ht1 : (q * R <= R)%Q).
  { assert (H : (q * R <= 1 * R)%Q) by (apply Qmult_le_compat_r; lra). lra. }
  split; [by apply nearestDouble_nonneg |].
  destruct (Qlt_le_dec 0 (q * R)) as [Hpos | Hle].
  - rewrite ER at 2. apply nearestDouble_le_double; [exact Hpos | | by rewrite <- ER].
    destruct (Z.eq_dec M 0) as [-> | Hne]; [| lia].
    exfalso. rewrite ER in Hpos, Ht1. change (inject_Z 0) with 0%Q in *.
    revert Hpos Ht1. generalize (2 ^ j)%Q. intros p Hpos Ht1. lra.
  - rewrite nearestDouble_0 by lra. exact HR.
Qed.

(** The radius of ring [i] and the radius of a score of [i * 20] are the
    same product rounded along two ways: they differ by at most
    [2^-51 * maxRadius]. *)
Lemma ring_near_score (R : Q) (i : Z) :
  (0 <= R)%Q -> 1 <= i <= 5 ->
  (Qabs (Num.nearestDouble (Num.nearestDouble (R / inject_Z 5) * inject_Z i)
         - Num.nearestDouble
             (Num.nearestDouble (inject_Z (Radar.ringLabel i) / inject_Z 100) * R))
   <= R * (1 # 2251799813685248))%Q.
Proof.
  intros HR Hi. destruct (Qlt_le_dec 0 R) as [Hpos | Hle].
  - assert (Hiq : (1 <= inject_Z i <= 5)%Q).
    { change 1%Q with (inject_Z 1). change 5%Q with (inject_Z 5).
      rewrite <- !Zle_Qle. lia. }
    assert (Ec : (inject_Z (Radar.ringLabel i) / inject_Z 100 == inject_Z i / 5)%Q).
    { unfold Radar.ringLabel. rewrite inject_Z_mult.
      change (inject_Z 20) with 20%Q. change (inject_Z 100) with 100%Q. field. }
    assert (Hc0 : (0 < inject_Z (Radar.ringLabel i) / inject_Z 100)%Q).
    { rewrite Ec. unfold Qdiv. change (/ 5)%Q with (1 # 5)%Q. lra. }
    assert (Hp0 : (0 < R / inject_Z 5)%Q).
    { change (inject_Z 5) with 5%Q. unfold Qdiv. change (/ 5)%Q with (1 # 5)%Q. lra. }
    pose proof (nearestDouble_error _ Hp0) as Hp.
    pose proof (nearestDouble_error _ Hc0) as Hc.
    revert Hp Hc.
    generalize (Num.nearestDouble (R / inject_Z 5))
               (Num.nearestDouble (inject_Z (Radar.ringLabel i) / inject_Z 100)).
    intros p c Hp Hc. rewrite Ec in Hc. change (inject_Z 5) with 5%Q in Hp.
    set (T := (R * inject_Z i / 5)%Q).
    assert (HT : (0 < T <= R)%Q).
    { unfold T, Qdiv. change (/ 5)%Q with (1 # 5)%Q. split.
      - apply Qmult_lt_0_compat; [| reflexivity]. apply Qmult_lt_0_compat; lra.
      - assert (H : (R * inject_Z i <= R * 5)%Q) by (apply Qmult_le_l; lra). lra. }
    assert (HX : (T * (1 - (1 # 9007199254740992)) <= p * inject_Z i
                  <= T * (1 + (1 # 9007199254740992)))%Q).
    { assert (E1 : (T * (1 - (1 # 9007199254740992))
                    == R / 5 * (1 - (1 # 9007199254740992)) * inject_Z i)%Q)
        by (unfold T; field).
      assert (E2 : (T * (1 + (1 # 9007199254740992))
                    == R / 5 * (1 + (1 # 9007199254740992)) * inject_Z i)%Q)
        by (unfold T; field).
      rewrite E1, E2. split; apply Qmult_le_compat_r; lra. }
    assert (HY : (T * (1 - (1 # 9007199254740992)) <= c * R
                  <= T * (1 + (1 # 9007199254740992)))%Q).
    { assert (E1 : (T * (1 - (1 # 9007199254740992))
                    == inject_Z i / 5 * (1 - (1 # 9007199254740992)) * R)%Q)
        by (unfold T; field).
      assert (E2 : (T * (1 + (1 # 9007199254740992))
                    == inject_Z i / 5 * (1 + (1 # 9007199254740992)) * R)%Q)
        by (unfold T; field).
      rewrite E1, E2. split; apply Qmult_le_compat_r; lra. }
    clearbody T.
    assert (HX0 : (0 < p * inject_Z i)%Q) by lra.
    assert (HY0 : (0 < c * R)%Q) by lra.
    pose proof (nearestDouble_error _ HX0) as Ha.
    pose proof (nearestDouble_error _ HY0) as Hb.
    revert Ha Hb HX HY.
    generalize (Num.nearestDouble (p * inject_Z i)) (Num.nearestDouble (c * R))
               (p * inject_Z i)%Q (c * R)%Q.
    intros a b X Y Ha Hb HX HY.
    apply Qabs_Qle_condition. split; lra.
  - assert (E0 : (R == 0)%Q) by lra.
    assert (E1 : (R / inject_Z 5 == 0)%Q) by (rewrite E0; reflexivity).
    rewrite (nearestDouble_0 _ E1).
    assert (E2 : (0 * inject_Z i == 0)%Q) by ring.
    rewrite (nearestDouble_0 _ E2).
    assert (E3 : (Num.nearestDouble (inject_Z (Radar.ringLabel i) / inject_Z 100) * R
                  == 0)%Q) by (rewrite E0; ring).
    rewrite (nearestDouble_0 _ E3). rewrite E0. discriminate.
Qed.

(** X23.  On a canvas of whole pixels, at least 120 by 120, [maxRadius] is
    exactly [(min(width, height) - 120) / 2]; a score from 0 to 100 is
    plotted between the centre and [maxRadius]; and the ring labelled
    [i * 20]% lies where a score of [i * 20] is plotted up to the rounding of
    doubles: the two radii differ by at most [2^-51 * maxRadius] (they are
    not always equal, see [ring_and_score_differ] below). *)
Theorem rings_match_scores (width height i : Z) (score : num)
    (Hw : 120 <= width < 2 ^ 53) (Hh : 120 <= height < 2 ^ 53)
    (Hi : 1 <= i <= 5) (Hscore : percent score) :
  exists R r a b : Q,
    Radar.maxRadius (ofZ width) (ofZ height) = Fin R /\
    (R == inject_Z (Z.min width height - 120) / 2)%Q /\
    Radar.scoreRadius score (Fin R) = Fin r /\ (0 <= r <= R)%Q /\
    Radar.ringRadius (Fin R) i = Fin a /\
    Radar.scoreRadius (ofZ (Radar.ringLabel i)) (Fin R) = Fin b /\
    (Qabs (a - b) <= R * (1 # 2251799813685248))%Q.
Proof.
  destruct (maxRadius_exact width height Hw Hh) as (R & HR & ER).
  destruct Hscore as (x & -> & Hx).
  assert (HR0 : (0 <= R)%Q).
  { rewrite ER. apply Qmult_le_0_compat; [| apply Qlt_le_weak, pow2_pos].
    rewrite <- (Zle_Qle 0). lia. }
  exists R. unfold Radar.scoreRadius, Radar.ringRadius, Num.fmul, Num.fdiv, Num.div, ofZ.
  rewrite !sgn_inject_Z. cbn [Z.compare Num.mul Num.rounded].
  do 3 eexists. split; [exact HR |]. split; [exact ER |].
  split; [reflexivity |].
  split; [apply (scoreRadius_within x R (Z.min width height - 120) (-1)); [exact Hx | lia | exact ER] |].
  split; [reflexivity |]. split; [reflexivity |].
  by apply ring_near_score.
Qed.

(** With a [maxRadius] of 196 (a canvas of 512 by 512) ring 3 is drawn at
    [117.60000000000001] and a score of 60 at [117.6]. *)
Example ring_and_score_differ :
  Radar.maxRadius (ofZ 512) (ofZ 512) = ofZ 196 /\
  Radar.ringRadius (ofZ 196) 3 = Fin (8275364315293287 # 70368744177664) /\
  Radar.scoreRadius (ofZ 60) (ofZ 196) = Fin (4137682157646643 # 35184372088832).
Proof. vm_compute. repeat split. Qed.

Lemma rings_match_scores_witness :
  exists R r a b : Q,
    Radar.maxRadius (ofZ 400) (ofZ 300) = Fin R /\
    (R == inject_Z (Z.min 400 300 - 120) / 2)%Q /\
    Radar.scoreRadius (ofZ 50) (Fin R) = Fin r /\ (0 <= r <= R)%Q /\
    Radar.ringRadius (Fin R) 3 = Fin a /\
    Radar.scoreRadius (ofZ (Radar.ringLabel 3)) (Fin R) = Fin b /\
    (Qabs (a - b) <= R * (1 # 2251799813685248))%Q.
Proof.
  assert (Hp : percent (ofZ 50)).
  { exists 50%Q. split; [reflexivity | split; discriminate]. }
  assert (Hw : 120 <= 400 < 2 ^ 53) by (split; [discriminate | reflexivity]).
  assert (Hh : 120 <= 300 < 2 ^ 53) by (split; [discriminate | reflexivity]).
  assert (Hi : 1 <= 3 <= 5) by (split; discriminate).
  exact (rings_match_scores 400 300 3 (ofZ 50) Hw Hh Hi Hp).
Defined.

(** ** Topic labels *)

Lemma joinSpaces_cons_char (c : ascii) (w : string) (ws : list string) :
  Radar.joinSpaces (String c w :: ws) = String c (Radar.joinSpaces (w :: ws)).
Proof. destruct ws; reflexivity. Qed.

Lemma splitSpaces_join (s : string) :
  exists w ws, Radar.splitSpaces s = w :: ws /\
    Radar.joinSpaces (w :: map Radar.capitalize ws) = Radar.raiseAfterSpace false s /\
    Radar.joinSpaces (Radar.capitalize w :: map Radar.capitalize ws)
    = Radar.raiseAfterSpace true s.
Proof.
  induction s as [| c r (w & ws & Hs & Hf & Ht)].
  - exists EmptyString, []. by repeat split.
  - cbn [Radar.splitSpaces Radar.raiseAfterSpace]. rewrite Hs.
    destruct (Ascii.eqb c " ") eqn:E.
    + apply Ascii.eqb_eq in E. subst c. exists EmptyString, (w :: ws).
      split; [reflexivity |]. cbn [map Radar.capitalize].
      change (Radar.joinSpaces (EmptyString :: Radar.capitalize w :: map Radar.capitalize ws))
        with (String " " (Radar.joinSpaces (Radar.capitalize w :: map Radar.capitalize ws))).
      rewrite Ht. by split.
    + exists (String c w), ws. split; [reflexivity |]. cbn [Radar.capitalize].
      rewrite !joinSpaces_cons_char, Hf. by split.
Qed.

Lemma formatTopic_one_pass (topic : string) :
  Radar.formatTopic topic = Radar.raiseAfterSpace true (Radar.replaceUnderscores topic).
Proof.
  unfold Radar.formatTopic.
  destruct (splitSpaces_join (Radar.replaceUnderscores topic)) as (w & ws & -> & _ & H).
  exact H.
Qed.

Lemma upper_char_facts (c : ascii) :
  Radar.upper_char (Radar.upper_char c) = Radar.upper_char c /\
  Ascii.eqb (Radar.upper_char c) " " = Ascii.eqb c " " /\
  (Ascii.eqb c "_" = false -> Ascii.eqb (Radar.upper_char c) "_" = false) /\
  ((nat_of_ascii c <? 128)%nat = true ->
   (nat_of_ascii (Radar.upper_char c) <? 128)%nat = true).
Proof.
  destruct c as [[] [] [] [] [] [] [] []]; vm_compute; repeat split; congruence.
Qed.

Lemma replaceUnderscores_length (s : string) :
  String.length (Radar.replaceUnderscores s) = String.length s.
Proof. induction s as [| c r IH]; [reflexivity |]. cbn. by rewrite IH. Qed.

Lemma raiseAfterSpace_length (b : bool) (s : string) :
  String.length (Radar.raiseAfterSpace b s) = String.length s.
Proof.
  revert b. induction s as [| c r IH]; intros b; [reflexivity |]. cbn. by rewrite IH.
Qed.

Lemma no_underscore_replace (s : string) :
  Forall (fun c => Ascii.eqb c "_" = false)
    (list_ascii_of_string (Radar.replaceUnderscores s)).
Proof.
  induction s as [| c r IH]; [constructor |]. cbn. constructor; [| exact IH].
  destruct (Ascii.eqb c "_") eqn:E; [reflexivity | exact E].
Qed.

Lemma no_underscore_raise (b : bool) (s : string) :
  Forall (fun c => Ascii.eqb c "_" = false) (list_ascii_of_string s) ->
  Forall (fun c => Ascii.eqb c "_" = false)
    (list_ascii_of_string (Radar.raiseAfterSpace b s)).
Proof.
  revert b. induction s as [| c r IH]; intros b H; [constructor |]. cbn in *.
  apply Forall_cons in H as [Hc Hr]. constructor; [| by apply IH].
  destruct b; [by apply upper_char_facts | exact Hc].
Qed.

Lemma replaceUnderscores_id (s : string) :
  Forall (fun c => Ascii.eqb c "_" = false) (list_ascii_of_string s) ->
  Radar.replaceUnderscores s = s.
Proof.
  induction s as [| c r IH]; intros H; [reflexivity |]. cbn in *.
  apply Forall_cons in H as [Hc Hr]. by rewrite Hc, IH.
Qed.

Lemma raiseAfterSpace_idempotent (b : bool) (s : string) :
  Radar.raiseAfterSpace b (Radar.raiseAfterSpace b s) = Radar.raiseAfterSpace b s.
Proof.
  revert b. induction s as [| c r IH]; intros b; [reflexivity |].
  cbn [Radar.raiseAfterSpace]. destruct b.
  - destruct (upper_char_facts c) as (H1 & H2 & _). rewrite H1, H2. by rewrite IH.
  - by rewrite IH.
Qed.

Lemma isAscii_replace (s : string) :
  Radar.isAscii s = true -> Radar.isAscii (Radar.replaceUnderscores s) = true.
Proof.
  induction s as [| c r IH]; [done |]. cbn. intros H.
  apply andb_true_iff in H as [Hc Hr]. rewrite (IH Hr), andb_true_r.
  destruct (Ascii.eqb c "_"); [reflexivity | exact Hc].
Qed.

Lemma isAscii_raise (b : bool) (s : string) :
  Radar.isAscii s = true -> Radar.isAscii (Radar.raiseAfterSpace b s) = true.
Proof.
  revert b. induction s as [| c r IH]; intros b; [done |]. cbn. intros H.
  apply andb_true_iff in H as [Hc Hr]. rewrite (IH _ Hr), andb_true_r.
  destruct b; [by apply upper_char_facts | exact Hc].
Qed.

(** X24.  The label of a topic, for a name of code units below 128: it has
    the length of the name, contains no underscore, is again such a name, and
    formatting it once more changes nothing. *)
Theorem formatTopic_label (topic : string) (Hascii : Radar.isAscii topic = true) :
  String.length (Radar.formatTopic topic) = String.length topic /\
  Forall (fun c => Ascii.eqb c "_" = false)
    (list_ascii_of_string (Radar.formatTopic topic)) /\
  Radar.isAscii (Radar.formatTopic topic) = true /\
  Radar.formatTopic (Radar.formatTopic topic) = Radar.formatTopic topic.
Proof.
  pose proof (no_underscore_raise true _ (no_underscore_replace topic)) as Hno.
  rewrite (formatTopic_one_pass (Radar.formatTopic topic)).
  rewrite !formatTopic_one_pass.
  split; [by rewrite raiseAfterSpace_length, replaceUnderscores_length |].
  split; [exact Hno |]. split; [by apply isAscii_raise, isAscii_replace |].
  rewrite (replaceUnderscores_id _ Hno). apply raiseAfterSpace_idempotent.
Qed.

Lemma formatTopic_label_witness :
  Radar.formatTopic "dc_theory" = "Dc Theory"%string /\
  Radar.formatTopic (Radar.formatTopic "dc_theory") = Radar.formatTopic "dc_theory".
Proof.
  split; [reflexivity |].
  exact (proj2 (proj2 (proj2 (formatTopic_label "dc_theory" eq_refl)))).
Defined.

(** ** The sweep and its loops *)

Lemma advance_cycle : Nat.iter 315 Radar.advance 0%Q = 0%Q.
Proof. vm_compute. reflexivity. Qed.

Lemma advance_cycles (q : nat) : Nat.iter (q * 315) Radar.advance 0%Q = 0%Q.
Proof.
  induction q as [| q IH]; [reflexivity |].
  replace (S q * 315)%nat with (315 + q * 315)%nat by lia.
  rewrite Nat.iter_add, IH. exact advance_cycle.
Qed.

Lemma advance_mod (k : nat) :
  Nat.iter k Radar.advance 0%Q = Nat.iter (k mod 315) Radar.advance 0%Q.
Proof.
  transitivity (Nat.iter (k mod 315 + k / 315 * 315) Radar.advance 0%Q).
  - f_equal. pose proof (Nat.div_mod_eq k 315). lia.
  - by rewrite Nat.iter_add, advance_cycles.
Qed.

Lemma advance_first_cycle :
  forallb (fun k : nat =>
             let a := Nat.iter k Radar.advance 0%Q in
             Qle_bool 0 a && negb (Qle_bool Radar.twoPi a) &&
             Qle_bool (Qabs (a - (1 # 50) * inject_Z (Z.of_nat k)))
                      (1 # 10000000000000))
          (seq 0 315) = true.
Proof. vm_compute. reflexivity. Qed.

(** X25.  With one chart the sweep comes back to 0 every 315 frames, in
    the arithmetic of doubles: the angle after [k] frames is the angle after
    [k mod 315] frames, it lies in [[0, 2 * Math.PI)], and it is
    [0.02 * (k mod 315)] up to [10^-13]. *)
Theorem sweep_period (k : nat) :
  let a := Nat.iter k Radar.advance 0%Q in
  a = Nat.iter (k mod 315) Radar.advance 0%Q /\
  (0 <= a)%Q /\ (a < Radar.twoPi)%Q /\
  (Qabs (a - (1 # 50) * inject_Z (Z.of_nat (k mod 315))) <= 1 # 10000000000000)%Q.
Proof.
  intros a. subst a. split; [apply advance_mod |]. rewrite advance_mod.
  pose proof advance_first_cycle as H. rewrite forallb_forall in H.
  specialize (H (k mod 315)%nat). cbv zeta in H.
  assert (Hin : In (k mod 315)%nat (seq 0 315)).
  { apply in_seq. pose proof (Nat.mod_upper_bound k 315). lia. }
  apply H in Hin. apply andb_prop in Hin as [Hin H3].
  apply andb_prop in Hin as [H1 H2].
  apply Qle_bool_iff in H1, H3. apply negb_true_iff in H2.
  split; [exact H1 |]. split; [| exact H3].
  apply Qnot_le_lt. intros Hle. apply Qle_bool_iff in Hle. congruence.
Qed.

Lemma frame_fold (ws : list positive) (r : Radar.state) :
  Radar.sweepAngle (foldl (fun r _ => Radar.animate r) r ws)
  = Nat.iter (length ws) Radar.advance (Radar.sweepAngle r) /\
  length (Radar.waiting (foldl (fun r _ => Radar.animate r) r ws))
  = (length (Radar.waiting r) + length ws)%nat.
Proof.
  revert r. induction ws as [| w ws IH]; intros r; [cbn; split; [done | lia] |].
  cbn [foldl length]. destruct (IH (Radar.animate r)) as [H1 H2].
  rewrite H1, H2. cbn [Radar.sweepAngle Radar.waiting Radar.animate].
  rewrite length_app. cbn [length]. split; [| lia].
  symmetry. apply Nat.iter_succ_r.
Qed.

Lemma frame_spec (r : Radar.state) :
  Radar.sweepAngle (Radar.frame r)
  = Nat.iter (length (Radar.waiting r)) Radar.advance (Radar.sweepAngle r) /\
  length (Radar.waiting (Radar.frame r)) = length (Radar.waiting r).
Proof.
  unfold Radar.frame.
  destruct (frame_fold (Radar.waiting r)
              {| Radar.sweepAngle := Radar.sweepAngle r;
                 Radar.animationFrame := Radar.animationFrame r;
                 Radar.waiting := []; Radar.nextHandle := Radar.nextHandle r |})
    as [H1 H2].
  by rewrite H1, H2.
Qed.

Lemma frames_length (k : nat) (r : Radar.state) :
  length (Radar.waiting (Radar.frames k r)) = length (Radar.waiting r).
Proof.
  revert r. induction k as [| k IH]; intros r; [reflexivity |].
  cbn [Radar.frames]. rewrite IH. apply frame_spec.
Qed.

Lemma charts_length (n : nat) (r : Radar.state) :
  length (Radar.waiting (Radar.charts n r)) = (length (Radar.waiting r) + n)%nat.
Proof.
  revert r. induction n as [| n IH]; intros r; [cbn; lia |].
  cbn [Radar.charts Radar.createRadarChart]. rewrite IH.
  cbn [Radar.waiting Radar.animate]. rewrite length_app. cbn [length]. lia.
Qed.

Lemma charts_sweep (n : nat) (r : Radar.state) :
  Radar.sweepAngle (Radar.charts n r) = Nat.iter n Radar.advance (Radar.sweepAngle r).
Proof.
  revert r. induction n as [| n IH]; intros r; [reflexivity |].
  cbn [Radar.charts Radar.createRadarChart]. rewrite IH.
  cbn [Radar.sweepAngle Radar.animate].
  replace (S n) with (n + 1)%nat by lia. by rewrite Nat.iter_add.
Qed.

Lemma frames_sweep (k : nat) (r : Radar.state) :
  Radar.sweepAngle (Radar.frames k r)
  = Nat.iter (length (Radar.waiting r) * k) Radar.advance (Radar.sweepAngle r).
Proof.
  revert r. induction k as [| k IH]; intros r.
  - by rewrite Nat.mul_0_r.
  - cbn [Radar.frames]. rewrite IH. destruct (frame_spec r) as [H1 H2].
    rewrite H1, H2.
    replace (length (Radar.waiting r) * S k)%nat
      with (length (Radar.waiting r) * k + length (Radar.waiting r))%nat by lia.
    by rewrite Nat.iter_add.
Qed.

(** X26.  Every [createRadarChart] on an existing canvas starts a loop of
    its own and none ends by itself: after [n] charts, [n] callbacks wait for
    every frame, and the one sweep angle they share has moved [n] steps per
    frame, so a chart created again to show new scores sweeps twice as
    fast. *)
Theorem charts_add_loops (n k : nat) :
  let r := Radar.frames k (Radar.charts n Radar.initial) in
  length (Radar.waiting r) = n /\
  Radar.sweepAngle r = Nat.iter (n * S k) Radar.advance 0%Q.
Proof.
  intros r. subst r. split.
  - rewrite frames_length, charts_length. reflexivity.
  - rewrite frames_sweep, charts_sweep, charts_length. cbn [Radar.initial
      Radar.waiting Radar.sweepAngle length Nat.add].
    replace (n * S k)%nat with (n * k + n)%nat by lia.
    by rewrite Nat.iter_add.
Qed.

Lemma loopsTidy_animate (r : Radar.state) :
  loopsTidy r -> loopsTidy (Radar.animate r).
Proof.
  intros (Hnd & Hlt & _). unfold loopsTidy. cbn [Radar.animate Radar.waiting
    Radar.nextHandle Radar.animationFrame]. split; [| split].
  - apply NoDup_app. split; [exact Hnd |]. split; [| apply NoDup_singleton].
    intros h Hh Hh'. apply list_elem_of_singleton in Hh'. subst h.
    apply Hlt in Hh. lia.
  - intros h Hh. apply elem_of_app in Hh as [Hh | Hh].
    + apply Hlt in Hh. lia.
    + apply list_elem_of_singleton in Hh. subst h. lia.
  - intros _. exists (Radar.nextHandle r). split; [reflexivity |].
    apply elem_of_app. right. by apply list_elem_of_singleton.
Qed.

Lemma loopsTidy_fold (ws : list positive) (r : Radar.state) :
  loopsTidy r -> loopsTidy (foldl (fun r _ => Radar.animate r) r ws).
Proof.
  revert r. induction ws as [| w ws IH]; intros r Hr; [exact Hr |].
  cbn [foldl]. by apply IH, loopsTidy_animate.
Qed.

Lemma loopsTidy_frame (r : Radar.state) :
  loopsTidy r -> Radar.waiting r <> [] -> loopsTidy (Radar.frame r).
Proof.
  intros (Hnd & Hlt & Hlast) Hne. unfold Radar.frame.
  destruct (Radar.waiting r) as [| w ws] eqn:E; [done |].
  cbn [foldl]. apply loopsTidy_fold, loopsTidy_animate.
  unfold loopsTidy. cbn. split; [apply NoDup_nil_2 |]. split; [| done].
  intros h Hh. by apply elem_of_nil in Hh.
Qed.

Lemma loopsTidy_frames (k : nat) (r : Radar.state) :
  loopsTidy r -> Radar.waiting r <> [] ->
  loopsTidy (Radar.frames k r) /\ Radar.waiting (Radar.frames k r) <> [].
Proof.
  revert r. induction k as [| k IH]; intros r Hr Hne; [by split |].
  cbn [Radar.frames]. apply IH; [by apply loopsTidy_frame |].
  intros E. apply (f_equal length) in E. destruct (frame_spec r) as [_ H].
  rewrite H in E. destruct (Radar.waiting r); [done | discriminate].
Qed.

Lemma loopsTidy_charts (n : nat) (r : Radar.state) :
  loopsTidy r -> loopsTidy (Radar.charts n r).
Proof.
  revert r. induction n as [| n IH]; intros r Hr; [exact Hr |].
  cbn [Radar.charts Radar.createRadarChart]. by apply IH, loopsTidy_animate.
Qed.

Lemma filter_remove_one (h : positive) (l : list positive) :
  NoDup l -> h ∈ l -> S (length (filter (fun x => x <> h) l)) = length l.
Proof.
  induction l as [| x l IH]; intros Hnd Hin; [by apply elem_of_nil in Hin |].
  apply NoDup_cons in Hnd as [Hx Hnd]. rewrite filter_cons.
  apply elem_of_cons in Hin as [-> | Hin].
  - rewrite decide_False by (intros H; by apply H). cbn [length]. f_equal.
    clear IH Hnd. induction l as [| y l IH]; [reflexivity |].
    apply not_elem_of_cons in Hx as [Hy Hx]. rewrite filter_cons.
    rewrite decide_True by congruence. cbn [length]. f_equal. by apply IH.
  - rewrite decide_True by (intros ->; contradiction). cbn [length]. f_equal.
    by apply IH.
Qed.

(** X27.  [stopRadarAnimation] stops one loop, the one that requested a
    frame last: of [n + 1] charts, [n] keep animating after it, however many
    frames pass before and after, and a second call stops none of them. *)
Theorem stop_ends_one_loop (n k j : nat) :
  let r := Radar.stopRadarAnimation (Radar.frames k (Radar.charts (S n) Radar.initial)) in
  length (Radar.waiting (Radar.frames j r)) = n /\
  Radar.stopRadarAnimation r = r.
Proof.
  intros r.
  assert (H0 : loopsTidy Radar.initial).
  { unfold loopsTidy. cbn. split; [apply NoDup_nil_2 |]. split; [| done].
    intros h Hh. by apply elem_of_nil in Hh. }
  assert (Hc : Radar.waiting (Radar.charts (S n) Radar.initial) <> []).
  { intros E. apply (f_equal length) in E. rewrite charts_length in E.
    cbn in E. lia. }
  destruct (loopsTidy_frames k _ (loopsTidy_charts (S n) _ H0) Hc)
    as [(Hnd & _ & Hlast) Hne].
  destruct (Hlast Hne) as (h & Hh & Hin).
  assert (Hr : r = {| Radar.sweepAngle :=
                        Radar.sweepAngle (Radar.frames k (Radar.charts (S n) Radar.initial));
                      Radar.animationFrame := None;
                      Radar.waiting :=
                        filter (fun x => x <> h)
                          (Radar.waiting (Radar.frames k (Radar.charts (S n) Radar.initial)));
                      Radar.nextHandle :=
                        Radar.nextHandle (Radar.frames k (Radar.charts (S n) Radar.initial)) |}).
  { subst r. unfold Radar.stopRadarAnimation. by rewrite Hh. }
  split.
  - rewrite frames_length, Hr. cbn [Radar.waiting].
    pose proof (filter_remove_one h _ Hnd Hin) as H.
    rewrite frames_length, charts_length in H.
    cbn [Radar.initial Radar.waiting length] in H. lia.
  - rewrite Hr. reflexivity.
Qed.
